(** * Open-stream: session and role orchestration of a mediasoup SFU

    A shallow embedding of the signalling server ([server.ts]), of the room
    model ([src/mediasoup/room.ts]) and of the invite manager
    ([src/mediasoup/inviteManager.ts]), with the properties of the
    specification stated over it.

    Conventions.
    - A JavaScript [Map] is a [gmap]; the order of iteration of a [Map] is the
      order of insertion, the order of [map_fold] is not, and no statement
      below depends on either.
    - The media engine (mediasoup) and the token signer (jsonwebtoken) are
      collaborators: they are interfaces ([MediaEngine], [Jwt]) over which the
      model is parametric.  A collaborator call that throws is an answer
      [None] (or [false]) of the interface; the handler's [catch] block is the
      branch that receives it.
    - A socket handler is modelled twice.  Run in one piece ([handle],
      [reachable]) it is the handler when no other request has a turn while
      it awaits the media engine.  Cut at its awaits of the engine ([turn],
      [interleaved]) it leaves the turn to other requests and to other
      suspended handlers, in any order; what is stated over [interleaved]
      holds whatever the order.
    - The notifications a handler emits to other sockets
      ([socket.to(..).emit], [io.to(..).emit]) write no server state and are
      left out; a handler's [Reply] is what it passes to [callback]. *)

From Stdlib Require Import Ascii DecimalString.
From stdpp Require Import gmap strings list fin_maps pretty.

Local Open Scope string_scope.

(** ** Data model ([src/types/index.ts], [room.ts]) *)

(** [PeerRole], as [server.ts] uses it: the join handler declares
    ["host" | "producer" | "consumer" | "waiting"]. *)
Inductive PeerRole := host | producer | consumer | waiting.

Inductive MediaKind := audio | video.

(** The [kind] of a [createTransport] request. *)
Inductive TransportKind := send | recv.

#[global] Instance PeerRole_eq_dec : EqDecision PeerRole.
Proof. solve_decision. Defined.
#[global] Instance MediaKind_eq_dec : EqDecision MediaKind.
Proof. solve_decision. Defined.
#[global] Instance TransportKind_eq_dec : EqDecision TransportKind.
Proof. solve_decision. Defined.

(** Identifier of an object of the media engine (router, transport,
    producer, consumer): opaque to this layer. *)
Abbreviation HandleId := nat (only parsing).

(** Opaque to this layer too; only handed back to the engine. *)
Abbreviation RtpCapabilities := (list string) (only parsing).

Record Producer := { producer_id : HandleId; producer_kind : MediaKind }.

Record Consumer := { consumer_id : HandleId; consumer_kind : MediaKind }.

Record Peer := {
  peer_id : string;
  userId : string;
  displayName : string;
  role : PeerRole;
  sendTransport : option HandleId;
  recvTransport : option HandleId;
  producers : gmap HandleId Producer;
  consumers : gmap HandleId Consumer;
  rtpCapabilities : option RtpCapabilities
}.

#[global] Instance Producer_eq_dec : EqDecision Producer.
Proof. solve_decision. Defined.
#[global] Instance Consumer_eq_dec : EqDecision Consumer.
Proof. solve_decision. Defined.
#[global] Instance Peer_eq_dec : EqDecision Peer.
Proof. solve_decision. Defined.

Definition set_role (r : PeerRole) (p : Peer) : Peer :=
  {| peer_id := peer_id p; userId := userId p; displayName := displayName p;
     role := r; sendTransport := sendTransport p;
     recvTransport := recvTransport p; producers := producers p;
     consumers := consumers p; rtpCapabilities := rtpCapabilities p |}.

Definition set_sendTransport (t : option HandleId) (p : Peer) : Peer :=
  {| peer_id := peer_id p; userId := userId p; displayName := displayName p;
     role := role p; sendTransport := t;
     recvTransport := recvTransport p; producers := producers p;
     consumers := consumers p; rtpCapabilities := rtpCapabilities p |}.

Definition set_recvTransport (t : option HandleId) (p : Peer) : Peer :=
  {| peer_id := peer_id p; userId := userId p; displayName := displayName p;
     role := role p; sendTransport := sendTransport p;
     recvTransport := t; producers := producers p;
     consumers := consumers p; rtpCapabilities := rtpCapabilities p |}.

Definition set_producers (ps : gmap HandleId Producer) (p : Peer) : Peer :=
  {| peer_id := peer_id p; userId := userId p; displayName := displayName p;
     role := role p; sendTransport := sendTransport p;
     recvTransport := recvTransport p; producers := ps;
     consumers := consumers p; rtpCapabilities := rtpCapabilities p |}.

Definition set_consumers (cs : gmap HandleId Consumer) (p : Peer) : Peer :=
  {| peer_id := peer_id p; userId := userId p; displayName := displayName p;
     role := role p; sendTransport := sendTransport p;
     recvTransport := recvTransport p; producers := producers p;
     consumers := cs; rtpCapabilities := rtpCapabilities p |}.

Definition set_rtpCapabilities (c : RtpCapabilities) (p : Peer) : Peer :=
  {| peer_id := peer_id p; userId := userId p; displayName := displayName p;
     role := role p; sendTransport := sendTransport p;
     recvTransport := recvTransport p; producers := producers p;
     consumers := consumers p; rtpCapabilities := Some c |}.

(** [class Room]: the [worker] field is only used to create the router and
    is not kept. *)
Record Room := {
  room_id : string;
  router : HandleId;
  peers : gmap string Peer;
  hostSocketId : string;
  room_createdAt : N
}.

Definition set_peers (ps : gmap string Peer) (r : Room) : Room :=
  {| room_id := room_id r; router := router r; peers := ps;
     hostSocketId := hostSocketId r; room_createdAt := room_createdAt r |}.

(** ** The media engine, a collaborator

    [None] is a call that throws.  [handle_close] is the [close()] of any
    handle; closing may close more than the handle itself (a transport closes
    its producers), so the interface only promises that the handle is closed
    afterwards and that nothing closed is opened again by a [close()]. *)
Class MediaEngine (E : Type) := {
  worker_createRouter : E → option HandleId * E;
  router_createWebRtcTransport : HandleId → E → option HandleId * E;
  transport_connect : HandleId → E → bool * E;
  transport_produce : HandleId → MediaKind → E → option HandleId * E;
  router_canConsume : HandleId → HandleId → RtpCapabilities → E → bool;
  transport_consume :
    HandleId → HandleId → RtpCapabilities → E → option Consumer * E;
  handle_close : HandleId → E → E;
  handle_closed : E → HandleId → bool;
  handle_close_closed h e : handle_closed (handle_close h e) h = true;
  handle_close_mono h h' e :
    handle_closed e h' = true → handle_closed (handle_close h e) h' = true
}.

(** ** The token signer, a collaborator ([jsonwebtoken])

    [jwt_sign] is [jwt.sign(payload, JWT_SECRET)]; [jwt_verify tok now] is
    [jwt.verify(tok, JWT_SECRET)] at the time [now] (in seconds), [None] when
    it throws (bad signature, expired). *)
Record InvitePayload := {
  payload_roomId : string;
  payload_hostName : option string;
  iat : N;
  exp : N
}.

Class Jwt := {
  jwt_sign : InvitePayload → string;
  jwt_verify : string → N → option InvitePayload
}.

(** ** [class Room] *)
Module Room.
Section room.
Context {E : Type} `{!MediaEngine E}.

(** [static async create(id, hostSocketId)]; [now] is [new Date()]. *)
Definition create (id hostSocket : string) (now : N) (e : E)
  : option Room * E :=
  match worker_createRouter e with
  | (Some r, e') =>
      (Some {| room_id := id; router := r; peers := ∅;
               hostSocketId := hostSocket; room_createdAt := now |}, e')
  | (None, e') => (None, e')
  end.

(** [addPeer(socketId, userId, displayName, role)]: builds a new peer and
    [this.peers.set(socketId, peer)]; returns the peer. *)
Definition addPeer (socketId uid name : string) (r : PeerRole) (room : Room)
  : Room * Peer :=
  let peer := {| peer_id := socketId; userId := uid; displayName := name;
                 role := r; sendTransport := None; recvTransport := None;
                 producers := ∅; consumers := ∅;
                 rtpCapabilities := None |} in
  (set_peers (<[socketId := peer]> (peers room)) room, peer).

Definition getPeer (socketId : string) (room : Room) : option Peer :=
  peers room !! socketId.

(** [promotePeerToProducer(peerId): boolean] *)
Definition promotePeerToProducer (peerId : string) (room : Room)
  : Room * bool :=
  match peers room !! peerId with
  | None => (room, false)
  | Some peer =>
      match role peer with
      | consumer =>
          (set_peers (<[peerId := set_role producer peer]> (peers room)) room,
           true)
      | _ => (room, false)
      end
  end.

(** [approvePeerJoin(peerId): boolean] *)
Definition approvePeerJoin (peerId : string) (room : Room) : Room * bool :=
  match peers room !! peerId with
  | None => (room, false)
  | Some peer =>
      match role peer with
      | waiting =>
          (set_peers (<[peerId := set_role consumer peer]> (peers room)) room,
           true)
      | _ => (room, false)
      end
  end.

(** [for (const x of m.values()) x.close()] *)
Definition closeEach {A : Type} (f : A → HandleId) (m : gmap HandleId A)
  (e : E) : E :=
  map_fold (λ _ x acc, handle_close (f x) acc) e m.

(** [if (t) t.close()] *)
Definition closeOpt (t : option HandleId) (e : E) : E :=
  match t with
  | Some h => handle_close h e
  | None => e
  end.

(** [demotePeerToConsumer(peerId): void] *)
Definition demotePeerToConsumer (peerId : string) (room : Room) (e : E)
  : Room * E :=
  match peers room !! peerId with
  | None => (room, e)
  | Some peer =>
      let peer1 := set_role consumer peer in
      let e1 := closeOpt (sendTransport peer1) e in
      let peer2 := set_sendTransport None peer1 in
      let e2 := closeEach producer_id (producers peer2) e1 in
      let peer3 := set_producers ∅ peer2 in
      (set_peers (<[peerId := peer3]> (peers room)) room, e2)
  end.

(** [canPeerProduce(peerId): boolean] *)
Definition canPeerProduce (peerId : string) (room : Room) : bool :=
  match peers room !! peerId with
  | None => false
  | Some peer =>
      match role peer with
      | producer | host => true
      | _ => false
      end
  end.

(** [isHost(peerId): boolean] *)
Definition isHost (peerId : string) (room : Room) : bool :=
  match peers room !! peerId with
  | None => false
  | Some peer =>
      match role peer with
      | host => true
      | _ => bool_decide (peerId = hostSocketId room)
      end
  end.

(** [removePeer(socketId)].  The source returns nothing; the model returns
    the room, the engine, and the [Peer] object the local [peer] is bound
    to, as the method leaves it ([None] when the lookup failed).  A caller
    that looked the peer up before the call still holds that object: the
    disconnect handler reads [peer.displayName] after [removePeer]. *)
Definition removePeer (socketId : string) (room : Room) (e : E)
  : Room * E * option Peer :=
  match peers room !! socketId with
  | None => (room, e, None)
  | Some peer =>
      let e1 := closeEach producer_id (producers peer) e in
      let e2 := closeEach consumer_id (consumers peer) e1 in
      let e3 := closeOpt (sendTransport peer) e2 in
      let e4 := closeOpt (recvTransport peer) e3 in
      (set_peers (delete socketId (peers room)) room, e4, Some peer)
  end.

(** [getAllProducersForPeer(excludePeerId)]: the entries
    [(peerId, producerId, kind, producerDisplayName)]. *)
Definition getAllProducersForPeer (excludePeerId : string) (room : Room)
  : list (string * HandleId * MediaKind * string) :=
  map_fold (λ peerId peer acc,
    if bool_decide (excludePeerId ≠ "") && bool_decide (peerId = excludePeerId)
    then acc
    else map_fold (λ producerId p acc',
           (acc' ++ [(peerId, producerId, producer_kind p, displayName peer)])%list)
           acc (producers peer))
    [] (peers room).

Definition getPeerCount (room : Room) : nat := size (peers room).

Definition isEmpty (room : Room) : bool := bool_decide (size (peers room) = 0).

(** [async close()]: removes every peer, then closes the router.  The
    call [this.router.close()] is made before the method first suspends. *)
Definition close (room : Room) (e : E) : Room * E :=
  let '(room', e') :=
    map_fold (λ _ peer '(r, a), (removePeer (peer_id peer) r a).1)
             (room, e) (peers room) in
  (room', handle_close (router room') e').
End room.
End Room.


(** ** [class InviteManager] ([src/mediasoup/inviteManager.ts])

    The private map [tokens] is never read nor written and is left out. *)
Record RoomSession := {
  session_hostSocketId : string;
  session_hostName : string;
  session_createdAt : N;
  inviteToken : option string
}.

Record InviteManager := { roomSessions : gmap string RoomSession }.

(** JavaScript truthiness of an optional string: [undefined] and the empty
    string are falsy. *)
Definition truthy (s : option string) : option string :=
  match s with
  | Some t => if bool_decide (t = "") then None else Some t
  | None => None
  end.

Module InviteManager.
Section invite.
Context `{!Jwt}.

(** [24 * 60 * 60 * 1000], in milliseconds. *)
Definition INVITE_TOKEN_EXPIRY : N := 24 * 60 * 60 * 1000.

(** [generateInviteToken(roomId, hostName)]; [now] is [Date.now()]. *)
Definition generateInviteToken (roomId hostName : string) (now : N) : string :=
  jwt_sign {| payload_roomId := roomId;
              payload_hostName := Some hostName;
              iat := now `div` 1000;
              exp := now `div` 1000 + INVITE_TOKEN_EXPIRY `div` 1000 |}%N.

(** [verifyInviteToken(token)]: the pair [(roomId, valid)]. *)
Definition verifyInviteToken (token : string) (now : N) : string * bool :=
  match jwt_verify token (now `div` 1000)%N with
  | Some decoded => (payload_roomId decoded, true)
  | None => ("", false)
  end.

(** [createRoomSession(roomId, hostSocketId, hostName)] *)
Definition createRoomSession (roomId hostSocket hostName : string) (now : N)
  (im : InviteManager) : InviteManager * (string * string) :=
  let tok := generateInviteToken roomId hostName now in
  ({| roomSessions :=
        <[roomId := {| session_hostSocketId := hostSocket;
                       session_hostName := hostName;
                       session_createdAt := now;
                       inviteToken := Some tok |}]> (roomSessions im) |},
   (roomId, tok)).

Definition getRoomSession (roomId : string) (im : InviteManager)
  : option RoomSession :=
  roomSessions im !! roomId.

Definition removeRoomSession (roomId : string) (im : InviteManager)
  : InviteManager :=
  {| roomSessions := delete roomId (roomSessions im) |}.

(** [generateInviteLink(roomId, baseUrl)]:
    [session?.inviteToken || this.generateInviteToken(roomId, "host")]. *)
Definition generateInviteLink (roomId baseUrl : string) (now : N)
  (im : InviteManager) : string :=
  let tok :=
    match truthy (roomSessions im !! roomId ≫= inviteToken) with
    | Some t => t
    | None => generateInviteToken roomId "host" now
    end in
  baseUrl +:+ "/room/" +:+ roomId +:+ "?inviteToken=" +:+ tok.
End invite.
End InviteManager.

(** The earlier [InviteManager] of the repository: a session keeps no token
    and the payload has no [hostName]. *)
Module InviteManagerLegacy.
Section invite.
Context `{!Jwt}.

Definition generateInviteToken (roomId hostName : string) (now : N) : string :=
  jwt_sign {| payload_roomId := roomId;
              payload_hostName := None;
              iat := now `div` 1000;
              exp := now `div` 1000
                     + InviteManager.INVITE_TOKEN_EXPIRY `div` 1000 |}%N.

Definition createRoomSession (roomId hostSocket hostName : string) (now : N)
  (im : InviteManager) : InviteManager * (string * string) :=
  let im' :=
    {| roomSessions :=
         <[roomId := {| session_hostSocketId := hostSocket;
                        session_hostName := hostName;
                        session_createdAt := now;
                        inviteToken := None |}]> (roomSessions im) |} in
  (im', (roomId, generateInviteToken roomId hostName now)).
End invite.
End InviteManagerLegacy.

(** ** The signalling server ([server.ts]) *)

(** The process-wide state: [rooms], the [inviteManager] singleton, and the
    media engine. *)
Record Server (E : Type) := {
  rooms : gmap string Room;
  inviteManager : InviteManager;
  engine : E
}.
Arguments rooms {E} _.
Arguments inviteManager {E} _.
Arguments engine {E} _.

(** What a handler passes to [callback] (or [res.json]); [Error] carries the
    [error] string of the source. *)
Inductive Reply :=
| Error (msg : string)
| Joined (yourRole : PeerRole)
         (existingProducers : list (string * HandleId * MediaKind * string))
         (participants : list (string * string * string * PeerRole))
         (yourSocketId : string)
| TransportParams (id : HandleId)
| Connected
| Produced (id : HandleId)
| Consumed (id producerId : HandleId) (kind : MediaKind) (transportId : HandleId)
| Resumed
| Promoted
| Approved (promoted : bool)
| Demoted
| Requested
| RoomCreated (roomId inviteLink inviteTok hostName : string)
| NoReply.

#[global] Instance Reply_eq_dec : EqDecision Reply.
Proof. solve_decision. Defined.

(** The messages of a socket, and [POST /api/rooms]. *)
Inductive Request :=
| Join (roomId uid name : string) (caps : RtpCapabilities)
       (inviteTok : option string)
| CreateTransport (roomId : string) (kind : TransportKind)
| ConnectTransport (roomId : string) (transportId : HandleId)
| Produce (roomId : string) (transportId : HandleId) (kind : MediaKind)
| Consume (roomId : string) (producerId : HandleId) (caps : RtpCapabilities)
| ResumeConsumer (roomId : string) (consumerId : HandleId)
| PromoteToProducer (roomId peerId : string)
| ApproveJoin (roomId peerId : string) (promote : bool)
| DemoteToConsumer (roomId peerId : string)
| RequestSpeakingPermission (roomId : string)
| Disconnect
| ApiCreateRoom (hostName baseUrl : string).

Section server.
Context {E : Type} `{!MediaEngine E} `{!Jwt}.

Definition set_rooms (rs : gmap string Room) (st : Server E) : Server E :=
  {| rooms := rs; inviteManager := inviteManager st; engine := engine st |}.

Definition set_engine (e : E) (st : Server E) : Server E :=
  {| rooms := rooms st; inviteManager := inviteManager st; engine := e |}.

(** The room object is shared between [rooms] and the handler: a write to a
    peer of the room is a write to the entry of [rooms]. *)
Definition set_room (roomId : string) (room : Room) (st : Server E)
  : Server E :=
  set_rooms (<[roomId := room]> (rooms st)) st.

Definition set_peer (roomId : string) (room : Room) (socket : string)
  (peer : Peer) (st : Server E) : Server E :=
  set_room roomId (set_peers (<[socket := peer]> (peers room)) room) st.

(** [ensureRoom(roomId, hostSocketId, hostName)]; [None] when
    [Room.create] throws, before [rooms.set]. *)
Definition ensureRoom (roomId hostSocket hostName : string) (now : N)
  (st : Server E) : option Room * Server E :=
  match rooms st !! roomId with
  | Some room => (Some room, st)
  | None =>
      match Room.create roomId hostSocket now (engine st) with
      | (Some room, e') =>
          (Some room,
           {| rooms := <[roomId := room]> (rooms st);
              inviteManager :=
                (InviteManager.createRoomSession roomId hostSocket hostName
                   now (inviteManager st)).1;
              engine := e' |})
      | (None, e') => (None, set_engine e' st)
      end
  end.

(** [app.post("/api/rooms")] *)
Definition apiCreateRoom (hostName baseUrl : string) (now : N)
  (st : Server E) : Reply * Server E :=
  let roomId := "room-" +:+ pretty now in
  let '(im, (_, tok)) :=
    InviteManager.createRoomSession roomId "" hostName now
      (inviteManager st) in
  let link := InviteManager.generateInviteLink roomId baseUrl now im in
  (RoomCreated roomId link tok hostName,
   {| rooms := rooms st; inviteManager := im; engine := engine st |}).

(** [socket.on("join")] *)
Definition join (now : N) (socket roomId uid name : string)
  (caps : RtpCapabilities) (inviteTok : option string) (st : Server E)
  : Reply * Server E :=
  let rejected :=
    match truthy inviteTok with
    | Some tok =>
        let validation := InviteManager.verifyInviteToken tok now in
        negb validation.2 || bool_decide (validation.1 ≠ roomId)
    | None => false
    end in
  if rejected then (Error "Invalid or expired invite token", st)
  else
    match ensureRoom roomId socket name now st with
    | (None, st1) => (Error "Failed to join room", st1)
    | (Some room, st1) =>
        let r := if bool_decide (Room.getPeerCount room = 0)
                 then host else waiting in
        let room1 := (Room.addPeer socket uid name r room).1 in
        match Room.getPeer socket room1 with
        | None =>
            (Error "Failed to add peer to room", set_room roomId room1 st1)
        | Some peer =>
            let room2 :=
              set_peers (<[socket := set_rtpCapabilities caps peer]>
                           (peers room1)) room1 in
            let allProducers :=
              match r with
              | waiting => []
              | _ => Room.getAllProducersForPeer socket room2
              end in
            (Joined r allProducers
               ((λ p, (peer_id p, userId p, displayName p, role p))
                  <$> (map_to_list (peers room2)).*2)
               socket,
             set_room roomId room2 st1)
        end
    end.

(** [socket.on("createTransport")] *)
Definition createTransport (socket roomId : string) (kind : TransportKind)
  (st : Server E) : Reply * Server E :=
  match rooms st !! roomId with
  | None => (Error "Room not found", st)
  | Some room =>
      match Room.getPeer socket room with
      | None => (Error "Peer not found", st)
      | Some peer =>
          if bool_decide (kind = send) && negb (Room.canPeerProduce socket room)
          then (Error "Permission denied: You do not have permission to produce media. Wait for host approval.", st)
          else if bool_decide (kind = recv) && bool_decide (role peer = waiting)
          then (Error "Permission denied: waiting for host approval.", st)
          else
            match kind with
            | send =>
                match sendTransport peer with
                | Some t => (TransportParams t, st)
                | None =>
                    match router_createWebRtcTransport (router room) (engine st) with
                    | (Some t, e') =>
                        (TransportParams t,
                         set_peer roomId room socket
                           (set_sendTransport (Some t) peer)
                           (set_engine e' st))
                    | (None, e') =>
                        (Error "Failed to create transport", set_engine e' st)
                    end
                end
            | recv =>
                match recvTransport peer with
                | Some t => (TransportParams t, st)
                | None =>
                    match router_createWebRtcTransport (router room) (engine st) with
                    | (Some t, e') =>
                        (TransportParams t,
                         set_peer roomId room socket
                           (set_recvTransport (Some t) peer)
                           (set_engine e' st))
                    | (None, e') =>
                        (Error "Failed to create transport", set_engine e' st)
                    end
                end
            end
      end
  end.

(** [socket.on("connectTransport")] *)
Definition connectTransport (socket roomId : string) (transportId : HandleId)
  (st : Server E) : Reply * Server E :=
  match rooms st !! roomId with
  | None => (Error "Room not found", st)
  | Some room =>
      match Room.getPeer socket room with
      | None => (Error "Peer not found", st)
      | Some peer =>
          let transport :=
            if bool_decide (sendTransport peer = Some transportId)
            then sendTransport peer else recvTransport peer in
          match transport with
          | Some t =>
              if bool_decide (t = transportId) then
                match transport_connect t (engine st) with
                | (true, e') => (Connected, set_engine e' st)
                | (false, e') =>
                    (Error "Failed to connect transport", set_engine e' st)
                end
              else (Error "Transport not found", st)
          | None => (Error "Transport not found", st)
          end
      end
  end.

(** [socket.on("produce")] *)
Definition produce (socket roomId : string) (transportId : HandleId)
  (kind : MediaKind) (st : Server E) : Reply * Server E :=
  match rooms st !! roomId with
  | None => (Error "Room not found", st)
  | Some room =>
      match Room.getPeer socket room with
      | None => (Error "Peer not found", st)
      | Some peer =>
          if negb (Room.canPeerProduce socket room)
          then (Error "Permission denied: You do not have permission to produce media", st)
          else
            match sendTransport peer with
            | Some t =>
                if bool_decide (t = transportId) then
                  match transport_produce t kind (engine st) with
                  | (Some pid, e') =>
                      (Produced pid,
                       set_peer roomId room socket
                         (set_producers
                            (<[pid := {| producer_id := pid;
                                         producer_kind := kind |}]>
                               (producers peer)) peer)
                         (set_engine e' st))
                  | (None, e') => (Error "Failed to produce", set_engine e' st)
                  end
                else (Error "Send transport not found", st)
            | None => (Error "Send transport not found", st)
            end
      end
  end.

(** [socket.on("consume")]: the receive transport is made on demand, and
    stays on the peer when [transport.consume] throws afterwards. *)
Definition consume (socket roomId : string) (producerId : HandleId)
  (caps : RtpCapabilities) (st : Server E) : Reply * Server E :=
  match rooms st !! roomId with
  | None => (Error "Room not found", st)
  | Some room =>
      match Room.getPeer socket room with
      | None => (Error "Peer not found", st)
      | Some peer =>
          if negb (router_canConsume (router room) producerId caps (engine st))
          then (Error "Cannot consume", st)
          else
            let made :=
              match recvTransport peer with
              | Some t => (Some t, peer, engine st)
              | None =>
                  match router_createWebRtcTransport (router room) (engine st) with
                  | (Some t, e') => (Some t, set_recvTransport (Some t) peer, e')
                  | (None, e') => (None, peer, e')
                  end
              end in
            match made with
            | (None, _, e1) => (Error "Failed to consume", set_engine e1 st)
            | (Some t, peer1, e1) =>
                match transport_consume t producerId caps e1 with
                | (Some c, e2) =>
                    (Consumed (consumer_id c) producerId (consumer_kind c) t,
                     set_peer roomId room socket
                       (set_consumers (<[consumer_id c := c]> (consumers peer1))
                          peer1)
                       (set_engine e2 st))
                | (None, e2) =>
                    (Error "Failed to consume",
                     set_peer roomId room socket peer1 (set_engine e2 st))
                end
            end
      end
  end.

(** [socket.on("resumeConsumer")] *)
Definition resumeConsumer (socket roomId : string) (consumerId : HandleId)
  (st : Server E) : Reply * Server E :=
  match rooms st !! roomId with
  | None => (Error "Room not found", st)
  | Some room =>
      match Room.getPeer socket room with
      | None => (Error "Peer not found", st)
      | Some _ => (Resumed, st)
      end
  end.

(** [socket.on("promoteToProducer")] *)
Definition promoteToProducer (socket roomId peerId : string) (st : Server E)
  : Reply * Server E :=
  match rooms st !! roomId with
  | None => (Error "Room not found", st)
  | Some room =>
      if negb (Room.isHost socket room)
      then (Error "Only host can approve permissions", st)
      else
        match Room.getPeer peerId room with
        | None => (Error "Peer not found", st)
        | Some _ =>
            let '(room1, success) := Room.promotePeerToProducer peerId room in
            if negb success
            then (Error "Peer is already a producer or host",
                  set_room roomId room1 st)
            else (Promoted, set_room roomId room1 st)
        end
  end.

(** [socket.on("approveJoin")] *)
Definition approveJoin (socket roomId peerId : string) (promote : bool)
  (st : Server E) : Reply * Server E :=
  match rooms st !! roomId with
  | None => (Error "Room not found", st)
  | Some room =>
      if negb (Room.isHost socket room)
      then (Error "Only host can approve joining", st)
      else
        match Room.getPeer peerId room with
        | None => (Error "Peer not found", st)
        | Some _ =>
            let '(room1, success) := Room.approvePeerJoin peerId room in
            if negb success
            then (Error "Peer is not waiting", set_room roomId room1 st)
            else
              let room2 :=
                if promote then (Room.promotePeerToProducer peerId room1).1
                else room1 in
              (Approved promote, set_room roomId room2 st)
        end
  end.

(** [socket.on("demoteToConsumer")] *)
Definition demoteToConsumer (socket roomId peerId : string) (st : Server E)
  : Reply * Server E :=
  match rooms st !! roomId with
  | None => (Error "Room not found", st)
  | Some room =>
      if negb (Room.isHost socket room)
      then (Error "Only host can revoke permissions", st)
      else
        match Room.getPeer peerId room with
        | None => (Error "Peer not found", st)
        | Some targetPeer =>
            match role targetPeer with
            | host => (Error "Cannot demote host", st)
            | _ =>
                let '(room1, e1) :=
                  Room.demotePeerToConsumer peerId room (engine st) in
                (Demoted, set_room roomId room1 (set_engine e1 st))
            end
        end
  end.

(** [socket.on("requestSpeakingPermission")] *)
Definition requestSpeakingPermission (socket roomId : string) (st : Server E)
  : Reply * Server E :=
  match rooms st !! roomId with
  | None => (Error "Room not found", st)
  | Some room =>
      match Room.getPeer socket room with
      | None => (Error "Peer not found", st)
      | Some peer =>
          match role peer with
          | producer | host => (Error "Already have speaking permission", st)
          | _ => (Requested, st)
          end
      end
  end.

(** The body of the loop of [socket.on("disconnect")], for one entry
    [[roomId, room]] of [rooms]. *)
Definition disconnectRoom (socket roomId : string) (room : Room)
  (st : Server E) : Server E :=
  match Room.getPeer socket room with
  | None => st
  | Some peer =>
      let e1 := Room.closeEach producer_id (producers peer) (engine st) in
      let e2 := Room.closeEach consumer_id (consumers peer) e1 in
      let e3 := Room.closeOpt (sendTransport peer) e2 in
      let e4 := Room.closeOpt (recvTransport peer) e3 in
      let '(room1, e5, _) := Room.removePeer socket room e4 in
      if Room.isEmpty room1 then
        let '(_, e6) := Room.close room1 e5 in
        {| rooms := delete roomId (rooms st);
           inviteManager :=
             InviteManager.removeRoomSession roomId (inviteManager st);
           engine := e6 |}
      else set_room roomId room1 (set_engine e5 st)
  end.

(** [socket.on("disconnect")]: [for (const [roomId, room] of rooms)]. *)
Definition disconnect (socket : string) (st : Server E) : Server E :=
  map_fold (disconnectRoom socket) st (rooms st).

(** One request of the socket [socket] (of no socket for [ApiCreateRoom]),
    received at the time [now]. *)
Definition handle (now : N) (socket : string) (req : Request) (st : Server E)
  : Reply * Server E :=
  match req with
  | Join roomId uid name caps tok => join now socket roomId uid name caps tok st
  | CreateTransport roomId kind => createTransport socket roomId kind st
  | ConnectTransport roomId t => connectTransport socket roomId t st
  | Produce roomId t kind => produce socket roomId t kind st
  | Consume roomId pid caps => consume socket roomId pid caps st
  | ResumeConsumer roomId cid => resumeConsumer socket roomId cid st
  | PromoteToProducer roomId peerId => promoteToProducer socket roomId peerId st
  | ApproveJoin roomId peerId promote =>
      approveJoin socket roomId peerId promote st
  | DemoteToConsumer roomId peerId => demoteToConsumer socket roomId peerId st
  | RequestSpeakingPermission roomId =>
      requestSpeakingPermission socket roomId st
  | Disconnect => (NoReply, disconnect socket st)
  | ApiCreateRoom hostName baseUrl => apiCreateRoom hostName baseUrl now st
  end.

(** The server at start: [rooms] and the sessions are empty. *)
Definition init (e : E) : Server E :=
  {| rooms := ∅; inviteManager := {| roomSessions := ∅ |}; engine := e |}.

(** The states the server goes through when every handler runs in one
    piece. *)
Inductive reachable (e0 : E) : Server E → Prop :=
| reachable_init : reachable e0 (init e0)
| reachable_step st now socket req :
    reachable e0 st → reachable e0 (handle now socket req st).2.

(** Running a list of requests, oldest first. *)
Fixpoint run (evs : list (N * string * Request)) (st : Server E) : Server E :=
  match evs with
  | [] => st
  | (now, socket, req) :: evs' => run evs' (handle now socket req st).2
  end.
End server.

(** ** Instances of the collaborators, for the examples

    An engine that never throws: it numbers the objects it makes, remembers
    the producers and the handles that were closed, and lets a peer consume
    any producer it made that is still open. *)
Record CountingEngine := {
  next_id : nat;
  made_producers : list (HandleId * MediaKind);
  closed_ids : list HandleId
}.

Definition counting_fresh (e : CountingEngine) : option HandleId * CountingEngine :=
  (Some (next_id e),
   {| next_id := S (next_id e); made_producers := made_producers e;
      closed_ids := closed_ids e |}).

Definition counting_closed (e : CountingEngine) (h : HandleId) : bool :=
  bool_decide (h ∈ closed_ids e).

Definition counting_kind (e : CountingEngine) (pid : HandleId)
  : option MediaKind :=
  (list_to_map (made_producers e) : gmap HandleId MediaKind) !! pid.

#[global, refine] Instance counting_engine : MediaEngine CountingEngine := {
  worker_createRouter := counting_fresh;
  router_createWebRtcTransport _ := counting_fresh;
  transport_connect _ e := (true, e);
  transport_produce _ kind e :=
    (Some (next_id e),
     {| next_id := S (next_id e);
        made_producers := (next_id e, kind) :: made_producers e;
        closed_ids := closed_ids e |});
  router_canConsume _ pid _ e :=
    bool_decide (is_Some (counting_kind e pid)) && negb (counting_closed e pid);
  transport_consume _ pid _ e :=
    match counting_kind e pid with
    | Some k =>
        (Some {| consumer_id := next_id e; consumer_kind := k |},
         {| next_id := S (next_id e); made_producers := made_producers e;
            closed_ids := closed_ids e |})
    | None => (None, e)
    end;
  handle_close h e :=
    {| next_id := next_id e; made_producers := made_producers e;
       closed_ids := h :: closed_ids e |};
  handle_closed := counting_closed
}.
Proof.
  - intros h e. unfold counting_closed. cbn. apply bool_decide_eq_true.
    apply list_elem_of_here.
  - intros h h' e. unfold counting_closed. cbn.
    rewrite !bool_decide_eq_true. apply list_elem_of_further.
Defined.

Definition counting_start : CountingEngine :=
  {| next_id := 0; made_producers := []; closed_ids := [] |}.

(** A signer that writes the payload in clear,
    [iat.exp.hostName-or-empty.roomId], and a verifier that reads it back
    and refuses a token that is past its [exp]. *)
Fixpoint split_dot (s : string) : option (string * string) :=
  match s with
  | EmptyString => None
  | String a s' =>
      if Ascii.eqb a "."%char then Some (EmptyString, s')
      else (λ lr : string * string, (String a lr.1, lr.2)) <$> split_dot s'
  end.

Definition clear_sign (p : InvitePayload) : string :=
  pretty (iat p) +:+ "." +:+ pretty (exp p) +:+ "."
  +:+ default "" (payload_hostName p) +:+ "." +:+ payload_roomId p.

Definition parse_N (s : string) : option N :=
  N.of_uint <$> DecimalString.NilEmpty.uint_of_string s.

Definition clear_verify (tok : string) (now : N) : option InvitePayload :=
  '(i, rest1) ← split_dot tok;
  '(x, rest2) ← split_dot rest1;
  '(hn, room) ← split_dot rest2;
  i' ← parse_N i;
  x' ← parse_N x;
  if bool_decide (now < x')%N
  then Some {| payload_roomId := room;
               payload_hostName := if bool_decide (hn = "") then None else Some hn;
               iat := i'; exp := x' |}
  else None.

#[global] Instance clear_jwt : Jwt := {
  jwt_sign := clear_sign;
  jwt_verify := clear_verify
}.

Definition start : Server CountingEngine := init counting_start.

(** ** More of [class Room]: lookups and listings ([room.ts]) *)

(** [Room.getPeerByUserId(userId)]: the first peer of the iteration with
    that user id, [None] for [null]. *)
Definition getPeerByUserId (uid : string) (room : Room) : option Peer :=
  head (filter (λ p, userId p = uid) (map_to_list (peers room)).*2).

(** [Room.getAllProducers()]: the entries [(peerId, producerId, kind)]. *)
Definition getAllProducers (room : Room)
  : list (string * HandleId * MediaKind) :=
  map_fold (λ peerId peer acc,
    map_fold (λ producerId p acc',
      (acc' ++ [(peerId, producerId, producer_kind p)])%list)
      acc (producers peer))
    [] (peers room).

(** [Room.getVideoProducers()]: the entries
    [(peerId, producerId, producerDisplayName)] of the video producers. *)
Definition getVideoProducers (room : Room)
  : list (string * HandleId * string) :=
  map_fold (λ peerId peer acc,
    map_fold (λ producerId p acc',
      match producer_kind p with
      | video => (acc' ++ [(peerId, producerId, displayName peer)])%list
      | audio => acc'
      end)
      acc (producers peer))
    [] (peers room).

(** ** The HTTP read endpoints ([server.ts]) *)

(** What [GET /api/rooms/:roomId] and [GET /api/rooms/:roomId/participants]
    answer; [ApiNotFound] is the status 404. *)
Inductive ApiReply :=
| ApiNotFound
| ApiRoomInfo (roomId hostName : string) (participantCount : nat)
              (createdAt : N)
| ApiParticipants (ps : list (string * string * PeerRole * bool * bool)).

(** [Array.from(peer.producers.values()).some((p) => p.kind === kind)] *)
Definition hasKind (kind : MediaKind) (peer : Peer) : bool :=
  existsb (λ p, bool_decide (producer_kind p = kind))
          (map_to_list (producers peer)).*2.

Section api.
Context {E : Type}.

(** [app.get("/api/rooms/:roomId")] *)
Definition apiGetRoom (roomId : string) (st : Server E) : ApiReply :=
  match rooms st !! roomId,
        InviteManager.getRoomSession roomId (inviteManager st) with
  | Some room, Some session =>
      ApiRoomInfo roomId (session_hostName session) (Room.getPeerCount room)
        (session_createdAt session)
  | _, _ => ApiNotFound
  end.

(** [app.get("/api/rooms/:roomId/participants")]: the entries
    [(id, displayName, role, hasAudio, hasVideo)]. *)
Definition apiGetParticipants (roomId : string) (st : Server E) : ApiReply :=
  match rooms st !! roomId with
  | None => ApiNotFound
  | Some room =>
      ApiParticipants
        ((λ peer, (peer_id peer, displayName peer, role peer,
                   hasKind audio peer, hasKind video peer))
           <$> (map_to_list (peers room)).*2)
  end.
End api.

(** ** [class MediasoupService] ([src/mediasoup/mediasoupService.ts])

    A worker is kept as the port range it was created with.  [nextWorker]
    is a JavaScript number: [None] stands for [NaN], which [(i + 1) % 0]
    yields when there is no worker. *)
Record Worker := { rtcMinPort : N; rtcMaxPort : N }.

Record MediasoupService := {
  workers : list Worker;
  nextWorker : option nat
}.

Module MediasoupService.

(** [Math.max(1, Math.min(os.cpus().length, 4))] *)
Definition WORKER_NUM (cpus : nat) : nat := 1 `max` (cpus `min` 4).

(** The settings of the [i]-th worker of [createWorkers]. *)
Definition workerSettings (i : nat) : Worker :=
  {| rtcMinPort := 10000 + N.of_nat i * 1000;
     rtcMaxPort := 10000 + (N.of_nat i + 1) * 1000 - 1 |}%N.

(** The loop of [createWorkers], from the index [i] for [n] more rounds;
    [creates i] tells whether [mediasoup.createWorker] returns for the
    [i]-th worker.  A call that throws ends the loop: the result is
    [false] and the workers pushed so far stay. *)
Fixpoint createWorkers_from (creates : nat → bool) (i n : nat)
  (svc : MediasoupService) : bool * MediasoupService :=
  match n with
  | 0 => (true, svc)
  | S n' =>
      if creates i then
        createWorkers_from creates (S i) n'
          {| workers := workers svc ++ [workerSettings i];
             nextWorker := nextWorker svc |}
      else (false, svc)
  end.

(** [async createWorkers()] *)
Definition createWorkers (creates : nat → bool) (cpus : nat)
  (svc : MediasoupService) : bool * MediasoupService :=
  createWorkers_from creates 0 (WORKER_NUM cpus) svc.

(** [getWorker()]: [None] is [undefined]. *)
Definition getWorker (svc : MediasoupService)
  : option Worker * MediasoupService :=
  (nextWorker svc ≫= λ i, workers svc !! i,
   {| workers := workers svc;
      nextWorker :=
        match nextWorker svc, length (workers svc) with
        | Some i, S n => Some ((i + 1) `mod` S n)
        | _, _ => None
        end |}).

(** The service as the module makes it. *)
Definition new : MediasoupService := {| workers := []; nextWorker := Some 0 |}.

(** [k] calls of [getWorker], oldest first. *)
Fixpoint getWorkers_n (k : nat) (svc : MediasoupService)
  : list (option Worker) * MediasoupService :=
  match k with
  | 0 => ([], svc)
  | S k' =>
      let '(w, svc1) := getWorker svc in
      let '(ws, svc2) := getWorkers_n k' svc1 in
      (w :: ws, svc2)
  end.
End MediasoupService.

(** ** The hook [useRoomPermission] of the client
    ([frontend/src/hooks/useRoomPermission.ts])

    The state of the hook and the handlers of the server events, each as
    the update it passes to its state setters. *)
Record PeerInfo := {
  info_id : string;
  info_userId : string;
  info_displayName : string;
  info_role : PeerRole
}.

Record PermissionRequest := {
  request_peerId : string;
  request_userId : string;
  request_displayName : string
}.

Record RoomPermission := {
  yourRole : option PeerRole;
  participants : list PeerInfo;
  permissionRequests : list PermissionRequest;
  processedRequests : gset string
}.

#[global] Instance PeerInfo_eq_dec : EqDecision PeerInfo.
Proof. solve_decision. Defined.
#[global] Instance PermissionRequest_eq_dec : EqDecision PermissionRequest.
Proof. solve_decision. Defined.

Module RoomPermission.

Definition set_participants (ps : list PeerInfo) (h : RoomPermission)
  : RoomPermission :=
  {| yourRole := yourRole h; participants := ps;
     permissionRequests := permissionRequests h;
     processedRequests := processedRequests h |}.

Definition set_yourRole (r : PeerRole) (h : RoomPermission) : RoomPermission :=
  {| yourRole := Some r; participants := participants h;
     permissionRequests := permissionRequests h;
     processedRequests := processedRequests h |}.

(** [handlePeerJoined(data)] *)
Definition handlePeerJoined (data : PeerInfo) (h : RoomPermission)
  : RoomPermission :=
  set_participants
    (match list_find (λ p, info_id p = info_id data) (participants h) with
     | None => participants h ++ [data]
     | Some _ => participants h
     end) h.

(** [handlePeerLeft(data)] *)
Definition handlePeerLeft (peerId : string) (h : RoomPermission)
  : RoomPermission :=
  {| yourRole := yourRole h;
     participants := filter (λ p, info_id p ≠ peerId) (participants h);
     permissionRequests :=
       filter (λ r, request_peerId r ≠ peerId) (permissionRequests h);
     processedRequests := processedRequests h |}.

Definition handlePromotedToProducer (h : RoomPermission) : RoomPermission :=
  set_yourRole producer h.

Definition handleDemotedToConsumer (h : RoomPermission) : RoomPermission :=
  set_yourRole consumer h.

(** [{ ...p, role }] *)
Definition with_role (r : PeerRole) (p : PeerInfo) : PeerInfo :=
  {| info_id := info_id p; info_userId := info_userId p;
     info_displayName := info_displayName p; info_role := r |}.

(** [handlePeerPromoted(data)] *)
Definition handlePeerPromoted (peerId : string) (h : RoomPermission)
  : RoomPermission :=
  set_participants
    ((λ p, if bool_decide (info_id p = peerId) then with_role producer p else p)
       <$> participants h) h.

(** [handlePeerDemoted(data)] *)
Definition handlePeerDemoted (peerId : string) (h : RoomPermission)
  : RoomPermission :=
  set_participants
    ((λ p, if bool_decide (info_id p = peerId) then with_role consumer p else p)
       <$> participants h) h.

(** [handleSpeakingPermissionRequest(data)]; the key is
    [`${data.peerId}-${data.userId}`]. *)
Definition handleSpeakingPermissionRequest (data : PermissionRequest)
  (h : RoomPermission) : RoomPermission :=
  let requestKey := request_peerId data +:+ "-" +:+ request_userId data in
  if bool_decide (requestKey ∈ processedRequests h) then h
  else
    {| yourRole := yourRole h; participants := participants h;
       permissionRequests :=
         match list_find (λ r, request_peerId r = request_peerId data)
                 (permissionRequests h) with
         | Some _ => permissionRequests h
         | None => permissionRequests h ++ [data]
         end;
       processedRequests := {[requestKey]} ∪ processedRequests h |}.

(** The callback of [approveSpeaker(peerId)] when the server answers
    without error. *)
Definition approveSpeaker_done (peerId : string) (h : RoomPermission)
  : RoomPermission :=
  {| yourRole := yourRole h; participants := participants h;
     permissionRequests :=
       filter (λ r, request_peerId r ≠ peerId) (permissionRequests h);
     processedRequests := processedRequests h |}.

(** [hasPermissionToSpeak] *)
Definition hasPermissionToSpeak (h : RoomPermission) : bool :=
  bool_decide (yourRole h = Some producer)
  || bool_decide (yourRole h = Some host).

(** The state of the hook when it mounts. *)
Definition initial : RoomPermission :=
  {| yourRole := None; participants := []; permissionRequests := [];
     processedRequests := ∅ |}.

(** The events the hook subscribes to with [socket.on], and the successful
    answer to [approveSpeaker]. *)
Inductive Event :=
| peerJoined (data : PeerInfo)
| peerLeft (peerId : string)
| promotedToProducer
| demotedToConsumer
| peerPromoted (peerId : string)
| peerDemoted (peerId : string)
| speakingPermissionRequest (data : PermissionRequest)
| speakerApproved (peerId : string).

Definition on (ev : Event) (h : RoomPermission) : RoomPermission :=
  match ev with
  | peerJoined data => handlePeerJoined data h
  | peerLeft peerId => handlePeerLeft peerId h
  | promotedToProducer => handlePromotedToProducer h
  | demotedToConsumer => handleDemotedToConsumer h
  | peerPromoted peerId => handlePeerPromoted peerId h
  | peerDemoted peerId => handlePeerDemoted peerId h
  | speakingPermissionRequest data => handleSpeakingPermissionRequest data h
  | speakerApproved peerId => approveSpeaker_done peerId h
  end.

(** The events of a list, oldest first. *)
Definition on_all (evs : list Event) (h : RoomPermission) : RoomPermission :=
  foldl (λ acc ev, on ev acc) h evs.
End RoomPermission.

(** ** [class UserIdentityManager] of the client
    ([frontend/src/utils/userIdentityManager.ts])

    [window] tells whether [typeof window !== "undefined"]; the storage is
    [localStorage]; [uuid] is what [crypto.randomUUID()] returns. *)
Module UserIdentityManager.

Definition STORAGE_KEY : string := "mediasoup_userId".

Definition generateUserId (uuid : string) : string := "user_" +:+ uuid.

(** [getUserId()] *)
Definition getUserId (window : bool) (uuid : string)
  (localStorage : gmap string string) : string * gmap string string :=
  match truthy (if window then localStorage !! STORAGE_KEY else None) with
  | Some userId => (userId, localStorage)
  | None =>
      (generateUserId uuid,
       if window then <[STORAGE_KEY := generateUserId uuid]> localStorage
       else localStorage)
  end.

(** [clearUserId()] *)
Definition clearUserId (window : bool) (localStorage : gmap string string)
  : gmap string string :=
  if window then delete STORAGE_KEY localStorage else localStorage.

(** [hasUserId()] *)
Definition hasUserId (window : bool) (localStorage : gmap string string)
  : bool :=
  if window then bool_decide (is_Some (localStorage !! STORAGE_KEY))
  else false.
End UserIdentityManager.

(** ** The handlers with their suspensions ([server.ts])

    A handler of [server.ts] is an [async] function.  It runs until it
    awaits the media engine, leaves the turn to whatever request or
    suspended handler comes next, and goes on, in a later turn, when the
    engine has answered.  The handlers above are these same functions run
    in one piece; here each is cut at its awaits of the engine:
    - [ensureRoom], at [await Room.create(..)], between [rooms.get] and
      [rooms.set];
    - [createTransport], at [await room.createWebRtcTransport()], between the
      permission check and the write of the transport;
    - [connectTransport], at [await transport.connect(..)];
    - [produce], at [await transport.produce(..)], between the permission
      check and [peer.producers.set];
    - [consume], at [await room.createWebRtcTransport()] and at
      [await transport.consume(..)].
    The other handlers have no [await] ([Room.close] calls
    [this.router.close()] before it first suspends).  The [await] of a value
    that is there already, as [await ensureRoom(..)] on a room of the
    registry, leaves no turn to a request that writes [rooms] and is taken
    at once.

    The call to the engine is made when the handler suspends, and what the
    promise settles with is kept with the suspended handler.

    A suspended handler holds the [Peer] object it looked up before the
    [await], and writes to that object when it goes on.  [addPeer] makes a
    new object on every call, so the object a handler holds may have left
    the registry in between (the peer disconnected, joined again, or the
    room was replaced); no request reaches it then.  The objects are
    numbered in the order [addPeer] makes them, and [peerObject] tells which
    one is stored under a key of a room. *)
Inductive Suspended :=
| JoinAwaits (socket roomId uid name : string) (caps : RtpCapabilities)
             (result : option HandleId)
| CreateTransportAwaits (socket roomId : string) (peer : option nat)
                        (kind : TransportKind) (result : option HandleId)
| ConnectTransportAwaits (result : bool)
| ProduceAwaits (socket roomId : string) (peer : option nat)
                (kind : MediaKind) (result : option HandleId)
| ConsumeAwaitsTransport (socket roomId : string) (peer : option nat)
                         (producerId : HandleId) (caps : RtpCapabilities)
                         (result : option HandleId)
| ConsumeAwaitsConsumer (socket roomId : string) (peer : option nat)
                        (producerId transport : HandleId)
                        (result : option Consumer).

(** The server process: the state of the module, the numbering of the peer
    objects, and the handlers that await the engine, oldest first. *)
Record Process (E : Type) := {
  server : Server E;
  peerObject : gmap (string * string) nat;
  created : nat;
  suspended : list Suspended
}.
Arguments server {E} _.
Arguments peerObject {E} _.
Arguments created {E} _.
Arguments suspended {E} _.

(** A turn of the event loop: a request of the socket [socket] arrives, or
    the [i]-th suspended handler goes on; [now] is the clock of the turn. *)
Inductive Turn :=
| Begin (now : N) (socket : string) (req : Request)
| Continue (now : N) (i : nat).

Section process.
Context {E : Type} `{!MediaEngine E} `{!Jwt}.

Definition set_server (st : Server E) (ps : Process E) : Process E :=
  {| server := st; peerObject := peerObject ps; created := created ps;
     suspended := suspended ps |}.

(** The handler has made its call, which left the engine in [e], and awaits
    the answer. *)
Definition suspend (k : Suspended) (e : E) (ps : Process E)
  : option Reply * Process E :=
  (None,
   {| server := set_engine e (server ps); peerObject := peerObject ps;
      created := created ps; suspended := (suspended ps ++ [k])%list |}).

(** [addPeer] has stored a new [Peer] object under [socket] in the room
    [roomId]. *)
Definition number_peer (roomId socket : string) (ps : Process E)
  : Process E :=
  {| server := server ps;
     peerObject := <[(roomId, socket) := created ps]> (peerObject ps);
     created := S (created ps); suspended := suspended ps |}.

(** A write [peer.x = v] of a handler that holds the peer object [obj],
    looked up under [socket] in the room [roomId]: a write to the registry
    when that object is still the one stored there. *)
Definition write_peer (roomId socket : string) (obj : option nat)
  (f : Peer → Peer) (ps : Process E) : Process E :=
  if bool_decide (peerObject ps !! (roomId, socket) = obj) then
    match rooms (server ps) !! roomId with
    | Some room =>
        match peers room !! socket with
        | Some peer =>
            set_server (set_peer roomId room socket (f peer) (server ps)) ps
        | None => ps
        end
    | None => ps
    end
  else ps.

(** The join handler after [ensureRoom] has returned [room], which is the
    room of the registry under [roomId]. *)
Definition join_rest (socket roomId uid name : string)
  (caps : RtpCapabilities) (room : Room) (ps : Process E)
  : option Reply * Process E :=
  let r := if bool_decide (Room.getPeerCount room = 0)
           then host else waiting in
  let room1 := (Room.addPeer socket uid name r room).1 in
  let ps1 :=
    number_peer roomId socket
      (set_server (set_room roomId room1 (server ps)) ps) in
  match Room.getPeer socket room1 with
  | None => (Some (Error "Failed to add peer to room"), ps1)
  | Some peer =>
      let room2 :=
        set_peers (<[socket := set_rtpCapabilities caps peer]>
                     (peers room1)) room1 in
      let allProducers :=
        match r with
        | waiting => []
        | _ => Room.getAllProducersForPeer socket room2
        end in
      (Some (Joined r allProducers
               ((λ p, (peer_id p, userId p, displayName p, role p))
                  <$> (map_to_list (peers room2)).*2)
               socket),
       set_server (set_room roomId room2 (server ps1)) ps1)
  end.

(** [socket.on("join")], until [await Room.create(..)] in [ensureRoom]. *)
Definition join_begin (now : N) (socket roomId uid name : string)
  (caps : RtpCapabilities) (inviteTok : option string) (ps : Process E)
  : option Reply * Process E :=
  let rejected :=
    match truthy inviteTok with
    | Some tok =>
        let validation := InviteManager.verifyInviteToken tok now in
        negb validation.2 || bool_decide (validation.1 ≠ roomId)
    | None => false
    end in
  if rejected then (Some (Error "Invalid or expired invite token"), ps)
  else
    match rooms (server ps) !! roomId with
    | Some room => join_rest socket roomId uid name caps room ps
    | None =>
        let '(result, e') := worker_createRouter (engine (server ps)) in
        suspend (JoinAwaits socket roomId uid name caps result) e' ps
    end.

(** The join handler from [await Room.create(..)] on: the [Room] is
    built, stored by [rooms.set] over whatever is under [roomId] by now, and
    its session is made; [now] is the clock of this turn. *)
Definition join_continue (now : N) (socket roomId uid name : string)
  (caps : RtpCapabilities) (result : option HandleId) (ps : Process E)
  : option Reply * Process E :=
  match result with
  | None => (Some (Error "Failed to join room"), ps)
  | Some r =>
      let room := {| room_id := roomId; router := r; peers := ∅;
                     hostSocketId := socket; room_createdAt := now |} in
      let st1 :=
        {| rooms := <[roomId := room]> (rooms (server ps));
           inviteManager :=
             (InviteManager.createRoomSession roomId socket name now
                (inviteManager (server ps))).1;
           engine := engine (server ps) |} in
      join_rest socket roomId uid name caps room (set_server st1 ps)
  end.

(** [socket.on("createTransport")], until
    [await room.createWebRtcTransport()]. *)
Definition createTransport_begin (socket roomId : string)
  (kind : TransportKind) (ps : Process E) : option Reply * Process E :=
  match rooms (server ps) !! roomId with
  | None => (Some (Error "Room not found"), ps)
  | Some room =>
      match Room.getPeer socket room with
      | None => (Some (Error "Peer not found"), ps)
      | Some peer =>
          if bool_decide (kind = send) && negb (Room.canPeerProduce socket room)
          then (Some (Error "Permission denied: You do not have permission to produce media. Wait for host approval."), ps)
          else if bool_decide (kind = recv) && bool_decide (role peer = waiting)
          then (Some (Error "Permission denied: waiting for host approval."), ps)
          else
            let held :=
              match kind with
              | send => sendTransport peer
              | recv => recvTransport peer
              end in
            match held with
            | Some t => (Some (TransportParams t), ps)
            | None =>
                let '(result, e') :=
                  router_createWebRtcTransport (router room)
                    (engine (server ps)) in
                suspend
                  (CreateTransportAwaits socket roomId
                     (peerObject ps !! (roomId, socket)) kind result)
                  e' ps
            end
      end
  end.

(** From [await room.createWebRtcTransport()] on: the transport is
    written to the peer the handler holds, whatever the role of that peer
    is by now. *)
Definition createTransport_continue (socket roomId : string)
  (obj : option nat) (kind : TransportKind) (result : option HandleId)
  (ps : Process E) : option Reply * Process E :=
  match result with
  | None => (Some (Error "Failed to create transport"), ps)
  | Some t =>
      (Some (TransportParams t),
       write_peer roomId socket obj
         match kind with
         | send => set_sendTransport (Some t)
         | recv => set_recvTransport (Some t)
         end ps)
  end.

(** [socket.on("connectTransport")], until [await transport.connect(..)]. *)
Definition connectTransport_begin (socket roomId : string)
  (transportId : HandleId) (ps : Process E) : option Reply * Process E :=
  match rooms (server ps) !! roomId with
  | None => (Some (Error "Room not found"), ps)
  | Some room =>
      match Room.getPeer socket room with
      | None => (Some (Error "Peer not found"), ps)
      | Some peer =>
          let transport :=
            if bool_decide (sendTransport peer = Some transportId)
            then sendTransport peer else recvTransport peer in
          match transport with
          | Some t =>
              if bool_decide (t = transportId) then
                let '(result, e') := transport_connect t (engine (server ps)) in
                suspend (ConnectTransportAwaits result) e' ps
              else (Some (Error "Transport not found"), ps)
          | None => (Some (Error "Transport not found"), ps)
          end
      end
  end.

Definition connectTransport_continue (result : bool) (ps : Process E)
  : option Reply * Process E :=
  if result then (Some Connected, ps)
  else (Some (Error "Failed to connect transport"), ps).

(** [socket.on("produce")], until [await transport.produce(..)]. *)
Definition produce_begin (socket roomId : string) (transportId : HandleId)
  (kind : MediaKind) (ps : Process E) : option Reply * Process E :=
  match rooms (server ps) !! roomId with
  | None => (Some (Error "Room not found"), ps)
  | Some room =>
      match Room.getPeer socket room with
      | None => (Some (Error "Peer not found"), ps)
      | Some peer =>
          if negb (Room.canPeerProduce socket room)
          then (Some (Error "Permission denied: You do not have permission to produce media"), ps)
          else
            match sendTransport peer with
            | Some t =>
                if bool_decide (t = transportId) then
                  let '(result, e') :=
                    transport_produce t kind (engine (server ps)) in
                  suspend
                    (ProduceAwaits socket roomId
                       (peerObject ps !! (roomId, socket)) kind result)
                    e' ps
                else (Some (Error "Send transport not found"), ps)
            | None => (Some (Error "Send transport not found"), ps)
            end
      end
  end.

(** From [await transport.produce(..)] on: [peer.producers.set(..)] on
    the map the peer has by now. *)
Definition produce_continue (socket roomId : string) (obj : option nat)
  (kind : MediaKind) (result : option HandleId) (ps : Process E)
  : option Reply * Process E :=
  match result with
  | None => (Some (Error "Failed to produce"), ps)
  | Some pid =>
      (Some (Produced pid),
       write_peer roomId socket obj
         (λ peer,
            set_producers
              (<[pid := {| producer_id := pid; producer_kind := kind |}]>
                 (producers peer)) peer)
         ps)
  end.

(** [socket.on("consume")], until its first [await]: the one of
    [room.createWebRtcTransport()] when the peer has no receive transport,
    the one of [transport.consume(..)] otherwise. *)
Definition consume_begin (socket roomId : string) (producerId : HandleId)
  (caps : RtpCapabilities) (ps : Process E) : option Reply * Process E :=
  match rooms (server ps) !! roomId with
  | None => (Some (Error "Room not found"), ps)
  | Some room =>
      match Room.getPeer socket room with
      | None => (Some (Error "Peer not found"), ps)
      | Some peer =>
          if negb (router_canConsume (router room) producerId caps
                     (engine (server ps)))
          then (Some (Error "Cannot consume"), ps)
          else
            let obj := peerObject ps !! (roomId, socket) in
            match recvTransport peer with
            | Some t =>
                let '(result, e') :=
                  transport_consume t producerId caps (engine (server ps)) in
                suspend
                  (ConsumeAwaitsConsumer socket roomId obj producerId t result)
                  e' ps
            | None =>
                let '(result, e') :=
                  router_createWebRtcTransport (router room)
                    (engine (server ps)) in
                suspend
                  (ConsumeAwaitsTransport socket roomId obj producerId caps
                     result)
                  e' ps
            end
      end
  end.

(** From [await room.createWebRtcTransport()] to
    [await transport.consume(..)]. *)
Definition consume_continue_transport (socket roomId : string)
  (obj : option nat) (producerId : HandleId) (caps : RtpCapabilities)
  (result : option HandleId) (ps : Process E) : option Reply * Process E :=
  match result with
  | None => (Some (Error "Failed to consume"), ps)
  | Some t =>
      let ps1 := write_peer roomId socket obj (set_recvTransport (Some t)) ps in
      let '(result', e') :=
        transport_consume t producerId caps (engine (server ps1)) in
      suspend (ConsumeAwaitsConsumer socket roomId obj producerId t result')
        e' ps1
  end.

(** From [await transport.consume(..)] on. *)
Definition consume_continue_consumer (socket roomId : string)
  (obj : option nat) (producerId t : HandleId) (result : option Consumer)
  (ps : Process E) : option Reply * Process E :=
  match result with
  | None => (Some (Error "Failed to consume"), ps)
  | Some c =>
      (Some (Consumed (consumer_id c) producerId (consumer_kind c) t),
       write_peer roomId socket obj
         (λ peer,
            set_consumers (<[consumer_id c := c]> (consumers peer)) peer)
         ps)
  end.

(** A request arrives: its handler runs until it awaits the engine, or to
    its end. *)
Definition begin (now : N) (socket : string) (req : Request)
  (ps : Process E) : option Reply * Process E :=
  match req with
  | Join roomId uid name caps tok =>
      join_begin now socket roomId uid name caps tok ps
  | CreateTransport roomId kind => createTransport_begin socket roomId kind ps
  | ConnectTransport roomId t => connectTransport_begin socket roomId t ps
  | Produce roomId t kind => produce_begin socket roomId t kind ps
  | Consume roomId pid caps => consume_begin socket roomId pid caps ps
  | _ =>
      let '(reply, st) := handle now socket req (server ps) in
      (Some reply, set_server st ps)
  end.

(** A suspended handler goes on. *)
Definition continue (now : N) (k : Suspended) (ps : Process E)
  : option Reply * Process E :=
  match k with
  | JoinAwaits socket roomId uid name caps result =>
      join_continue now socket roomId uid name caps result ps
  | CreateTransportAwaits socket roomId obj kind result =>
      createTransport_continue socket roomId obj kind result ps
  | ConnectTransportAwaits result => connectTransport_continue result ps
  | ProduceAwaits socket roomId obj kind result =>
      produce_continue socket roomId obj kind result ps
  | ConsumeAwaitsTransport socket roomId obj pid caps result =>
      consume_continue_transport socket roomId obj pid caps result ps
  | ConsumeAwaitsConsumer socket roomId obj pid t result =>
      consume_continue_consumer socket roomId obj pid t result ps
  end.

(** The [i]-th suspended handler has the turn and is suspended no more. *)
Definition resumed (i : nat) (ps : Process E) : Process E :=
  {| server := server ps; peerObject := peerObject ps;
     created := created ps; suspended := delete i (suspended ps) |}.

(** One turn; the reply is what the turn passes to a [callback], if it does.
    There is nothing to go on with under an index past the suspended
    handlers. *)
Definition turn (t : Turn) (ps : Process E) : option Reply * Process E :=
  match t with
  | Begin now socket req => begin now socket req ps
  | Continue now i =>
      match suspended ps !! i with
      | Some k => continue now k (resumed i ps)
      | None => (None, ps)
      end
  end.

(** The process at start. *)
Definition boot (e : E) : Process E :=
  {| server := init e; peerObject := ∅; created := 0; suspended := [] |}.

(** The states the process goes through, whatever the order in which the
    requests arrive and the engine answers. *)
Inductive interleaved (e0 : E) : Process E → Prop :=
| interleaved_boot : interleaved e0 (boot e0)
| interleaved_turn ps t :
    interleaved e0 ps → interleaved e0 (turn t ps).2.

(** Running a list of turns, oldest first. *)
Fixpoint run_turns (ts : list Turn) (ps : Process E) : Process E :=
  match ts with
  | [] => ps
  | t :: ts' => run_turns ts' (turn t ps).2
  end.

(** A request whose handler is run in one piece: it begins, and goes on as
    soon as it is suspended, before anything else has a turn. *)
Definition in_one_piece (now : N) (socket : string) (req : Request)
  (ps : Process E) : Process E :=
  let ps1 := (begin now socket req ps).2 in
  let ps2 := (turn (Continue now (length (suspended ps))) ps1).2 in
  (turn (Continue now (length (suspended ps))) ps2).2.
End process.

(** ** Notions used in the statements *)
Section notions.
Context {E : Type} `{!MediaEngine E}.

(** Every handle of the peer is closed in the engine [e]. *)
Definition peer_closed (e : E) (p : Peer) : Prop :=
  (∀ k x, producers p !! k = Some x → handle_closed e (producer_id x) = true)
  ∧ (∀ k x, consumers p !! k = Some x → handle_closed e (consumer_id x) = true)
  ∧ (∀ t, sendTransport p = Some t → handle_closed e t = true)
  ∧ (∀ t, recvTransport p = Some t → handle_closed e t = true).

(** Closing the four groups of handles of a peer, as [removePeer] and the
    disconnect handler both do. *)
Definition closePeer (peer : Peer) (e : E) : E :=
  Room.closeOpt (recvTransport peer)
    (Room.closeOpt (sendTransport peer)
       (Room.closeEach consumer_id (consumers peer)
          (Room.closeEach producer_id (producers peer) e))).

(** The sessions of the invite manager of a server. *)
Definition sessions (st : Server E) : gmap string RoomSession :=
  roomSessions (inviteManager st).

(** The peer of the connection [c] in the room [r], and its role. *)
Definition peer_of (st : Server E) (r c : string) : option Peer :=
  rooms st !! r ≫= λ room, peers room !! c.

Definition peer_role (st : Server E) (r c : string) : option PeerRole :=
  role <$> peer_of st r c.

(** A handler that writes at most one peer: the registry is as before, or
    the peer [c] of the room [roomId] was replaced by [p'], related to the
    peer [p] it was by [R]. *)
Definition local_update (R : string → string → Peer → Peer → Prop)
  (st st' : Server E) : Prop :=
  rooms st' = rooms st
  ∨ ∃ roomId room c p p',
      rooms st !! roomId = Some room ∧ peers room !! c = Some p
      ∧ R roomId c p p'
      ∧ rooms st' = <[roomId := set_peers (<[c := p']> (peers room)) room]>
                      (rooms st).

(** No room of the registry is empty. *)
Definition rooms_nonempty (st : Server E) : Prop :=
  ∀ r room, rooms st !! r = Some room → peers room ≠ ∅.

(** A peer in the role [host] is the connection that created the room. *)
Definition host_is_creator (st : Server E) : Prop :=
  ∀ r room c p, rooms st !! r = Some room → peers room !! c = Some p →
    role p = host → c = hostSocketId room.

(** The requests after which the entry of the connection [c] in the room
    [r] is not the peer object it was: [c] disconnects (the peer is removed),
    or [c] joins [r] again ([addPeer] puts a new peer under the same key). *)
Definition renews_entry (socket : string) (req : Request) (r c : string)
  : Prop :=
  socket = c ∧
  match req with
  | Disconnect => True
  | Join roomId _ _ _ _ => roomId = r
  | _ => False
  end.

(** The invariant of the registry. *)
Definition server_inv (st : Server E) : Prop :=
  rooms_nonempty st ∧ host_is_creator st.
End notions.

(** What the loop of the disconnect handler makes of one room: the room
    without the peer, or no room when that leaves it empty. *)
Definition after_leave (socket : string) (room : Room) : option Room :=
  match peers room !! socket with
  | None => Some room
  | Some _ =>
      let room1 := set_peers (delete socket (peers room)) room in
      if Room.isEmpty room1 then None else Some room1
  end.

(** The socket is the only peer of the room. *)
Definition last_peer (socket : string) (room : Room) : Prop :=
  is_Some (peers room !! socket) ∧ delete socket (peers room) = ∅.

(** The role changes a request other than [join] may make on the peer [c]
    of the room [r]: none, or the one of the request that names that peer. *)
Inductive role_change : Request → string → string → PeerRole → PeerRole → Prop :=
| change_none req r c ro : role_change req r c ro ro
| change_approve r c : role_change (ApproveJoin r c false) r c waiting consumer
| change_approve_promote r c :
    role_change (ApproveJoin r c true) r c waiting producer
| change_promote r c : role_change (PromoteToProducer r c) r c consumer producer
| change_demote r c ro :
    ro ≠ host → role_change (DemoteToConsumer r c) r c ro consumer.

(** The requests that write peers in place: all but [join], which puts a
    new peer in the room, and [disconnect], which removes peers. *)
Definition in_place (req : Request) : Prop :=
  match req with
  | Join _ _ _ _ _ | Disconnect => False
  | _ => True
  end.

(** What the handlers other than [join] and [disconnect] keep of a peer. *)
Definition peer_kept (req : Request) (r c : string) (p p' : Peer) : Prop :=
  peer_id p' = peer_id p ∧ role_change req r c (role p) (role p').

(** The peer object the join handler leaves in the room: the one [addPeer]
    builds, with the capabilities of the request. *)
Definition joined_peer (socket uid name : string) (r : PeerRole)
  (caps : RtpCapabilities) : Peer :=
  {| peer_id := socket; userId := uid; displayName := name; role := r;
     sendTransport := None; recvTransport := None;
     producers := ∅; consumers := ∅; rtpCapabilities := Some caps |}.

(** The role the join handler computes from the peer count it observes. *)
Definition joined_role (room : Room) : PeerRole :=
  if bool_decide (Room.getPeerCount room = 0) then host else waiting.

(** The outcome of the token check of the join handler: [true] when the
    request is refused. *)
Definition token_refused `{!Jwt} (tok : option string) (roomId : string)
  (now : N) : bool :=
  match truthy tok with
  | Some t =>
      negb (InviteManager.verifyInviteToken t now).2
      || bool_decide ((InviteManager.verifyInviteToken t now).1 ≠ roomId)
  | None => false
  end.

(** ** States of the examples

    [a] creates the room [r1] and is its host. *)
Definition one_host : Server CountingEngine :=
  run [(1000%N, "a", Join "r1" "ua" "Alice" [] None)] start.

(** The room [r1] of [one_host]. *)
Definition one_host_room : Room :=
  {| room_id := "r1"; router := 0;
     peers := {[ "a" := joined_peer "a" "ua" "Alice" host [] ]};
     hostSocketId := "a"; room_createdAt := 1000 |}.

(** [a] is the host of [r1]; [b] has joined and waits for approval. *)
Definition host_and_waiting : Server CountingEngine :=
  run [(1000%N, "a", Join "r1" "ua" "Alice" [] None);
       (2000%N, "b", Join "r1" "ub" "Bob" [] None)] start.

(** [a] is the host of [r1] and publishes a video producer (handle 2) over
    its send transport (handle 1); [b] has joined and waits. *)
Definition host_producing : Server CountingEngine :=
  run [(1000%N, "a", Join "r1" "ua" "Alice" [] None);
       (1100%N, "a", CreateTransport "r1" send);
       (1200%N, "a", Produce "r1" 1 video);
       (2000%N, "b", Join "r1" "ub" "Bob" [] None)] start.

(** [a] is the host of [r1]; [b] was approved with the promote flag, made
    its send transport (handle 1) and publishes an audio producer
    (handle 2). *)
Definition guest_speaking : Server CountingEngine :=
  run [(1000%N, "a", Join "r1" "ua" "Alice" [] None);
       (2000%N, "b", Join "r1" "ub" "Bob" [] None);
       (2100%N, "a", ApproveJoin "r1" "b" true);
       (2200%N, "b", CreateTransport "r1" send);
       (2300%N, "b", Produce "r1" 1 audio)] start.

(** The peer [b] of [guest_speaking], and the room [r1]. *)
Definition speaker_b : Peer :=
  {| peer_id := "b"; userId := "ub"; displayName := "Bob"; role := producer;
     sendTransport := Some 1; recvTransport := None;
     producers := {[ 2 := {| producer_id := 2; producer_kind := audio |} ]};
     consumers := ∅; rtpCapabilities := Some [] |}.

Definition guest_speaking_room : Room :=
  {| room_id := "r1"; router := 0;
     peers := <[ "b" := speaker_b ]>
                {[ "a" := joined_peer "a" "ua" "Alice" host [] ]};
     hostSocketId := "a"; room_createdAt := 1000 |}.

(** [a] is the host of [r1]; [b] was approved with the promote flag. *)
Definition guest_approved : Server CountingEngine :=
  run [(1000%N, "a", Join "r1" "ua" "Alice" [] None);
       (2000%N, "b", Join "r1" "ub" "Bob" [] None);
       (2100%N, "a", ApproveJoin "r1" "b" true)] start.


(** The invite manager after [POST /api/rooms] made the session of
    [room-1] for the host name [Host], at the time 1000 ms. *)
Definition precreated_session : InviteManager :=
  (InviteManager.createRoomSession "room-1" "" "Host" 1000
     {| roomSessions := ∅ |}).1.

(** The room [r1] of [host_and_waiting]. *)
Definition host_and_waiting_room : Room :=
  {| room_id := "r1"; router := 0;
     peers := <[ "b" := joined_peer "b" "ub" "Bob" waiting [] ]>
                {[ "a" := joined_peer "a" "ua" "Alice" host [] ]};
     hostSocketId := "a"; room_createdAt := 1000 |}.

(** ** Notions of the further properties *)

(** A pool of three workers with the cursor on the last. *)
Definition pool_of_three : MediasoupService :=
  {| workers := MediasoupService.workerSettings <$> seq 0 3;
     nextWorker := Some 2 |}.

(** A participant list of the client, and a request to speak. *)
Definition alice_info : PeerInfo :=
  {| info_id := "a"; info_userId := "ua"; info_displayName := "Alice";
     info_role := host |}.

Definition bob_info : PeerInfo :=
  {| info_id := "b"; info_userId := "ub"; info_displayName := "Bob";
     info_role := consumer |}.

Definition bob_request : PermissionRequest :=
  {| request_peerId := "b"; request_userId := "ub";
     request_displayName := "Bob" |}.

Definition hook_with_two : RoomPermission :=
  RoomPermission.on_all
    [RoomPermission.peerJoined alice_info; RoomPermission.peerJoined bob_info]
    RoomPermission.initial.

(** A peer that may not publish holds nothing to publish with: it has no
    send transport and no producer. *)
Definition publish_ok (p : Peer) : Prop :=
  match role p with
  | producer | host => True
  | _ => sendTransport p = None ∧ producers p = ∅
  end.

(** What a handler that writes a peer in place keeps of it. *)
Definition peer_step (r c : string) (p p' : Peer) : Prop :=
  peer_id p' = peer_id p ∧ userId p' = userId p
  ∧ displayName p' = displayName p
  ∧ (publish_ok p → publish_ok p').

Section notions_extra.
Context {E : Type} `{!MediaEngine E}.

(** Every peer of every room satisfies [Q], given its key. *)
Definition peers_all (Q : string → Peer → Prop) (st : Server E) : Prop :=
  ∀ r room c p, rooms st !! r = Some room → peers room !! c = Some p → Q c p.

(** The registry is keyed by the ids of the rooms and of the peers, every
    room has its invite session, and only peers that may publish hold a
    send transport or a producer. *)
Definition registry_inv (st : Server E) : Prop :=
  peers_all (λ c p, peer_id p = c ∧ publish_ok p) st
  ∧ ∀ r room, rooms st !! r = Some room →
      room_id room = r ∧ is_Some (sessions st !! r).
End notions_extra.

#[global] Instance in_place_dec (req : Request) : Decision (in_place req).
Proof. destruct req; cbn; apply _. Defined.

(** An invite token of the clear signer for the room [r1], minted at the
    second 1 and valid until the second 86401. *)
Definition r1_token : string := "1.86401.Host.r1".

(** An engine that is down: every call that makes or connects something
    throws, and every handle counts as closed. *)
#[global, refine] Instance down_engine : MediaEngine unit := {
  worker_createRouter e := (None, e);
  router_createWebRtcTransport _ e := (None, e);
  transport_connect _ e := (false, e);
  transport_produce _ _ e := (None, e);
  router_canConsume _ _ _ _ := false;
  transport_consume _ _ _ e := (None, e);
  handle_close _ e := e;
  handle_closed _ _ := true
}.
Proof. all: done. Defined.

(** ** Notions of the process with suspensions *)

(** The suspended handlers that hold a peer: the key they looked it up
    under, and the number of the object. *)
Definition holds (k : Suspended) : option (string * string * option nat) :=
  match k with
  | CreateTransportAwaits socket roomId obj _ _
  | ProduceAwaits socket roomId obj _ _
  | ConsumeAwaitsTransport socket roomId obj _ _ _
  | ConsumeAwaitsConsumer socket roomId obj _ _ _ => Some (roomId, socket, obj)
  | JoinAwaits _ _ _ _ _ _ | ConnectTransportAwaits _ => None
  end.

(** The suspended handlers that will write a send transport or a producer:
    they passed [canPeerProduce] before they suspended. *)
Definition publishes (k : Suspended) : bool :=
  match k with
  | CreateTransportAwaits _ _ _ send _ | ProduceAwaits _ _ _ _ _ => true
  | _ => false
  end.

(** What the write of the suspended handler [k] keeps of a peer. *)
Definition keeps (k : Suspended) (f : Peer → Peer) : Prop :=
  ∀ p, peer_id (f p) = peer_id p ∧ role (f p) = role p
       ∧ (publishes k = false →
          sendTransport (f p) = sendTransport p
          ∧ producers (f p) = producers p).

Section notions_turns.
Context {E : Type} `{!MediaEngine E} `{!Jwt}.

(** The handler [k] suspends in the state [ps]: it holds the object that is
    stored under its key, and when it is to publish, the peer is not
    waiting. *)
Definition captured (ps : Process E) (k : Suspended) : Prop :=
  match holds k with
  | Some (r, c, obj) =>
      obj = peerObject ps !! (r, c)
      ∧ (publishes k = true →
         ∃ p, peer_of (server ps) r c = Some p ∧ role p ≠ waiting)
  | None => True
  end.

(** The numbers of the objects in use are below the next one. *)
Definition numbered (ps : Process E) : Prop :=
  (∀ key n, peerObject ps !! key = Some n → n < created ps)
  ∧ (∀ k r c n, k ∈ suspended ps → holds k = Some (r, c, Some n) →
                n < created ps).

(** A suspended handler that is to publish and whose peer is still in the
    registry holds a peer that is not waiting. *)
Definition publishers_checked (ps : Process E) : Prop :=
  ∀ k r c obj p,
    k ∈ suspended ps → publishes k = true → holds k = Some (r, c, obj) →
    peerObject ps !! (r, c) = obj → peer_of (server ps) r c = Some p →
    role p ≠ waiting.

(** A waiting peer holds nothing to publish with. *)
Definition waiting_bare (ps : Process E) : Prop :=
  ∀ r c p, peer_of (server ps) r c = Some p → role p = waiting →
    sendTransport p = None ∧ producers p = ∅.

(** The invariant of the process. *)
Definition process_inv (ps : Process E) : Prop :=
  server_inv (server ps) ∧ numbered ps ∧ publishers_checked ps
  ∧ waiting_bare ps.

(** What a turn does to the registry, the numbering and the suspended
    handlers. *)
Inductive effect (ps : Process E) : Turn → Process E → Prop :=
| effect_quiet t ps' :
    rooms (server ps') = rooms (server ps) →
    sessions (server ps') = sessions (server ps) →
    peerObject ps' = peerObject ps → created ps' = created ps →
    (∀ k, k ∈ suspended ps' → k ∈ suspended ps ∨ captured ps k) →
    effect ps t ps'
| effect_handled now socket req ps' :
    in_place req ∨ req = Disconnect →
    server ps' = (handle now socket req (server ps)).2 →
    peerObject ps' = peerObject ps → created ps' = created ps →
    suspended ps' = suspended ps →
    effect ps (Begin now socket req) ps'
| effect_entered now socket roomId uid name caps tok room ps' :
    rooms (server ps) !! roomId = Some room →
    token_refused tok roomId now = false →
    server ps' = (join now socket roomId uid name caps tok (server ps)).2 →
    peerObject ps' = <[(roomId, socket) := created ps]> (peerObject ps) →
    created ps' = S (created ps) →
    suspended ps' = suspended ps →
    effect ps (Begin now socket (Join roomId uid name caps tok)) ps'
| effect_written now i k r c obj f ps' :
    suspended ps !! i = Some k → holds k = Some (r, c, obj) → keeps k f →
    rooms (server ps') = rooms (server (write_peer r c obj f ps)) →
    sessions (server ps') = sessions (server ps) →
    peerObject ps' = peerObject ps → created ps' = created ps →
    (∀ k', k' ∈ suspended ps' →
           k' ∈ suspended ps ∨ (publishes k' = false ∧ holds k' = holds k)) →
    effect ps (Continue now i) ps'
| effect_created now i socket roomId uid name caps h ps' :
    suspended ps !! i = Some (JoinAwaits socket roomId uid name caps (Some h)) →
    rooms (server ps')
    = <[roomId := {| room_id := roomId; router := h;
                     peers := {[socket := joined_peer socket uid name host caps]};
                     hostSocketId := socket; room_createdAt := now |}]>
        (rooms (server ps)) →
    sessions (server ps')
    = roomSessions (InviteManager.createRoomSession roomId socket name now
                      (inviteManager (server ps))).1 →
    peerObject ps' = <[(roomId, socket) := created ps]> (peerObject ps) →
    created ps' = S (created ps) →
    suspended ps' = delete i (suspended ps) →
    effect ps (Continue now i) ps'.

(** The turn in which a join of the connection [c] that found no room [r]
    when it began goes on and stores its own room. *)
Definition stores_room (ps : Process E) (t : Turn) (r c : string) : Prop :=
  match t with
  | Begin _ _ _ => False
  | Continue _ i =>
      ∃ uid name caps h,
        suspended ps !! i = Some (JoinAwaits c r uid name caps (Some h))
  end.

(** The turns after which the entry of the connection [c] in the room [r]
    is not the peer object it was: [c] disconnects, [c] joins [r] again, or
    a join that found no room [r] when it began goes on and stores its
    own. *)
Definition renews_peer (ps : Process E) (t : Turn) (r c : string) : Prop :=
  match t with
  | Begin _ socket req => renews_entry socket req r c
  | Continue _ i =>
      ∃ socket uid name caps h,
        suspended ps !! i = Some (JoinAwaits socket r uid name caps (Some h))
  end.
End notions_turns.

(** ** States of the examples, with suspensions

    [a] and [b] both ask to join [r1], which is not there; the engine has
    made a router for each (handles 0 and 1) and neither handler has gone
    on. *)
Definition two_joins_suspended : Process CountingEngine :=
  run_turns [Begin 1000 "a" (Join "r1" "ua" "Alice" [] None);
             Begin 1001 "b" (Join "r1" "ub" "Bob" [] None)]
    (boot counting_start).

(** From [guest_approved]: [b], a producer, has asked for its send
    transport; the engine has made it (handle 1) and the handler has not
    gone on. *)
Definition send_transport_suspended : Process CountingEngine :=
  run_turns [Begin 1000 "a" (Join "r1" "ua" "Alice" [] None);
             Continue 1000 0;
             Begin 2000 "b" (Join "r1" "ub" "Bob" [] None);
             Begin 2100 "a" (ApproveJoin "r1" "b" true);
             Begin 2200 "b" (CreateTransport "r1" send)]
    (boot counting_start).

(** [a] is the host of [r1] and [b] waits, no handler is suspended. *)
Definition host_and_waiting_process : Process CountingEngine :=
  run_turns [Begin 1000 "a" (Join "r1" "ua" "Alice" [] None);
             Continue 1000 0;
             Begin 2000 "b" (Join "r1" "ub" "Bob" [] None)]
    (boot counting_start).

(** * Properties *)

(** ** Closing handles *)
Section closing.
Context {E : Type} `{!MediaEngine E}.

Lemma closeEach_spec {A} (f : A → HandleId) (m : gmap HandleId A) (e : E) :
  (∀ k x, m !! k = Some x → handle_closed (Room.closeEach f m e) (f x) = true)
  ∧ (∀ h, handle_closed e h = true →
          handle_closed (Room.closeEach f m e) h = true).
Proof.
  unfold Room.closeEach.
  apply (map_fold_weak_ind (λ acc m',
    (∀ k x, m' !! k = Some x → handle_closed acc (f x) = true)
    ∧ (∀ h, handle_closed e h = true → handle_closed acc h = true))).
  - split; [intros k x Hk; by rewrite lookup_empty in Hk | done].
  - intros i x m' acc Hi [IH1 IH2]. split.
    + intros k y Hk. destruct (decide (i = k)) as [->|Hne].
      * rewrite lookup_insert_eq in Hk. injection Hk as <-.
        apply handle_close_closed.
      * rewrite lookup_insert_ne in Hk by done.
        apply handle_close_mono. eauto.
    + intros h Hh. apply handle_close_mono. auto.
Qed.

Lemma closeEach_closed {A} (f : A → HandleId) (m : gmap HandleId A) e k x :
  m !! k = Some x → handle_closed (Room.closeEach f m e) (f x) = true.
Proof. apply closeEach_spec. Qed.

Lemma closeEach_mono {A} (f : A → HandleId) (m : gmap HandleId A) e h :
  handle_closed e h = true → handle_closed (Room.closeEach f m e) h = true.
Proof. apply closeEach_spec. Qed.

Lemma closeOpt_closed t (e : E) : handle_closed (Room.closeOpt (Some t) e) t = true.
Proof. apply handle_close_closed. Qed.

Lemma closeOpt_mono o (e : E) h :
  handle_closed e h = true → handle_closed (Room.closeOpt o e) h = true.
Proof. destruct o; cbn; [apply handle_close_mono | done]. Qed.

Lemma peer_closed_mono (e e' : E) p :
  (∀ h, handle_closed e h = true → handle_closed e' h = true) →
  peer_closed e p → peer_closed e' p.
Proof.
  intros Hm (H1 & H2 & H3 & H4). repeat split; intros; apply Hm; eauto.
Qed.

Lemma closePeer_mono peer (e : E) h :
  handle_closed e h = true → handle_closed (closePeer peer e) h = true.
Proof.
  intros Hh. unfold closePeer.
  by do 2 apply closeOpt_mono; do 2 apply closeEach_mono.
Qed.

Lemma closePeer_closed peer (e : E) : peer_closed (closePeer peer e) peer.
Proof.
  unfold closePeer. repeat split.
  - intros k x Hk. do 2 apply closeOpt_mono. apply closeEach_mono.
    by eapply closeEach_closed.
  - intros k x Hk. do 2 apply closeOpt_mono. by eapply closeEach_closed.
  - intros t ->. apply closeOpt_mono, closeOpt_closed.
  - intros t ->. apply closeOpt_closed.
Qed.

(** ** [Room.removePeer] and [Room.close] *)

Lemma removePeer_Some socket room (e : E) peer :
  peers room !! socket = Some peer →
  Room.removePeer socket room e
  = (set_peers (delete socket (peers room)) room, closePeer peer e, Some peer).
Proof. intros Hp. unfold Room.removePeer. by rewrite Hp. Qed.

Lemma removePeer_None socket room (e : E) :
  peers room !! socket = None →
  Room.removePeer socket room e = (room, e, None).
Proof. intros Hp. unfold Room.removePeer. by rewrite Hp. Qed.

Lemma removePeer_mono socket room (e : E) h :
  handle_closed e h = true →
  handle_closed (Room.removePeer socket room e).1.2 h = true.
Proof.
  intros Hh. destruct (peers room !! socket) as [peer|] eqn:Hp.
  - rewrite (removePeer_Some _ _ _ _ Hp). cbn. by apply closePeer_mono.
  - by rewrite (removePeer_None _ _ _ Hp).
Qed.

Lemma close_empty room (e : E) :
  peers room = ∅ → Room.close room e = (room, handle_close (router room) e).
Proof. intros Hp. unfold Room.close. rewrite Hp. by rewrite map_fold_empty. Qed.

Lemma isEmpty_true room : Room.isEmpty room = true ↔ peers room = ∅.
Proof.
  unfold Room.isEmpty. rewrite bool_decide_eq_true. apply map_size_empty_iff.
Qed.
End closing.

(** ** The disconnect handler *)
Section disconnecting.
Context {E : Type} `{!MediaEngine E} `{!Jwt}.

Lemma after_leave_None socket room :
  after_leave socket room = None ↔ last_peer socket room.
Proof.
  unfold after_leave, last_peer. destruct (peers room !! socket) as [p|].
  - destruct (Room.isEmpty _) eqn:He.
    + apply isEmpty_true in He. cbn in He. split; [eauto | done].
    + split; [done|]. intros [_ Hd].
      assert (Room.isEmpty (set_peers (delete socket (peers room)) room) = true)
        as He' by (by apply isEmpty_true).
      congruence.
  - split; [done|]. by intros [[? ?] _].
Qed.

Lemma disconnectRoom_eq socket roomId room (st : Server E) :
  disconnectRoom socket roomId room st =
  match peers room !! socket with
  | None => st
  | Some peer =>
      let e5 := closePeer peer (closePeer peer (engine st)) in
      match after_leave socket room with
      | None =>
          {| rooms := delete roomId (rooms st);
             inviteManager :=
               InviteManager.removeRoomSession roomId (inviteManager st);
             engine := handle_close (router room) e5 |}
      | Some room1 => set_room roomId room1 (set_engine e5 st)
      end
  end.
Proof.
  unfold disconnectRoom, Room.getPeer, after_leave.
  destruct (peers room !! socket) as [peer|] eqn:Hp; [|done].
  rewrite (removePeer_Some _ _ _ _ Hp).
  destruct (Room.isEmpty _) eqn:He; [|done].
  apply isEmpty_true in He. by rewrite (close_empty _ _ He).
Qed.

Lemma disconnectRoom_mono socket roomId room (st : Server E) h :
  handle_closed (engine st) h = true →
  handle_closed (engine (disconnectRoom socket roomId room st)) h = true.
Proof.
  intros Hh. rewrite disconnectRoom_eq.
  destruct (peers room !! socket) as [peer|]; [|done].
  cbn. destruct (after_leave socket room); cbn.
  - by do 2 apply closePeer_mono.
  - by apply handle_close_mono; do 2 apply closePeer_mono.
Qed.

Lemma disconnectRoom_rooms socket i x (acc : Server E) r :
  rooms (disconnectRoom socket i x acc) !! r =
  if decide (i = r) then
    match peers x !! socket with
    | Some _ => after_leave socket x
    | None => rooms acc !! r
    end
  else rooms acc !! r.
Proof.
  rewrite disconnectRoom_eq.
  destruct (peers x !! socket) as [peer|] eqn:Hp; [|by case_decide].
  cbn. destruct (after_leave socket x) as [room1|]; cbn.
  - case_decide; subst; [by rewrite lookup_insert_eq|by rewrite lookup_insert_ne].
  - case_decide; subst; [by rewrite lookup_delete_eq|by rewrite lookup_delete_ne].
Qed.

Lemma disconnectRoom_sessions socket i x (acc : Server E) r :
  sessions (disconnectRoom socket i x acc) !! r =
  if decide (i = r) then
    match after_leave socket x with
    | None => None
    | Some _ => sessions acc !! r
    end
  else sessions acc !! r.
Proof.
  rewrite disconnectRoom_eq. unfold after_leave.
  destruct (peers x !! socket) as [peer|] eqn:Hp; [|by case_decide].
  cbn. destruct (Room.isEmpty _); unfold sessions; cbn.
  - case_decide; subst; [by rewrite lookup_delete_eq|by rewrite lookup_delete_ne].
  - by case_decide.
Qed.

Lemma disconnectRoom_closed socket i x (acc : Server E) peer :
  peers x !! socket = Some peer →
  peer_closed (engine (disconnectRoom socket i x acc)) peer
  ∧ (after_leave socket x = None →
     handle_closed (engine (disconnectRoom socket i x acc)) (router x) = true).
Proof.
  intros Hp. rewrite disconnectRoom_eq, Hp. cbn.
  destruct (after_leave socket x); cbn.
  - split; [apply closePeer_closed | done].
  - split; [|intros _; apply handle_close_closed].
    eapply peer_closed_mono; [|apply closePeer_closed].
    intros h. apply handle_close_mono.
Qed.

(** The loop, entry by entry: what holds of the accumulated state once the
    entries [m] of [rooms] have been visited. *)
Lemma disconnect_fold socket (st : Server E) (m : gmap string Room) :
  m ⊆ rooms st →
  let acc := map_fold (disconnectRoom socket) st m in
  (∀ r, rooms acc !! r =
        match m !! r with
        | Some room => after_leave socket room
        | None => rooms st !! r
        end)
  ∧ (∀ r, sessions acc !! r =
          match m !! r ≫= after_leave socket with
          | None => match m !! r with Some _ => None | None => sessions st !! r end
          | Some _ => sessions st !! r
          end)
  ∧ (∀ h, handle_closed (engine st) h = true →
          handle_closed (engine acc) h = true)
  ∧ (∀ r room peer, m !! r = Some room → peers room !! socket = Some peer →
       peer_closed (engine acc) peer
       ∧ (after_leave socket room = None →
          handle_closed (engine acc) (router room) = true)).
Proof.
  cbn. revert m. apply (map_fold_weak_ind (λ acc m, m ⊆ rooms st →
    (∀ r, rooms acc !! r =
        match m !! r with
        | Some room => after_leave socket room
        | None => rooms st !! r
        end)
  ∧ (∀ r, sessions acc !! r =
          match m !! r ≫= after_leave socket with
          | None => match m !! r with Some _ => None | None => sessions st !! r end
          | Some _ => sessions st !! r
          end)
  ∧ (∀ h, handle_closed (engine st) h = true →
          handle_closed (engine acc) h = true)
  ∧ (∀ r room peer, m !! r = Some room → peers room !! socket = Some peer →
       peer_closed (engine acc) peer
       ∧ (after_leave socket room = None →
          handle_closed (engine acc) (router room) = true)))).
  - intros _. repeat split; intros; by rewrite ?lookup_empty in *.
  - intros i x m acc Hi IH Hsub.
    assert (rooms st !! i = Some x) as Hix.
    { eapply lookup_weaken; [apply lookup_insert_eq | done]. }
    assert (m ⊆ rooms st) as Hsub'.
    { etrans; [apply insert_subseteq; exact Hi | done]. }
    destruct (IH Hsub') as (IH1 & IH2 & IH3 & IH4). clear IH.
    split; [|split; [|split]].
    + intros r. rewrite disconnectRoom_rooms. case_decide as Hir.
      * subst r. rewrite lookup_insert_eq.
        destruct (peers x !! socket) as [peer|] eqn:Hp; [done|].
        rewrite IH1, Hi, Hix. unfold after_leave. by rewrite Hp.
      * rewrite lookup_insert_ne by done. apply IH1.
    + intros r. rewrite disconnectRoom_sessions. case_decide as Hir.
      * subst r. rewrite lookup_insert_eq. cbn.
        specialize (IH2 i). rewrite Hi in IH2. cbn in IH2.
        by destruct (after_leave socket x).
      * rewrite lookup_insert_ne by done. apply IH2.
    + intros h Hh. by apply disconnectRoom_mono, IH3.
    + intros r room peer Hr Hp. destruct (decide (i = r)) as [->|Hir].
      * rewrite lookup_insert_eq in Hr. injection Hr as ->.
        by apply disconnectRoom_closed.
      * rewrite lookup_insert_ne in Hr by done.
        destruct (IH4 r room peer Hr Hp) as [Hc Hrt]. split.
        -- eapply peer_closed_mono; [|exact Hc].
           intros h. apply disconnectRoom_mono.
        -- intros Hn. by apply disconnectRoom_mono, Hrt.
Qed.

(** The registry after a disconnect. *)
Lemma disconnect_rooms socket (st : Server E) r :
  rooms (disconnect socket st) !! r = rooms st !! r ≫= after_leave socket.
Proof.
  destruct (disconnect_fold socket st (rooms st)) as (H1 & _); [done|].
  unfold disconnect. rewrite H1. by destruct (rooms st !! r).
Qed.

(** The sessions after a disconnect. *)
Lemma disconnect_sessions socket (st : Server E) r :
  sessions (disconnect socket st) !! r =
  match rooms st !! r with
  | Some room =>
      match after_leave socket room with
      | Some _ => sessions st !! r
      | None => None
      end
  | None => sessions st !! r
  end.
Proof.
  destruct (disconnect_fold socket st (rooms st)) as (_ & H2 & _); [done|].
  unfold disconnect. rewrite H2.
  destruct (rooms st !! r) as [room|]; cbn; [|done].
  by destruct (after_leave socket room).
Qed.

Lemma disconnect_mono socket (st : Server E) h :
  handle_closed (engine st) h = true →
  handle_closed (engine (disconnect socket st)) h = true.
Proof.
  destruct (disconnect_fold socket st (rooms st)) as (_ & _ & H3 & _); [done|].
  apply H3.
Qed.

Lemma disconnect_closed socket (st : Server E) r room peer :
  rooms st !! r = Some room → peers room !! socket = Some peer →
  peer_closed (engine (disconnect socket st)) peer
  ∧ (after_leave socket room = None →
     handle_closed (engine (disconnect socket st)) (router room) = true).
Proof.
  destruct (disconnect_fold socket st (rooms st)) as (_ & _ & _ & H4); [done|].
  apply H4.
Qed.
End disconnecting.

(** ** The handlers that write one peer *)
Section updates.
Context {E : Type} `{!MediaEngine E} `{!Jwt}.

Lemma set_room_id roomId room (st : Server E) :
  rooms st !! roomId = Some room → rooms (set_room roomId room st) = rooms st.
Proof. intros Hr. cbn. by apply insert_id. Qed.

Lemma local_update_same R (st st' : Server E) :
  rooms st' = rooms st → local_update R st st'.
Proof. by left. Qed.

Lemma local_update_peer R (st st' : Server E) roomId room c p p' :
  rooms st !! roomId = Some room → peers room !! c = Some p →
  R roomId c p p' →
  rooms st' = <[roomId := set_peers (<[c := p']> (peers room)) room]> (rooms st) →
  local_update R st st'.
Proof. intros. right. by exists roomId, room, c, p, p'. Qed.

Lemma createTransport_update req socket roomId kind (st : Server E) :
  local_update (peer_kept req) st (createTransport socket roomId kind st).2.
Proof.
  unfold createTransport, Room.getPeer.
  repeat case_match; simplify_eq; try by apply local_update_same.
  all: eapply local_update_peer; [done..| |done]; split; [done|constructor].
Qed.

Lemma connectTransport_update req socket roomId t (st : Server E) :
  local_update (peer_kept req) st (connectTransport socket roomId t st).2.
Proof.
  unfold connectTransport. repeat case_match; by apply local_update_same.
Qed.

Lemma produce_update req socket roomId t kind (st : Server E) :
  local_update (peer_kept req) st (produce socket roomId t kind st).2.
Proof.
  unfold produce, Room.getPeer.
  repeat case_match; simplify_eq; try by apply local_update_same.
  eapply local_update_peer; [done..| |done]; split; [done|constructor].
Qed.

Lemma consume_update req socket roomId pid caps (st : Server E) :
  local_update (peer_kept req) st (consume socket roomId pid caps st).2.
Proof.
  unfold consume, Room.getPeer.
  repeat case_match; simplify_eq; try by apply local_update_same.
  all: eapply local_update_peer; [done..| |done]; split; [done|constructor].
Qed.

Lemma resumeConsumer_update req socket roomId cid (st : Server E) :
  local_update (peer_kept req) st (resumeConsumer socket roomId cid st).2.
Proof.
  unfold resumeConsumer. repeat case_match; by apply local_update_same.
Qed.

Lemma requestSpeakingPermission_update req socket roomId (st : Server E) :
  local_update (peer_kept req) st (requestSpeakingPermission socket roomId st).2.
Proof.
  unfold requestSpeakingPermission.
  repeat case_match; by apply local_update_same.
Qed.

Lemma apiCreateRoom_rooms hostName baseUrl now (st : Server E) :
  rooms (apiCreateRoom hostName baseUrl now st).2 = rooms st.
Proof. done. Qed.

(** [promotePeerToProducer], by cases. *)
Lemma promotePeerToProducer_eq peerId room :
  Room.promotePeerToProducer peerId room =
  match peers room !! peerId with
  | Some peer =>
      if bool_decide (role peer = consumer)
      then (set_peers (<[peerId := set_role producer peer]> (peers room)) room,
            true)
      else (room, false)
  | None => (room, false)
  end.
Proof.
  unfold Room.promotePeerToProducer.
  destruct (peers room !! peerId) as [peer|]; [|done]. by destruct (role peer).
Qed.

(** [approvePeerJoin], by cases. *)
Lemma approvePeerJoin_eq peerId room :
  Room.approvePeerJoin peerId room =
  match peers room !! peerId with
  | Some peer =>
      if bool_decide (role peer = waiting)
      then (set_peers (<[peerId := set_role consumer peer]> (peers room)) room,
            true)
      else (room, false)
  | None => (room, false)
  end.
Proof.
  unfold Room.approvePeerJoin.
  destruct (peers room !! peerId) as [peer|]; [|done]. by destruct (role peer).
Qed.

Lemma promoteToProducer_update socket roomId peerId (st : Server E) :
  local_update (peer_kept (PromoteToProducer roomId peerId)) st
    (promoteToProducer socket roomId peerId st).2.
Proof.
  unfold promoteToProducer, Room.getPeer.
  destruct (rooms st !! roomId) as [room|] eqn:Hr; [|by apply local_update_same].
  destruct (negb (Room.isHost socket room)); [by apply local_update_same|].
  destruct (peers room !! peerId) as [peer|] eqn:Hp;
    [|by apply local_update_same].
  rewrite promotePeerToProducer_eq, Hp. case_bool_decide as Hrole; cbn.
  - eapply local_update_peer; [done..| |done]. split; [done|].
    cbn. rewrite Hrole. constructor.
  - apply local_update_same. by apply set_room_id.
Qed.

Lemma approveJoin_update socket roomId peerId promote (st : Server E) :
  local_update (peer_kept (ApproveJoin roomId peerId promote)) st
    (approveJoin socket roomId peerId promote st).2.
Proof.
  unfold approveJoin, Room.getPeer.
  destruct (rooms st !! roomId) as [room|] eqn:Hr; [|by apply local_update_same].
  destruct (negb (Room.isHost socket room)); [by apply local_update_same|].
  destruct (peers room !! peerId) as [peer|] eqn:Hp;
    [|by apply local_update_same].
  rewrite approvePeerJoin_eq, Hp. case_bool_decide as Hrole; cbn.
  - destruct promote.
    + rewrite promotePeerToProducer_eq. cbn. rewrite lookup_insert_eq. cbn.
      eapply local_update_peer; [done..| |cbn; by rewrite insert_insert_eq].
      split; [done|]. cbn. rewrite Hrole. apply change_approve_promote.
    + eapply local_update_peer; [done..| |done]. split; [done|].
      cbn. rewrite Hrole. constructor.
  - apply local_update_same. by apply set_room_id.
Qed.

Lemma demoteToConsumer_update socket roomId peerId (st : Server E) :
  local_update (peer_kept (DemoteToConsumer roomId peerId)) st
    (demoteToConsumer socket roomId peerId st).2.
Proof.
  unfold demoteToConsumer, Room.getPeer, Room.demotePeerToConsumer.
  destruct (rooms st !! roomId) as [room|] eqn:Hr; [|by apply local_update_same].
  destruct (negb (Room.isHost socket room)); [by apply local_update_same|].
  destruct (peers room !! peerId) as [peer|] eqn:Hp;
    [|by apply local_update_same].
  destruct (role peer) eqn:Hrole; [by apply local_update_same|..].
  all: eapply local_update_peer; [done..| |done]; split; [done|].
  all: cbn; apply change_demote; congruence.
Qed.

(** ** The join handler *)

(** The handler, with the lookup after [addPeer] resolved (it never fails)
    and the two writes to the new peer merged. *)
Lemma join_eq now socket roomId uid name caps tok (st : Server E) :
  join now socket roomId uid name caps tok st =
  if token_refused tok roomId now
  then (Error "Invalid or expired invite token", st)
  else
    match ensureRoom roomId socket name now st with
    | (None, st1) => (Error "Failed to join room", st1)
    | (Some room, st1) =>
        let r := joined_role room in
        let room2 :=
          set_peers (<[socket := joined_peer socket uid name r caps]>
                       (peers room)) room in
        (Joined r
           match r with
           | waiting => []
           | _ => Room.getAllProducersForPeer socket room2
           end
           ((λ p, (peer_id p, userId p, displayName p, role p))
              <$> (map_to_list (peers room2)).*2)
           socket,
         set_room roomId room2 st1)
    end.
Proof.
  unfold join, token_refused.
  destruct (match truthy tok with Some _ => _ | None => _ end); [done|].
  destruct (ensureRoom roomId socket name now st) as [[room|] st1]; [|done].
  unfold Room.getPeer, Room.addPeer. cbn. rewrite lookup_insert_eq.
  unfold set_rtpCapabilities, set_peers. cbn. rewrite insert_insert_eq.
  done.
Qed.

Lemma ensureRoom_eq roomId socket name now (st : Server E) :
  ensureRoom roomId socket name now st =
  match rooms st !! roomId with
  | Some room => (Some room, st)
  | None =>
      match worker_createRouter (engine st) with
      | (Some h, e') =>
          let room := {| room_id := roomId; router := h; peers := ∅;
                         hostSocketId := socket; room_createdAt := now |} in
          (Some room,
           {| rooms := <[roomId := room]> (rooms st);
              inviteManager :=
                (InviteManager.createRoomSession roomId socket name now
                   (inviteManager st)).1;
              engine := e' |})
      | (None, e') => (None, set_engine e' st)
      end
  end.
Proof.
  unfold ensureRoom, Room.create.
  destruct (rooms st !! roomId); [done|].
  by destruct (worker_createRouter (engine st)) as [[h|] e'].
Qed.

(** The registry after a join. *)
Lemma join_rooms now socket roomId uid name caps tok (st : Server E) :
  rooms (join now socket roomId uid name caps tok st).2 =
  if token_refused tok roomId now then rooms st
  else
    match rooms st !! roomId with
    | Some room =>
        <[roomId :=
            set_peers (<[socket := joined_peer socket uid name
                                     (joined_role room) caps]> (peers room))
              room]> (rooms st)
    | None =>
        match (worker_createRouter (engine st)).1 with
        | Some h =>
            <[roomId :=
                {| room_id := roomId; router := h;
                   peers := {[socket := joined_peer socket uid name host caps]};
                   hostSocketId := socket; room_createdAt := now |}]>
              (rooms st)
        | None => rooms st
        end
    end.
Proof.
  rewrite join_eq, ensureRoom_eq.
  destruct (token_refused tok roomId now); [done|].
  destruct (rooms st !! roomId) as [room|] eqn:Hr; [done|].
  destruct (worker_createRouter (engine st)) as [[h|] e']; [|done].
  cbn. rewrite insert_insert_eq. unfold joined_role, Room.getPeerCount. cbn.
  by rewrite map_size_empty, insert_empty.
Qed.

(** ** The invariant of the registry *)

Lemma role_change_host req r c ro ro' :
  role_change req r c ro ro' → ro' = host → ro = host.
Proof. by destruct 1. Qed.

Lemma role_change_from_host req r c ro' :
  role_change req r c host ro' → ro' = host.
Proof. inversion 1; congruence. Qed.

Lemma local_update_nonempty R (st st' : Server E) :
  local_update R st st' → rooms_nonempty st → rooms_nonempty st'.
Proof.
  intros [Heq|(roomId & room & c & p & p' & Hr & Hp & _ & Heq)] Hinv r room';
    rewrite Heq; [apply Hinv|].
  destruct (decide (roomId = r)) as [->|Hne].
  - rewrite lookup_insert_eq. intros [= <-]. cbn. apply insert_non_empty.
  - rewrite lookup_insert_ne by done. apply Hinv.
Qed.

Lemma local_update_host_is_creator req (st st' : Server E) :
  local_update (peer_kept req) st st' →
  host_is_creator st → host_is_creator st'.
Proof.
  intros [Heq|(roomId & room & c & p & p' & Hr & Hp & [_ Hstep] & Heq)] Hinv
    r room' c' q; rewrite Heq; [apply Hinv|].
  destruct (decide (roomId = r)) as [->|Hne].
  - rewrite lookup_insert_eq. intros [= <-]. cbn.
    destruct (decide (c = c')) as [->|Hc].
    + rewrite lookup_insert_eq. intros [= <-] Hhost.
      eapply Hinv; [done..|]. by eapply role_change_host.
    + rewrite lookup_insert_ne by done. intros Hq Hhost. by eapply Hinv.
  - rewrite lookup_insert_ne by done. apply Hinv.
Qed.

Lemma handle_local_update now socket req (st : Server E) :
  match req with
  | Join _ _ _ _ _ | Disconnect => True
  | _ => local_update (peer_kept req) st (handle now socket req st).2
  end.
Proof.
  destruct req; cbn [handle]; try done.
  - apply createTransport_update.
  - apply connectTransport_update.
  - apply produce_update.
  - apply consume_update.
  - apply resumeConsumer_update.
  - apply promoteToProducer_update.
  - apply approveJoin_update.
  - apply demoteToConsumer_update.
  - apply requestSpeakingPermission_update.
  - by left.
Qed.

Lemma joined_role_nonempty room : peers room ≠ ∅ → joined_role room = waiting.
Proof.
  intros Hne. unfold joined_role, Room.getPeerCount.
  rewrite bool_decide_eq_false_2; [done|]. by rewrite map_size_empty_iff.
Qed.

Lemma join_inv now socket roomId uid name caps tok (st : Server E) :
  server_inv st → server_inv (join now socket roomId uid name caps tok st).2.
Proof.
  intros [Hne Hhost]. split.
  - intros r room'. rewrite join_rooms.
    destruct (token_refused tok roomId now); [apply Hne|].
    destruct (rooms st !! roomId) as [room|] eqn:Hr;
      [|destruct (worker_createRouter (engine st)).1; [|apply Hne]].
    all: destruct (decide (roomId = r)) as [->|Hrr];
      [rewrite lookup_insert_eq; intros [= <-]; cbn
      |rewrite lookup_insert_ne by done; apply Hne].
    + apply insert_non_empty.
    + apply insert_non_empty.
  - intros r room' c q. rewrite join_rooms.
    destruct (token_refused tok roomId now); [apply Hhost|].
    destruct (rooms st !! roomId) as [room|] eqn:Hr;
      [|destruct (worker_createRouter (engine st)).1; [|apply Hhost]].
    all: destruct (decide (roomId = r)) as [->|Hrr];
      [rewrite lookup_insert_eq; intros [= <-]; cbn
      |rewrite lookup_insert_ne by done; apply Hhost].
    + rewrite (joined_role_nonempty room) by eauto.
      destruct (decide (socket = c)) as [->|Hc].
      * rewrite lookup_insert_eq. by intros [= <-].
      * rewrite lookup_insert_ne by done. intros Hq Hh. by eapply Hhost.
    + destruct (decide (socket = c)) as [->|Hc]; [done|].
      by rewrite lookup_singleton_ne by done.
Qed.

Lemma after_leave_Some socket room room' :
  after_leave socket room = Some room' →
  (room' = room ∧ peers room !! socket = None)
  ∨ (room' = set_peers (delete socket (peers room)) room
     ∧ delete socket (peers room) ≠ ∅).
Proof.
  unfold after_leave. destruct (peers room !! socket) as [p|].
  - destruct (Room.isEmpty _) eqn:He; [done|]. intros [= <-]. right.
    split; [done|]. intros Hd.
    assert (Room.isEmpty (set_peers (delete socket (peers room)) room) = true)
      by (by apply isEmpty_true).
    congruence.
  - intros [= <-]. by left.
Qed.

Lemma disconnect_inv socket (st : Server E) :
  server_inv st → server_inv (disconnect socket st).
Proof.
  intros [Hne Hhost]. split.
  - intros r room'. rewrite disconnect_rooms.
    destruct (rooms st !! r) as [room|] eqn:Hr; [cbn|done].
    intros [[-> _]|[-> Hd]]%after_leave_Some; [by eapply Hne | done].
  - intros r room' c q. rewrite disconnect_rooms.
    destruct (rooms st !! r) as [room|] eqn:Hr; [cbn|done].
    intros [[-> _]|[-> Hd]]%after_leave_Some; [by eapply Hhost|].
    cbn. intros Hq%lookup_delete_Some. destruct Hq as [_ Hq]. by eapply Hhost.
Qed.

Lemma handle_inv now socket req (st : Server E) :
  server_inv st → server_inv (handle now socket req st).2.
Proof.
  intros Hinv. pose proof (handle_local_update now socket req st) as Hloc.
  destruct req; try (destruct Hinv; split;
    [by eapply local_update_nonempty|by eapply local_update_host_is_creator]).
  - by apply join_inv.
  - by apply disconnect_inv.
Qed.

Lemma init_inv (e : E) : server_inv (init e).
Proof. split; intros r room; cbn; by rewrite lookup_empty. Qed.

Lemma reachable_inv e0 (st : Server E) : reachable e0 st → server_inv st.
Proof.
  induction 1 as [|st now socket req _ IH]; [apply init_inv|by apply handle_inv].
Qed.

Lemma reachable_run e0 evs (st : Server E) :
  reachable e0 st → reachable e0 (run evs st).
Proof.
  revert st. induction evs as [|[[now socket] req] evs IH]; intros st Hst;
    [done|].
  cbn. apply IH. by constructor.
Qed.
End updates.

(** ** Roles along a step *)
Section roles.
Context {E : Type} `{!MediaEngine E} `{!Jwt}.

Lemma peer_role_Some (st : Server E) r c ro :
  peer_role st r c = Some ro ↔
  ∃ room p, rooms st !! r = Some room ∧ peers room !! c = Some p ∧ role p = ro.
Proof.
  unfold peer_role, peer_of. split.
  - destruct (rooms st !! r) as [room|]; [cbn|done].
    destruct (peers room !! c) as [p|] eqn:Hp; [cbn|done].
    intros [= <-]. by exists room, p.
  - intros (room & p & -> & Hp & <-). cbn. by rewrite Hp.
Qed.

Lemma local_update_peer_role req (st st' : Server E) r c ro :
  local_update (peer_kept req) st st' →
  peer_role st r c = Some ro →
  ∃ ro', peer_role st' r c = Some ro' ∧ role_change req r c ro ro'.
Proof.
  unfold peer_role, peer_of.
  intros [Heq|(roomId & room & c0 & p & p' & Hr & Hp & [_ Hstep] & Heq)];
    rewrite Heq; [exists ro; split; [done|constructor]|].
  destruct (decide (roomId = r)) as [->|Hne].
  - rewrite lookup_insert_eq, Hr. cbn.
    destruct (decide (c0 = c)) as [->|Hc].
    + rewrite lookup_insert_eq, Hp. cbn. intros [= <-]. by exists (role p').
    + rewrite lookup_insert_ne by done. intros Hro. exists ro.
      split; [done|constructor].
  - rewrite lookup_insert_ne by done. intros Hro. exists ro.
    split; [done|constructor].
Qed.

(** A join writes the entry of the joining socket in the room it names, and
    no other. *)
Lemma join_peer_of_other now socket roomId uid name caps tok (st : Server E)
  r c :
  ¬ (roomId = r ∧ socket = c) →
  peer_of (join now socket roomId uid name caps tok st).2 r c = peer_of st r c.
Proof.
  intros Hne. unfold peer_of. rewrite join_rooms.
  destruct (token_refused tok roomId now); [done|].
  destruct (rooms st !! roomId) as [room|] eqn:Hr;
    [|destruct (worker_createRouter (engine st)).1; [|done]].
  all: destruct (decide (roomId = r)) as [->|Hrr];
    [rewrite lookup_insert_eq, ?Hr; cbn|by rewrite lookup_insert_ne by done].
  - rewrite lookup_insert_ne; [done|]. intros ->. by apply Hne.
  - rewrite lookup_singleton_ne; [done|]. intros ->. by apply Hne.
Qed.

(** A join of a socket that is already in the room never makes it host. *)
Lemma join_peer_role_again now socket roomId uid name caps tok
  (st : Server E) ro :
  peer_role st roomId socket = Some ro →
  peer_role (join now socket roomId uid name caps tok st).2 roomId socket
  = Some (if token_refused tok roomId now then ro else waiting).
Proof.
  intros Hro. pose proof Hro as (room & p & Hr & Hp & <-)%peer_role_Some.
  unfold peer_role, peer_of in *. rewrite join_rooms, Hr.
  destruct (token_refused tok roomId now); [rewrite Hr; cbn; by rewrite Hp|].
  rewrite lookup_insert_eq. cbn. rewrite lookup_insert_eq. cbn.
  rewrite joined_role_nonempty; [done|]. intros Hemp.
  by rewrite Hemp, lookup_empty in Hp.
Qed.

(** A disconnect removes entries and writes none. *)
Lemma disconnect_peer_of_sub socket (st : Server E) r c p :
  peer_of (disconnect socket st) r c = Some p → peer_of st r c = Some p.
Proof.
  unfold peer_of. rewrite disconnect_rooms.
  destruct (rooms st !! r) as [room|]; [cbn|done].
  destruct (after_leave socket room) as [room'|] eqn:Hl; [cbn|done].
  apply after_leave_Some in Hl as [[-> _]|[-> _]]; [done|].
  cbn. by intros [_ ?]%lookup_delete_Some.
Qed.

Lemma disconnect_peer_of_other socket (st : Server E) r c p :
  socket ≠ c → peer_of st r c = Some p →
  peer_of (disconnect socket st) r c = Some p.
Proof.
  intros Hne. unfold peer_of. rewrite disconnect_rooms.
  destruct (rooms st !! r) as [room|]; [cbn|done]. intros Hp.
  unfold after_leave. destruct (peers room !! socket); [|done].
  destruct (Room.isEmpty _) eqn:He.
  - apply isEmpty_true in He. cbn in He.
    assert (delete socket (peers room) !! c = Some p) as Hd
      by (by rewrite lookup_delete_ne).
    by rewrite He, lookup_empty in Hd.
  - cbn. by rewrite lookup_delete_ne.
Qed.
End roles.

(** ** The role a join assigns *)
Section joining.
Context {E : Type} `{!MediaEngine E} `{!Jwt}.

Lemma joined_role_host room : joined_role room = host ↔ peers room = ∅.
Proof.
  unfold joined_role, Room.getPeerCount. case_bool_decide as Hs.
  - by rewrite <-map_size_empty_iff.
  - split; [done|]. by rewrite <-map_size_empty_iff.
Qed.

Lemma joined_role_cases room :
  joined_role room = host ∨ joined_role room = waiting.
Proof. unfold joined_role. case_bool_decide; auto. Qed.
(** The answer [Failed to add peer to room] is never given: the lookup
    that follows [addPeer] finds the peer [addPeer] has just set. *)
Lemma join_never_fails_to_add now socket roomId uid name caps tok
  (st : Server E) :
  (join now socket roomId uid name caps tok st).1
  ≠ Error "Failed to add peer to room".
Proof.
  rewrite join_eq, ensureRoom_eq.
  destruct (token_refused tok roomId now); [done|].
  destruct (rooms st !! roomId); [done|].
  by destruct (worker_createRouter (engine st)) as [[h|] e'].
Qed.
(** A request run in one piece gives the role host to no peer that is in a
    room with another role. *)
Lemma handle_not_into_host now socket req (st : Server E) r c ro :
  peer_role st r c = Some ro → ro ≠ host →
  peer_role (handle now socket req st).2 r c ≠ Some host.
Proof.
  intros Hro Hnh Hafter.
  pose proof (handle_local_update now socket req st) as Hloc.
  destruct req; try (
    destruct (local_update_peer_role _ _ _ r c ro Hloc Hro)
      as (ro' & Hro' & Hstep);
    rewrite Hro' in Hafter; injection Hafter as ->;
    by apply role_change_host in Hstep).
  - cbn [handle] in Hafter.
    destruct (decide (roomId = r ∧ socket = c)) as [[-> ->]|Hother].
    + rewrite (join_peer_role_again _ _ _ _ _ _ _ _ _ Hro) in Hafter.
      destruct (token_refused _ _ _); congruence.
    + unfold peer_role in *. rewrite join_peer_of_other in Hafter by done.
      congruence.
  - cbn [handle snd] in Hafter. unfold peer_role in *.
    destruct (peer_of (disconnect socket st) r c) as [p|] eqn:Hp; [|done].
    apply disconnect_peer_of_sub in Hp. rewrite Hp in Hro. cbn in *.
    congruence.
Qed.

(** A host peer stays host through a request run in one piece, a request
    that renews its entry apart. *)
Lemma handle_host_stays now socket req (st : Server E) r c :
  peer_role st r c = Some host → ¬ renews_entry socket req r c →
  peer_role (handle now socket req st).2 r c = Some host.
Proof.
  intros Hro Hrenew.
  pose proof (handle_local_update now socket req st) as Hloc.
  destruct req; try (
    destruct (local_update_peer_role _ _ _ r c host Hloc Hro)
      as (ro' & Hro' & Hstep);
    by apply role_change_from_host in Hstep as ->).
  - cbn [handle]. unfold peer_role in *. rewrite join_peer_of_other; [done|].
    intros [-> ->]. by apply Hrenew.
  - cbn [handle snd]. unfold peer_role in *.
    destruct (peer_of st r c) as [p|] eqn:Hp; [|done].
    rewrite (disconnect_peer_of_other socket st r c p); [done| |done].
    intros ->. by apply Hrenew.
Qed.
End joining.

(** * The claims *)

(** ** Room teardown *)

(** C7. When the last peer of a room disconnects, the room leaves the
    registry, its router handle is closed and its invite session is removed;
    and once a disconnect has completed, no room of the registry has zero
    peers. *)
Theorem disconnect_last_peer_removes_room {E : Type} `{!MediaEngine E} `{!Jwt}
  (e0 : E) (st : Server E) (socket r : string) (room : Room) :
  reachable e0 st →
  rooms st !! r = Some room →
  last_peer socket room →
  let st' := disconnect socket st in
  rooms st' !! r = None
  ∧ sessions st' !! r = None
  ∧ handle_closed (engine st') (router room) = true
  ∧ ∀ r' room', rooms st' !! r' = Some room' → peers room' ≠ ∅.
Proof.
  intros Hreach Hr Hlast. cbn.
  pose proof (proj2 (after_leave_None socket room) Hlast) as Hleave.
  repeat split.
  - by rewrite disconnect_rooms, Hr.
  - by rewrite disconnect_sessions, Hr, Hleave.
  - destruct Hlast as [[peer Hp] _].
    by apply (disconnect_closed socket st r room peer).
  - apply disconnect_inv. by eapply reachable_inv.
Qed.

Lemma disconnect_last_peer_removes_room_witness :
  rooms (disconnect "a" one_host) !! "r1" = None
  ∧ sessions (disconnect "a" one_host) !! "r1" = None
  ∧ handle_closed (engine (disconnect "a" one_host)) 0 = true
  ∧ ∀ r' room', rooms (disconnect "a" one_host) !! r' = Some room' →
      peers room' ≠ ∅.
Proof.
  apply (disconnect_last_peer_removes_room counting_start one_host "a" "r1"
           one_host_room).
  - apply reachable_run, reachable_init.
  - vm_compute. reflexivity.
  - split; [eexists|]; vm_compute; reflexivity.
Defined.

(** ** The host role *)

(** C1, as stated, fails: the host [a] of [r1] sends [join] for [r1] again;
    the peer count is 1, [addPeer] puts a new peer in the role waiting under
    the key of [a], and the host entry is gone. *)
Lemma host_rejoin_becomes_waiting :
  reachable counting_start one_host
  ∧ peer_role one_host "r1" "a" = Some host
  ∧ (handle 2000 "a" (Join "r1" "ua" "Alice" [] None) one_host).1
    = Joined waiting [] [("a", "ua", "Alice", waiting)] "a"
  ∧ peer_role (handle 2000 "a" (Join "r1" "ua" "Alice" [] None) one_host).2
      "r1" "a" = Some waiting.
Proof.
  split; [apply reachable_run, reachable_init|].
  repeat split; vm_compute; reflexivity.
Qed.

(** ** Role transitions *)
Section transitions.
Context {E : Type} `{!MediaEngine E} `{!Jwt}.

(** [promoteToProducer] on a peer that is not a consumer: refused, and the
    registry is as before. *)
Lemma promoteToProducer_not_consumer socket roomId peerId (st : Server E)
  room p :
  rooms st !! roomId = Some room → Room.isHost socket room = true →
  peers room !! peerId = Some p → role p ≠ consumer →
  (promoteToProducer socket roomId peerId st).1
  = Error "Peer is already a producer or host"
  ∧ rooms (promoteToProducer socket roomId peerId st).2 = rooms st.
Proof.
  intros Hr Hh Hp Hrole. unfold promoteToProducer, Room.getPeer.
  rewrite Hr, Hh, Hp, promotePeerToProducer_eq, Hp. cbn.
  rewrite bool_decide_eq_false_2 by done. cbn. split; [done|].
  by apply insert_id.
Qed.

(** [approveJoin] on a peer that is not waiting: refused, and the registry
    is as before. *)
Lemma approveJoin_not_waiting socket roomId peerId promote (st : Server E)
  room p :
  rooms st !! roomId = Some room → Room.isHost socket room = true →
  peers room !! peerId = Some p → role p ≠ waiting →
  (approveJoin socket roomId peerId promote st).1 = Error "Peer is not waiting"
  ∧ rooms (approveJoin socket roomId peerId promote st).2 = rooms st.
Proof.
  intros Hr Hh Hp Hrole. unfold approveJoin, Room.getPeer.
  rewrite Hr, Hh, Hp, approvePeerJoin_eq, Hp. cbn.
  rewrite bool_decide_eq_false_2 by done. cbn. split; [done|].
  by apply insert_id.
Qed.

(** [demoteToConsumer] looks at the role of its target only to spare the
    host: any other peer ends in the role consumer, and the caller is told
    the demotion was done. *)
Lemma demoteToConsumer_any_role socket roomId peerId (st : Server E) room p :
  rooms st !! roomId = Some room → Room.isHost socket room = true →
  peers room !! peerId = Some p → role p ≠ host →
  (demoteToConsumer socket roomId peerId st).1 = Demoted
  ∧ peer_role (demoteToConsumer socket roomId peerId st).2 roomId peerId
    = Some consumer.
Proof.
  intros Hr Hh Hp Hrole.
  unfold demoteToConsumer, Room.getPeer, Room.demotePeerToConsumer.
  rewrite Hr, Hh, Hp. cbn.
  destruct (role p) eqn:Hro; [done|..]; cbn.
  all: split; [done|]; unfold peer_role, peer_of; cbn.
  all: rewrite lookup_insert_eq; cbn; by rewrite lookup_insert_eq.
Qed.
(** [promoteToProducer] on a consumer: done, and the peer is a producer. *)
Lemma promoteToProducer_consumer socket roomId peerId (st : Server E) room p :
  rooms st !! roomId = Some room → Room.isHost socket room = true →
  peers room !! peerId = Some p → role p = consumer →
  (promoteToProducer socket roomId peerId st).1 = Promoted
  ∧ peer_role (promoteToProducer socket roomId peerId st).2 roomId peerId
    = Some producer.
Proof.
  intros Hr Hh Hp Hrole. unfold promoteToProducer, Room.getPeer.
  rewrite Hr, Hh, Hp, promotePeerToProducer_eq, Hp. cbn.
  rewrite bool_decide_eq_true_2 by done. cbn. split; [done|].
  unfold peer_role, peer_of. cbn. rewrite lookup_insert_eq. cbn.
  by rewrite lookup_insert_eq.
Qed.

(** [approveJoin] on a waiting peer: done, and the peer is a consumer, or a
    producer when the promote flag is set. *)
Lemma approveJoin_waiting socket roomId peerId promote (st : Server E) room p :
  rooms st !! roomId = Some room → Room.isHost socket room = true →
  peers room !! peerId = Some p → role p = waiting →
  (approveJoin socket roomId peerId promote st).1 = Approved promote
  ∧ peer_role (approveJoin socket roomId peerId promote st).2 roomId peerId
    = Some (if promote then producer else consumer).
Proof.
  intros Hr Hh Hp Hrole. unfold approveJoin, Room.getPeer.
  rewrite Hr, Hh, Hp, approvePeerJoin_eq, Hp. cbn.
  rewrite bool_decide_eq_true_2 by done. cbn. split; [done|].
  unfold peer_role, peer_of. cbn. rewrite lookup_insert_eq. cbn.
  destruct promote.
  - rewrite promotePeerToProducer_eq. cbn. rewrite lookup_insert_eq. cbn.
    rewrite bool_decide_eq_true_2 by done. cbn. by rewrite lookup_insert_eq.
  - cbn. by rewrite lookup_insert_eq.
Qed.

(** [demoteToConsumer] on the host: refused, and the state is as before. *)
Lemma demoteToConsumer_host socket roomId peerId (st : Server E) room p :
  rooms st !! roomId = Some room → Room.isHost socket room = true →
  peers room !! peerId = Some p → role p = host →
  demoteToConsumer socket roomId peerId st = (Error "Cannot demote host", st).
Proof.
  intros Hr Hh Hp Hrole. unfold demoteToConsumer, Room.getPeer.
  by rewrite Hr, Hh, Hp, Hrole.
Qed.

(** A request that writes peers in place changes the role of a peer as
    [role_change] allows, and of no other. *)
Lemma handle_role_change now socket req (st : Server E) r c ro :
  in_place req → peer_role st r c = Some ro →
  ∃ ro', peer_role (handle now socket req st).2 r c = Some ro'
         ∧ role_change req r c ro ro'.
Proof.
  intros Hreq Hro. pose proof (handle_local_update now socket req st) as Hloc.
  destruct req; try done; by eapply local_update_peer_role.
Qed.
End transitions.

(** C3, as amended.  A request other than join and disconnect changes the
    role of a peer only as follows: approveJoin takes its target from
    waiting to consumer, or to producer with the promote flag;
    promoteToProducer takes its target from consumer to producer;
    demoteToConsumer takes its target from any role but host to consumer; no
    other role changes, and none to waiting or to host.  For a host caller
    and a target in the room: approveJoin reports failure and changes
    nothing when the target is not waiting; promoteToProducer reports
    failure and changes nothing when the target is not a consumer;
    demoteToConsumer reports failure and changes nothing when the target is
    the host, and otherwise reports success and leaves the target a
    consumer. *)
Theorem role_transitions_by_request {E : Type} `{!MediaEngine E} `{!Jwt}
  (socket roomId peerId : string) (promote : bool) (st : Server E)
  (room : Room) (p : Peer) :
  rooms st !! roomId = Some room →
  Room.isHost socket room = true →
  peers room !! peerId = Some p →
  (∀ now caller req r c ro,
     in_place req → peer_role st r c = Some ro →
     ∃ ro', peer_role (handle now caller req st).2 r c = Some ro'
            ∧ role_change req r c ro ro')
  ∧ (let res := approveJoin socket roomId peerId promote st in
     if bool_decide (role p = waiting)
     then res.1 = Approved promote
          ∧ peer_role res.2 roomId peerId
            = Some (if promote then producer else consumer)
     else res.1 = Error "Peer is not waiting" ∧ rooms res.2 = rooms st)
  ∧ (let res := promoteToProducer socket roomId peerId st in
     if bool_decide (role p = consumer)
     then res.1 = Promoted ∧ peer_role res.2 roomId peerId = Some producer
     else res.1 = Error "Peer is already a producer or host"
          ∧ rooms res.2 = rooms st)
  ∧ (let res := demoteToConsumer socket roomId peerId st in
     if bool_decide (role p = host)
     then res = (Error "Cannot demote host", st)
     else res.1 = Demoted ∧ peer_role res.2 roomId peerId = Some consumer).
Proof.
  intros Hr Hh Hp. split; [|split; [|split]].
  - intros now caller req r c ro. apply handle_role_change.
  - cbn. case_bool_decide.
    + by eapply approveJoin_waiting.
    + by eapply approveJoin_not_waiting.
  - cbn. case_bool_decide.
    + by eapply promoteToProducer_consumer.
    + by eapply promoteToProducer_not_consumer.
  - cbn. case_bool_decide.
    + by eapply demoteToConsumer_host.
    + by eapply demoteToConsumer_any_role.
Qed.

Lemma role_transitions_by_request_witness :
  (approveJoin "a" "r1" "b" false host_and_waiting).1 = Approved false
  ∧ peer_role (approveJoin "a" "r1" "b" false host_and_waiting).2 "r1" "b"
    = Some consumer.
Proof.
  apply (role_transitions_by_request "a" "r1" "b" false host_and_waiting
           host_and_waiting_room (joined_peer "b" "ub" "Bob" waiting [])).
  - vm_compute. reflexivity.
  - vm_compute. reflexivity.
  - vm_compute. reflexivity.
Defined.

(** C3, as stated, fails: the host [a] sends [demoteToConsumer] for the
    waiting peer [b]; [b] becomes a consumer and [a] is answered
    [{ demoted: true }], where the claim wants the role unchanged and a
    failure. *)
Lemma demote_of_waiting_peer_makes_consumer :
  peer_role host_and_waiting "r1" "b" = Some waiting
  ∧ (handle 3000 "a" (DemoteToConsumer "r1" "b") host_and_waiting).1 = Demoted
  ∧ peer_role (handle 3000 "a" (DemoteToConsumer "r1" "b") host_and_waiting).2
      "r1" "b" = Some consumer.
Proof. repeat split; vm_compute; reflexivity. Qed.

(** ** Transports of a waiting peer *)
Section waiting_peer.
Context {E : Type} `{!MediaEngine E} `{!Jwt}.

(** [createTransport], either kind, is refused to a waiting peer and
    leaves the state as it was. *)
Lemma createTransport_waiting socket roomId kind (st : Server E) :
  peer_role st roomId socket = Some waiting →
  createTransport socket roomId kind st =
  (Error match kind with
         | send => "Permission denied: You do not have permission to produce media. Wait for host approval."
         | recv => "Permission denied: waiting for host approval."
         end, st).
Proof.
  intros (room & p & Hr & Hp & Hrole)%peer_role_Some.
  unfold createTransport, Room.getPeer, Room.canPeerProduce.
  rewrite Hr, Hp, Hrole. by destruct kind.
Qed.

(** [produce] is refused to a waiting peer and leaves the state as it
    was. *)
Lemma produce_waiting socket roomId t kind (st : Server E) :
  peer_role st roomId socket = Some waiting →
  produce socket roomId t kind st =
  (Error "Permission denied: You do not have permission to produce media", st).
Proof.
  intros (room & p & Hr & Hp & Hrole)%peer_role_Some.
  unfold produce, Room.getPeer, Room.canPeerProduce.
  by rewrite Hr, Hp, Hrole.
Qed.

(** [consume] does not look at the role: when the router can consume the
    producer and the engine makes the transport, a peer without a receive
    transport has one afterwards, whatever its role. *)
Lemma consume_makes_recvTransport socket roomId pid caps (st : Server E)
  room p t e' :
  rooms st !! roomId = Some room → peers room !! socket = Some p →
  recvTransport p = None →
  router_canConsume (router room) pid caps (engine st) = true →
  router_createWebRtcTransport (router room) (engine st) = (Some t, e') →
  ∃ p', peer_of (consume socket roomId pid caps st).2 roomId socket = Some p'
        ∧ recvTransport p' = Some t ∧ role p' = role p.
Proof.
  intros Hr Hp Hrecv Hcan Hmk. unfold consume, Room.getPeer, peer_of.
  rewrite Hr, Hp, Hcan, Hrecv, Hmk. cbn.
  destruct (transport_consume t pid caps e') as [[c|] e2]; cbn;
    rewrite lookup_insert_eq; cbn; rewrite lookup_insert_eq; by eexists.
Qed.
End waiting_peer.

(** C2 fails on the code: the waiting peer [b] is refused a receive
    transport by [createTransport], and gets one from [consume], which makes
    it on demand without a look at the role. *)
Theorem waiting_peer_gets_recvTransport_by_consume :
  peer_role host_producing "r1" "b" = Some waiting
  ∧ (recvTransport <$> peer_of host_producing "r1" "b") = Some None
  ∧ (handle 2100 "b" (CreateTransport "r1" recv) host_producing).1
    = Error "Permission denied: waiting for host approval."
  ∧ (handle 2200 "b" (Consume "r1" 2 []) host_producing).1
    = Consumed 4 2 video 3
  ∧ (recvTransport <$>
       peer_of (handle 2200 "b" (Consume "r1" 2 []) host_producing).2 "r1" "b")
    = Some (Some 3)
  ∧ peer_role (handle 2200 "b" (Consume "r1" 2 []) host_producing).2 "r1" "b"
    = Some waiting.
Proof. repeat split; vm_compute; reflexivity. Qed.

(** ** [addPeer] *)

(** C4, as amended.  [addPeer] never fails: it returns a new peer with the
    role it is given, no transport, no producer and no consumer, and puts it
    in the peer map under the connection id, in the place of the peer that
    was there if there was one; nothing else of the room changes. *)
Theorem addPeer_sets_entry (socketId uid name : string) (r : PeerRole)
  (room : Room) :
  let peer := {| peer_id := socketId; userId := uid; displayName := name;
                 role := r; sendTransport := None; recvTransport := None;
                 producers := ∅; consumers := ∅; rtpCapabilities := None |} in
  let room' := (Room.addPeer socketId uid name r room).1 in
  (Room.addPeer socketId uid name r room).2 = peer
  ∧ peers room' = <[socketId := peer]> (peers room)
  ∧ peers room' !! socketId = Some peer
  ∧ delete socketId (peers room') = delete socketId (peers room)
  ∧ (room_id room', router room', hostSocketId room', room_createdAt room')
    = (room_id room, router room, hostSocketId room, room_createdAt room).
Proof.
  cbn. split; [done|]. split; [done|]. split; [apply lookup_insert_eq|].
  split; [apply delete_insert_eq | done].
Qed.

(** C4, as stated, fails: [a] is the host of [r1] and [addPeer] is called
    with the connection id [a] again; the call returns normally and the
    entry of [a] is the new waiting peer. *)
Lemma addPeer_overwrites_present_entry :
  peers one_host_room !! "a" = Some (joined_peer "a" "ua" "Alice" host [])
  ∧ peers (Room.addPeer "a" "ux" "Eve" waiting one_host_room).1 !! "a"
    = Some (Room.addPeer "a" "ux" "Eve" waiting one_host_room).2
  ∧ role (Room.addPeer "a" "ux" "Eve" waiting one_host_room).2 = waiting
  ∧ size (peers (Room.addPeer "a" "ux" "Eve" waiting one_host_room).1) = 1.
Proof. repeat split; vm_compute; reflexivity. Qed.

(** ** Demotion *)
Section demotion.
Context {E : Type} `{!MediaEngine E} `{!Jwt}.

(** [demotePeerToConsumer] on a peer of the room: the peer is a consumer
    without send transport and without producers, and what it held of them
    is closed. *)
Lemma demotePeerToConsumer_spec peerId room (e : E) p :
  peers room !! peerId = Some p →
  let res := Room.demotePeerToConsumer peerId room e in
  peers res.1 !! peerId
  = Some (set_producers ∅ (set_sendTransport None (set_role consumer p)))
  ∧ (∀ t, sendTransport p = Some t → handle_closed res.2 t = true)
  ∧ (∀ k x, producers p !! k = Some x →
            handle_closed res.2 (producer_id x) = true).
Proof.
  intros Hp. unfold Room.demotePeerToConsumer. rewrite Hp. cbn.
  split; [apply lookup_insert_eq|]. split.
  - intros t ->. apply closeEach_mono, closeOpt_closed.
  - intros k x Hk. by eapply closeEach_closed.
Qed.
End demotion.

(** C5. The host demotes a peer in the role producer: the caller is
    answered [{ demoted: true }]; the peer is in the role consumer, its
    producer map is empty and it has no send transport; the send transport
    it had and every producer it held are closed. *)
Theorem demoteToConsumer_of_producer {E : Type} `{!MediaEngine E} `{!Jwt}
  (socket roomId peerId : string) (st : Server E) (room : Room) (p : Peer) :
  rooms st !! roomId = Some room →
  Room.isHost socket room = true →
  peers room !! peerId = Some p →
  role p = producer →
  let res := demoteToConsumer socket roomId peerId st in
  res.1 = Demoted
  ∧ (∃ p', peer_of res.2 roomId peerId = Some p'
           ∧ role p' = consumer
           ∧ producers p' = ∅
           ∧ sendTransport p' = None)
  ∧ (∀ t, sendTransport p = Some t → handle_closed (engine res.2) t = true)
  ∧ (∀ k x, producers p !! k = Some x →
            handle_closed (engine res.2) (producer_id x) = true).
Proof.
  intros Hr Hh Hp Hrole. cbn.
  destruct (demotePeerToConsumer_spec peerId room (engine st) p Hp)
    as (Hp' & Hsend & Hprod).
  unfold demoteToConsumer, Room.getPeer. rewrite Hr, Hh, Hp, Hrole. cbn.
  destruct (Room.demotePeerToConsumer peerId room (engine st)) as [room1 e1].
  cbn in *. split; [done|]. split; [|by split].
  eexists. unfold peer_of. cbn. rewrite lookup_insert_eq. cbn. by rewrite Hp'.
Qed.

Lemma demoteToConsumer_of_producer_witness :
  (handle 3000 "a" (DemoteToConsumer "r1" "b") guest_speaking).1 = Demoted
  ∧ (∃ p', peer_of (handle 3000 "a" (DemoteToConsumer "r1" "b")
                      guest_speaking).2 "r1" "b" = Some p'
           ∧ role p' = consumer
           ∧ producers p' = ∅
           ∧ sendTransport p' = None)
  ∧ (∀ t, sendTransport speaker_b = Some t →
          handle_closed (engine (handle 3000 "a" (DemoteToConsumer "r1" "b")
                                   guest_speaking).2) t = true)
  ∧ (∀ k x, producers speaker_b !! k = Some x →
            handle_closed (engine (handle 3000 "a" (DemoteToConsumer "r1" "b")
                                     guest_speaking).2) (producer_id x) = true).
Proof.
  apply (demoteToConsumer_of_producer "a" "r1" "b" guest_speaking
           guest_speaking_room speaker_b).
  - vm_compute. reflexivity.
  - vm_compute. reflexivity.
  - vm_compute. reflexivity.
  - reflexivity.
Defined.

(** ** [removePeer] *)

(** C6, as amended.  [removePeer] on a peer of the room closes every
    producer, every consumer and both transports of the peer, and deletes the
    peer from the peer map of the room, which is otherwise as before; the
    peer object itself is left as it was. *)
Theorem removePeer_closes_and_deletes {E : Type} `{!MediaEngine E}
  (socketId : string) (room : Room) (e : E) (peer : Peer) :
  peers room !! socketId = Some peer →
  let res := Room.removePeer socketId room e in
  peers res.1.1 !! socketId = None
  ∧ peers res.1.1 = delete socketId (peers room)
  ∧ peer_closed res.1.2 peer
  ∧ res.2 = Some peer.
Proof.
  intros Hp. cbn. rewrite (removePeer_Some _ _ _ _ Hp). cbn.
  split; [apply lookup_delete_eq|]. split; [done|].
  split; [apply closePeer_closed | done].
Qed.

Lemma removePeer_closes_and_deletes_witness :
  peers (Room.removePeer "b" guest_speaking_room counting_start).1.1 !! "b"
  = None
  ∧ peers (Room.removePeer "b" guest_speaking_room counting_start).1.1
    = delete "b" (peers guest_speaking_room)
  ∧ peer_closed (Room.removePeer "b" guest_speaking_room counting_start).1.2
      speaker_b
  ∧ (Room.removePeer "b" guest_speaking_room counting_start).2
    = Some speaker_b.
Proof.
  apply (removePeer_closes_and_deletes "b" guest_speaking_room counting_start
           speaker_b).
  vm_compute. reflexivity.
Defined.

(** C6, as stated, fails: [removePeer] removes the speaking peer [b]; the
    peer object it leaves still lists its producer and its send transport
    (both closed), where the claim wants its maps empty. *)
Lemma removePeer_leaves_peer_maps :
  peers guest_speaking_room !! "b" = Some speaker_b
  ∧ (Room.removePeer "b" guest_speaking_room counting_start).2
    = Some speaker_b
  ∧ size (producers speaker_b) = 1
  ∧ sendTransport speaker_b = Some 1
  ∧ peers (Room.removePeer "b" guest_speaking_room counting_start).1.1 !! "b"
    = None.
Proof. repeat split; vm_compute; reflexivity. Qed.

(** ** Transport caching *)




(** ** Invite sessions *)

(** C9, as amended.  [createRoomSession] never reads the stored session: it
    always mints a token from the room id, the host name and the clock,
    returns it, and stores a new session that holds it in the place of the
    one that was there; the sessions of the other rooms are as before.  The
    earlier [InviteManager] of the repository mints as well, and stores no
    token.  A stored token is reused by [generateInviteLink] only. *)
Theorem createRoomSession_always_mints `{!Jwt}
  (roomId hostSocket hostName baseUrl : string) (now : N)
  (im other : InviteManager) :
  let res := InviteManager.createRoomSession roomId hostSocket hostName now im in
  let tok := InviteManager.generateInviteToken roomId hostName now in
  res.2 = (roomId, tok)
  ∧ (InviteManager.createRoomSession roomId hostSocket hostName now other).2
    = res.2
  ∧ roomSessions res.1 !! roomId
    = Some {| session_hostSocketId := hostSocket;
              session_hostName := hostName;
              session_createdAt := now;
              inviteToken := Some tok |}
  ∧ delete roomId (roomSessions res.1) = delete roomId (roomSessions im)
  ∧ (InviteManagerLegacy.createRoomSession roomId hostSocket hostName now im).2
    = (roomId, InviteManagerLegacy.generateInviteToken roomId hostName now)
  ∧ InviteManager.generateInviteLink roomId baseUrl now im
    = baseUrl +:+ "/room/" +:+ roomId +:+ "?inviteToken=" +:+
      match truthy (roomSessions im !! roomId ≫= inviteToken) with
      | Some stored => stored
      | None => InviteManager.generateInviteToken roomId "host" now
      end.
Proof.
  cbn. repeat split; try done.
  - apply lookup_insert_eq.
  - apply delete_insert_eq.
Qed.

(** C9, as stated, fails: the session of [room-1] holds the token minted at
    its creation; [createRoomSession] is called again for [room-1] when the
    host [Alice] connects four seconds later, and returns and stores another
    token. *)
Lemma createRoomSession_replaces_stored_token :
  (inviteToken <$> roomSessions precreated_session !! "room-1")
  = Some (Some "1.86401.Host.room-1")
  ∧ (InviteManager.createRoomSession "room-1" "a" "Alice" 5000
       precreated_session).2
    = ("room-1", "5.86405.Alice.room-1")
  ∧ (inviteToken <$>
       roomSessions (InviteManager.createRoomSession "room-1" "a" "Alice" 5000
                       precreated_session).1 !! "room-1")
    = Some (Some "5.86405.Alice.room-1").
Proof. repeat split; vm_compute; reflexivity. Qed.

(** ** Join without a token *)

(** C10. A join request without invite token: the verifier of tokens has no
    part in the outcome, the request is not refused for its credentials, and
    the socket is let in, as host when the room has no peer (a room that
    is created by the request has none) and as waiting otherwise.  The one
    failure is the engine that throws while it makes the router of a new
    room. *)
Theorem join_without_token_accepted {E : Type} `{!MediaEngine E} `{!Jwt}
  (verify' : string → N → option InvitePayload)
  (now : N) (socket roomId uid name : string) (caps : RtpCapabilities)
  (st : Server E) :
  let res := join now socket roomId uid name caps None st in
  @join E _ {| jwt_sign := jwt_sign; jwt_verify := verify' |}
    now socket roomId uid name caps None st = res
  ∧ res.1 ≠ Error "Invalid or expired invite token"
  ∧ match rooms st !! roomId with
    | Some room =>
        (∃ eps parts, res.1 = Joined (joined_role room) eps parts socket)
        ∧ peer_role res.2 roomId socket = Some (joined_role room)
    | None =>
        match (worker_createRouter (engine st)).1 with
        | Some _ =>
            (∃ eps parts, res.1 = Joined host eps parts socket)
            ∧ peer_role res.2 roomId socket = Some host
        | None => res.1 = Error "Failed to join room"
        end
    end.
Proof.
  intros res. split; [done|]. subst res.
  unfold peer_role, peer_of. rewrite join_rooms, join_eq, ensureRoom_eq.
  unfold token_refused. cbn.
  destruct (rooms st !! roomId) as [room|] eqn:Hr.
  - cbn. split; [done|]. split; [by eexists _, _|].
    rewrite lookup_insert_eq. cbn. by rewrite lookup_insert_eq.
  - destruct (worker_createRouter (engine st)) as [[h|] e']; cbn; [|done].
    split; [done|]. split.
    + unfold joined_role, Room.getPeerCount. cbn. rewrite map_size_empty.
      by eexists _, _.
    + rewrite lookup_insert_eq. cbn. by rewrite lookup_singleton_eq.
Qed.

(** * Further properties of the code *)

(** ** The worker pool *)

(** X1. The pool has between one and four workers whatever the number of
    cores, and when every [createWorker] returns, [createWorkers] on the new
    service leaves exactly that many workers, in the order of their index,
    with the round-robin cursor at the first. *)
Theorem createWorkers_makes_WORKER_NUM (creates : nat → bool) (cpus : nat) :
  (∀ i, i < MediasoupService.WORKER_NUM cpus → creates i = true) →
  (1 ≤ MediasoupService.WORKER_NUM cpus ≤ 4)%nat
  ∧ MediasoupService.createWorkers creates cpus MediasoupService.new
    = (true,
       {| workers := MediasoupService.workerSettings
                       <$> seq 0 (MediasoupService.WORKER_NUM cpus);
          nextWorker := Some 0 |}).
Proof.
  intros Hok. split; [unfold MediasoupService.WORKER_NUM; lia|].
  unfold MediasoupService.createWorkers.
  assert (∀ n i svc,
    (∀ j, i ≤ j < i + n → creates j = true) →
    MediasoupService.createWorkers_from creates i n svc
    = (true, {| workers := workers svc
                           ++ (MediasoupService.workerSettings <$> seq i n);
                nextWorker := nextWorker svc |})) as Hgen.
  { induction n as [|n IH]; intros i svc Hc; cbn.
    - rewrite app_nil_r. by destruct svc.
    - rewrite Hc by lia. rewrite IH by (intros; apply Hc; lia).
      cbn. by rewrite <-app_assoc. }
  rewrite Hgen; [done|]. intros j Hj. apply Hok. lia.
Qed.

Lemma createWorkers_makes_WORKER_NUM_witness :
  (1 ≤ MediasoupService.WORKER_NUM 8 ≤ 4)%nat
  ∧ MediasoupService.createWorkers (λ _, true) 8 MediasoupService.new
    = (true,
       {| workers := MediasoupService.workerSettings
                       <$> seq 0 (MediasoupService.WORKER_NUM 8);
          nextWorker := Some 0 |}).
Proof.
  apply (createWorkers_makes_WORKER_NUM (λ _, true) 8).
  intros i _. reflexivity.
Defined.

(** X2. The port ranges of the workers: each worker gets 1000 ports, the
    ranges of two different workers do not meet, and the four ranges a pool
    can have lie between 10000 and 13999. *)
Theorem worker_port_ranges_disjoint (i j : nat) :
  i < j →
  let wi := MediasoupService.workerSettings i in
  let wj := MediasoupService.workerSettings j in
  (rtcMinPort wi + 999 = rtcMaxPort wi)%N
  ∧ (rtcMaxPort wi < rtcMinPort wj)%N
  ∧ (10000 ≤ rtcMinPort wi)%N
  ∧ (j < 4 → (rtcMaxPort wj ≤ 13999)%N).
Proof. intros Hij. cbn. lia. Qed.

Lemma worker_port_ranges_disjoint_witness :
  (rtcMinPort (MediasoupService.workerSettings 0) + 999
   = rtcMaxPort (MediasoupService.workerSettings 0))%N
  ∧ (rtcMaxPort (MediasoupService.workerSettings 0)
     < rtcMinPort (MediasoupService.workerSettings 1))%N
  ∧ (10000 ≤ rtcMinPort (MediasoupService.workerSettings 0))%N
  ∧ (1 < 4 → (rtcMaxPort (MediasoupService.workerSettings 1) ≤ 13999)%N).
Proof. apply (worker_port_ranges_disjoint 0 1). lia. Defined.

(** X3. [getWorker] is a round robin: on a service with [n] workers and the
    cursor at [i], the [k]-th call from now hands out the worker of index
    [(i + k) mod n], never [undefined], and leaves the cursor one further;
    after [n] calls the cursor is back at [i]. *)
Theorem getWorker_round_robin (svc : MediasoupService) (i k : nat) :
  nextWorker svc = Some i →
  i < length (workers svc) →
  let n := length (workers svc) in
  let res := MediasoupService.getWorkers_n k svc in
  res.1 = (λ j, workers svc !! ((i + j) `mod` n)) <$> seq 0 k
  ∧ Forall is_Some res.1
  ∧ workers res.2 = workers svc
  ∧ nextWorker res.2 = Some ((i + k) `mod` n)
  ∧ nextWorker (MediasoupService.getWorkers_n n svc).2 = Some i.
Proof.
  intros Hnext Hi. cbn.
  assert (∀ k svc' i',
    workers svc' = workers svc → nextWorker svc' = Some i' →
    i' < length (workers svc) →
    (MediasoupService.getWorkers_n k svc').1
    = (λ j, workers svc !! ((i' + j) `mod` length (workers svc))) <$> seq 0 k
    ∧ workers (MediasoupService.getWorkers_n k svc').2 = workers svc
    ∧ nextWorker (MediasoupService.getWorkers_n k svc').2
      = Some ((i' + k) `mod` length (workers svc))) as Hgen.
  { clear k i Hnext Hi. induction k as [|k IH]; intros svc' i' Hw Hn Hi'.
    - cbn [MediasoupService.getWorkers_n fst snd seq fmap list_fmap].
      by rewrite Nat.add_0_r, Nat.mod_small.
    - destruct (length (workers svc)) as [|n] eqn:Hlen; [lia|].
      assert (MediasoupService.getWorker svc'
              = (workers svc !! i',
                 {| workers := workers svc;
                    nextWorker := Some ((i' + 1) `mod` S n) |})) as Hget.
      { unfold MediasoupService.getWorker. by rewrite Hn, Hw, Hlen. }
      cbn [MediasoupService.getWorkers_n]. rewrite Hget.
      destruct (IH {| workers := workers svc;
                      nextWorker := Some ((i' + 1) `mod` S n) |}
                   ((i' + 1) `mod` S n) eq_refl eq_refl)
        as (IH1 & IH2 & IH3).
      { apply Nat.mod_upper_bound. lia. }
      destruct (MediasoupService.getWorkers_n k _) as [ws svc2].
      cbn [fst snd] in *. subst ws. split; [|split; [done|]].
      + cbn [seq fmap list_fmap].
        rewrite Nat.add_0_r, (Nat.mod_small i') by done. f_equal.
        rewrite <-fmap_S_seq, <-list_fmap_compose.
        apply list_fmap_ext. intros _ j _. cbn [compose].
        by rewrite Nat.Div0.add_mod_idemp_l, <-Nat.add_assoc.
      + rewrite IH3. by rewrite Nat.Div0.add_mod_idemp_l, <-Nat.add_assoc. }
  destruct (Hgen k svc i eq_refl Hnext Hi) as (H1 & H2 & H3).
  destruct (Hgen (length (workers svc)) svc i eq_refl Hnext Hi) as (_ & _ & H4).
  split; [done|]. split; [|split; [done|split; [done|]]].
  - rewrite H1. apply Forall_fmap, Forall_forall. intros j _. cbn.
    apply lookup_lt_is_Some, Nat.mod_upper_bound. lia.
  - rewrite H4. f_equal.
    rewrite <-Nat.Div0.add_mod_idemp_r, Nat.Div0.mod_same, Nat.add_0_r.
    by apply Nat.mod_small.
Qed.

Lemma getWorker_round_robin_witness :
  nextWorker (MediasoupService.getWorkers_n 3 pool_of_three).2 = Some 2.
Proof.
  apply (getWorker_round_robin pool_of_three 2 3).
  - reflexivity.
  - cbn. lia.
Defined.

Lemma createWorkers_from_nextWorker creates i n svc :
  nextWorker (MediasoupService.createWorkers_from creates i n svc).2
  = nextWorker svc.
Proof.
  revert i svc. induction n as [|n IH]; intros i svc; cbn; [done|].
  destruct (creates i); [|done]. by rewrite IH.
Qed.

Lemma getWorkers_n_NaN k svc :
  nextWorker svc = None →
  Forall (λ w, w = None) (MediasoupService.getWorkers_n k svc).1.
Proof.
  revert svc. induction k as [|k IH]; intros svc Hn; cbn; [constructor|].
  unfold MediasoupService.getWorker. rewrite Hn. cbn.
  specialize (IH {| workers := workers svc; nextWorker := None |} eq_refl).
  destruct (MediasoupService.getWorkers_n k _) as [ws svc2].
  by constructor.
Qed.

(** X4. A [getWorker] on a service that has no worker yet answers
    [undefined] and turns the cursor into [NaN]; the workers that
    [createWorkers] makes afterwards are never handed out: every later
    [getWorker] answers [undefined]. *)
Theorem getWorker_before_createWorkers (creates : nat → bool) (cpus k : nat) :
  let svc1 := (MediasoupService.getWorker MediasoupService.new).2 in
  let svc2 := (MediasoupService.createWorkers creates cpus svc1).2 in
  (MediasoupService.getWorker MediasoupService.new).1 = None
  ∧ nextWorker svc1 = None
  ∧ Forall (λ w, w = None) (MediasoupService.getWorkers_n k svc2).1.
Proof.
  cbn zeta. split; [done|]. split; [done|].
  apply getWorkers_n_NaN. unfold MediasoupService.createWorkers.
  by rewrite createWorkers_from_nextWorker.
Qed.

(** ** The permission hook of the client *)
Section hook.
Import RoomPermission.

Lemma NoDup_fmap_filter {A B} (f : A → B) (P : A → Prop)
  `{!∀ x, Decision (P x)} (l : list A) :
  NoDup (f <$> l) → NoDup (f <$> filter P l).
Proof.
  intros Hnd. eapply sublist_NoDup; [exact Hnd|].
  apply fmap_sublist, sublist_filter.
Qed.

Lemma with_role_ids r peerId (l : list PeerInfo) :
  info_id <$> ((λ p, if bool_decide (info_id p = peerId)
                     then with_role r p else p) <$> l)
  = info_id <$> l.
Proof.
  rewrite <-list_fmap_compose. apply list_fmap_ext. intros _ p _. cbn.
  by case_bool_decide.
Qed.

Lemma on_participants_NoDup ev h :
  NoDup (info_id <$> participants h) →
  NoDup (info_id <$> participants (on ev h)).
Proof.
  intros Hnd. destruct ev; cbn; try done.
  - destruct (list_find _ _) as [?|] eqn:Hf; [done|].
    apply list_find_None in Hf. rewrite fmap_app. cbn.
    apply NoDup_app. split; [done|]. split; [|apply NoDup_singleton].
    intros x Hx Hin. apply list_elem_of_singleton in Hin as ->.
    apply list_elem_of_fmap in Hx as (p & Hp & Hin).
    rewrite Forall_forall in Hf. by apply (Hf p).
  - by apply NoDup_fmap_filter.
  - by rewrite with_role_ids.
  - by rewrite with_role_ids.
  - unfold handleSpeakingPermissionRequest. by case_bool_decide.
Qed.

Lemma on_requests_NoDup ev h :
  NoDup (request_peerId <$> permissionRequests h) →
  NoDup (request_peerId <$> permissionRequests (on ev h)).
Proof.
  intros Hnd. destruct ev; cbn; try done.
  - by apply NoDup_fmap_filter.
  - unfold handleSpeakingPermissionRequest. case_bool_decide; [done|]. cbn.
    destruct (list_find _ _) as [?|] eqn:Hf; [done|].
    apply list_find_None in Hf. rewrite fmap_app. cbn.
    apply NoDup_app. split; [done|]. split; [|apply NoDup_singleton].
    intros x Hx Hin. apply list_elem_of_singleton in Hin as ->.
    apply list_elem_of_fmap in Hx as (p & Hp & Hin).
    rewrite Forall_forall in Hf. by apply (Hf p).
  - by apply NoDup_fmap_filter.
Qed.

Lemma on_processed_mono ev h :
  processedRequests h ⊆ processedRequests (on ev h).
Proof.
  destruct ev; cbn; try done.
  unfold handleSpeakingPermissionRequest. case_bool_decide; [done|]. cbn.
  set_solver.
Qed.

Lemma on_all_processed_mono evs h :
  processedRequests h ⊆ processedRequests (on_all evs h).
Proof.
  unfold on_all. revert h. induction evs as [|ev evs IH]; intros h; cbn;
    [done|].
  etrans; [apply (on_processed_mono ev)|apply IH].
Qed.
End hook.

(** X5. Whatever events the hook receives after it mounts, its participant
    list never holds two entries with the same peer id, and its list of
    requests to speak never holds two requests of the same peer. *)
Theorem hook_lists_have_unique_ids (evs : list RoomPermission.Event) :
  let h := RoomPermission.on_all evs RoomPermission.initial in
  NoDup (info_id <$> participants h)
  ∧ NoDup (request_peerId <$> permissionRequests h).
Proof.
  cbn zeta. unfold RoomPermission.on_all.
  assert (∀ h,
    NoDup (info_id <$> participants h)
    ∧ NoDup (request_peerId <$> permissionRequests h) →
    NoDup (info_id <$> participants (foldl (λ acc ev, RoomPermission.on ev acc) h evs))
    ∧ NoDup (request_peerId <$>
               permissionRequests (foldl (λ acc ev, RoomPermission.on ev acc) h evs)))
    as Hgen.
  { induction evs as [|ev evs IH]; intros h [H1 H2]; cbn; [done|].
    apply IH. split;
      [by apply on_participants_NoDup | by apply on_requests_NoDup]. }
  apply Hgen. split; cbn; apply NoDup_nil_2.
Qed.

(** X6. A request to speak is taken at most once for a pair of peer id and
    user id: once the hook has handled it, the same request is dropped
    whatever happened in between, also after the host approved it or the
    peer left, which took it off the list. *)
Theorem speaking_request_taken_once (data : PermissionRequest)
  (evs : list RoomPermission.Event) (h : RoomPermission) :
  let h1 := RoomPermission.handleSpeakingPermissionRequest data h in
  let h2 := RoomPermission.on_all evs h1 in
  RoomPermission.handleSpeakingPermissionRequest data h2 = h2.
Proof.
  cbn zeta.
  set (key := request_peerId data +:+ "-" +:+ request_userId data).
  assert (key ∈ processedRequests
                  (RoomPermission.handleSpeakingPermissionRequest data h))
    as Hin.
  { unfold RoomPermission.handleSpeakingPermissionRequest. fold key.
    case_bool_decide; [done|]. cbn. set_solver. }
  apply (on_all_processed_mono evs) in Hin.
  unfold RoomPermission.handleSpeakingPermissionRequest at 1. fold key.
  by rewrite bool_decide_eq_true_2.
Qed.

(** ** The identity of the user agent *)

Lemma truthy_Some o t : truthy o = Some t ↔ o = Some t ∧ t ≠ "".
Proof.
  unfold truthy. destruct o as [s|]; [|by split; [|intros [? _]]].
  case_bool_decide; split; try done.
  - by intros [[= ->] ?].
  - by intros [= ->].
  - by intros [[= ->] _].
Qed.

Lemma getUserId_stored uuid (localStorage : gmap string string) id ls1 :
  UserIdentityManager.getUserId true uuid localStorage = (id, ls1) →
  ls1 !! UserIdentityManager.STORAGE_KEY = Some id ∧ id ≠ "".
Proof.
  unfold UserIdentityManager.getUserId.
  destruct (truthy (localStorage !! UserIdentityManager.STORAGE_KEY))
    as [t|] eqn:Ht; intros [= <- <-].
  - by apply truthy_Some.
  - by rewrite lookup_insert_eq.
Qed.

(** X7. In a browser, [getUserId] is stable: the id a call returns is the
    one every later call returns, whatever [crypto.randomUUID()] would give,
    and it is in the storage from then on.  Without [window] nothing is
    stored and every call makes a new id. *)
Theorem getUserId_stable (uuid1 uuid2 : string)
  (localStorage : gmap string string) :
  let res := UserIdentityManager.getUserId true uuid1 localStorage in
  UserIdentityManager.getUserId true uuid2 res.2 = res
  ∧ res.2 !! UserIdentityManager.STORAGE_KEY = Some res.1
  ∧ UserIdentityManager.hasUserId true res.2 = true
  ∧ UserIdentityManager.getUserId false uuid1 localStorage
    = ("user_" +:+ uuid1, localStorage).
Proof.
  cbn zeta.
  destruct (UserIdentityManager.getUserId true uuid1 localStorage)
    as [id ls1] eqn:Hres.
  destruct (getUserId_stored _ _ _ _ Hres) as [Hl Hne]. cbn [fst snd].
  split; [|split; [done|split; [|done]]].
  - unfold UserIdentityManager.getUserId. rewrite Hl.
    by rewrite (proj2 (truthy_Some (Some id) id)).
  - unfold UserIdentityManager.hasUserId. rewrite Hl.
    by apply bool_decide_eq_true_2.
Qed.

(** X8. [clearUserId] forgets the identity: [hasUserId] answers [false]
    afterwards, the other keys of the storage stay, and the next
    [getUserId] makes a new id from [crypto.randomUUID()] and stores it. *)
Theorem clearUserId_forgets (uuid : string) (localStorage : gmap string string) :
  let cleared := UserIdentityManager.clearUserId true localStorage in
  UserIdentityManager.hasUserId true cleared = false
  ∧ cleared = delete UserIdentityManager.STORAGE_KEY localStorage
  ∧ UserIdentityManager.getUserId true uuid cleared
    = ("user_" +:+ uuid,
       <[UserIdentityManager.STORAGE_KEY := "user_" +:+ uuid]> localStorage).
Proof.
  cbn zeta. unfold UserIdentityManager.getUserId, UserIdentityManager.hasUserId,
    UserIdentityManager.clearUserId.
  rewrite lookup_delete_eq. cbn. split; [done|]. split; [done|].
  by rewrite insert_delete_eq.
Qed.

(** ** More invariants of the registry *)
Section registry.
Context {E : Type} `{!MediaEngine E} `{!Jwt}.

Lemma canPeerProduce_true socket room p :
  peers room !! socket = Some p →
  Room.canPeerProduce socket room = true ↔ role p = producer ∨ role p = host.
Proof.
  intros Hp. unfold Room.canPeerProduce. rewrite Hp.
  destruct (role p); split; intros Hx; try done;
    try (by left); try (by right); by destruct Hx.
Qed.

(** A peer written in place, with what [peer_step] asks of it read off
    the records. *)
Ltac step_in_place :=
  eapply local_update_peer; [done..| |done];
  repeat split; try done; unfold publish_ok; cbn; try done.

Lemma publish_ok_can p : role p = producer ∨ role p = host → publish_ok p.
Proof. unfold publish_ok. by intros [-> | ->]. Qed.

Lemma createTransport_step socket roomId kind (st : Server E) :
  local_update peer_step st (createTransport socket roomId kind st).2
  ∧ inviteManager (createTransport socket roomId kind st).2 = inviteManager st.
Proof.
  unfold createTransport, Room.getPeer.
  destruct (rooms st !! roomId) as [room|] eqn:Hr; [|by split; [left|]].
  destruct (peers room !! socket) as [p|] eqn:Hp; [|by split; [left|]].
  destruct (bool_decide (kind = send) && negb (Room.canPeerProduce socket room))
    eqn:Hsend; [by split; [left|]|].
  destruct (bool_decide (kind = recv) && bool_decide (role p = waiting));
    [by split; [left|]|].
  destruct kind.
  - destruct (sendTransport p); [by split; [left|]|].
    destruct (router_createWebRtcTransport _ _) as [[t|] e'];
      [|by split; [left|]].
    split; [|done]. eapply local_update_peer; [done..| |done].
    repeat split; try done. intros _. apply publish_ok_can. cbn.
    apply (canPeerProduce_true socket room p Hp).
    rewrite bool_decide_eq_true_2 in Hsend by done.
    by destruct (Room.canPeerProduce socket room).
  - destruct (recvTransport p); [by split; [left|]|].
    destruct (router_createWebRtcTransport _ _) as [[t|] e'];
      [|by split; [left|]].
    split; [|done]. step_in_place.
Qed.

Lemma produce_step socket roomId t kind (st : Server E) :
  local_update peer_step st (produce socket roomId t kind st).2
  ∧ inviteManager (produce socket roomId t kind st).2 = inviteManager st.
Proof.
  unfold produce, Room.getPeer.
  destruct (rooms st !! roomId) as [room|] eqn:Hr; [|by split; [left|]].
  destruct (peers room !! socket) as [p|] eqn:Hp; [|by split; [left|]].
  destruct (Room.canPeerProduce socket room) eqn:Hcan; [|by split; [left|]].
  cbn. destruct (sendTransport p); [|by split; [left|]].
  case_bool_decide; [|by split; [left|]].
  destruct (transport_produce _ _ _) as [[pid|] e']; [|by split; [left|]].
  split; [|done]. eapply local_update_peer; [done..| |done].
  repeat split; try done. intros _. apply publish_ok_can. cbn.
  by apply (canPeerProduce_true socket room p Hp).
Qed.

Lemma consume_step socket roomId pid caps (st : Server E) :
  local_update peer_step st (consume socket roomId pid caps st).2
  ∧ inviteManager (consume socket roomId pid caps st).2 = inviteManager st.
Proof.
  unfold consume, Room.getPeer.
  repeat case_match; simplify_eq; try by split; [left|].
  all: split; [|done]; step_in_place.
Qed.

Lemma promoteToProducer_step socket roomId peerId (st : Server E) :
  local_update peer_step st (promoteToProducer socket roomId peerId st).2
  ∧ inviteManager (promoteToProducer socket roomId peerId st).2
    = inviteManager st.
Proof.
  unfold promoteToProducer, Room.getPeer.
  destruct (rooms st !! roomId) as [room|] eqn:Hr; [|by split; [left|]].
  destruct (negb (Room.isHost socket room)); [by split; [left|]|].
  destruct (peers room !! peerId) as [peer|] eqn:Hp; [|by split; [left|]].
  rewrite promotePeerToProducer_eq, Hp. case_bool_decide as Hrole; cbn.
  - split; [|done]. step_in_place.
  - split; [|done]. left. by apply set_room_id.
Qed.

Lemma approveJoin_step socket roomId peerId promote (st : Server E) :
  local_update peer_step st (approveJoin socket roomId peerId promote st).2
  ∧ inviteManager (approveJoin socket roomId peerId promote st).2
    = inviteManager st.
Proof.
  unfold approveJoin, Room.getPeer.
  destruct (rooms st !! roomId) as [room|] eqn:Hr; [|by split; [left|]].
  destruct (negb (Room.isHost socket room)); [by split; [left|]|].
  destruct (peers room !! peerId) as [peer|] eqn:Hp; [|by split; [left|]].
  rewrite approvePeerJoin_eq, Hp. case_bool_decide as Hrole; cbn.
  - split; [|done]. destruct promote.
    + rewrite promotePeerToProducer_eq. cbn. rewrite lookup_insert_eq. cbn.
      rewrite bool_decide_eq_true_2 by done. cbn.
      eapply local_update_peer; [done..| |cbn; by rewrite insert_insert_eq].
      by repeat split.
    + eapply local_update_peer; [done..| |done].
      split; [done|]. split; [done|]. split; [done|].
      unfold publish_ok. rewrite Hrole. by cbn.
  - split; [|done]. left. by apply set_room_id.
Qed.

Lemma demoteToConsumer_step socket roomId peerId (st : Server E) :
  local_update peer_step st (demoteToConsumer socket roomId peerId st).2
  ∧ inviteManager (demoteToConsumer socket roomId peerId st).2
    = inviteManager st.
Proof.
  unfold demoteToConsumer, Room.getPeer, Room.demotePeerToConsumer.
  destruct (rooms st !! roomId) as [room|] eqn:Hr; [|by split; [left|]].
  destruct (negb (Room.isHost socket room)); [by split; [left|]|].
  destruct (peers room !! peerId) as [peer|] eqn:Hp; [|by split; [left|]].
  destruct (role peer) eqn:Hrole; [by split; [left|]|..].
  all: split; [|done]; step_in_place.
Qed.

(** Every request that writes peers in place keeps the identity of the
    peer it writes and what [publish_ok] asks of it, and leaves the
    sessions. *)
Lemma handle_step now socket req (st : Server E) :
  in_place req →
  local_update peer_step st (handle now socket req st).2
  ∧ ∀ r, is_Some (sessions st !! r) →
         is_Some (sessions (handle now socket req st).2 !! r).
Proof.
  intros Hreq. destruct req; try done; cbn [handle].
  - destruct (createTransport_step socket roomId kind st) as [? Heq].
    split; [done|]. unfold sessions. by rewrite Heq.
  - split; [|unfold sessions; intros r];
      unfold connectTransport; repeat case_match; try done; by left.
  - destruct (produce_step socket roomId transportId kind st) as [? Heq].
    split; [done|]. unfold sessions. by rewrite Heq.
  - destruct (consume_step socket roomId producerId caps st) as [? Heq].
    split; [done|]. unfold sessions. by rewrite Heq.
  - split; [|unfold sessions; intros r];
      unfold resumeConsumer; repeat case_match; try done; by left.
  - destruct (promoteToProducer_step socket roomId peerId st) as [? Heq].
    split; [done|]. unfold sessions. by rewrite Heq.
  - destruct (approveJoin_step socket roomId peerId promote st) as [? Heq].
    split; [done|]. unfold sessions. by rewrite Heq.
  - destruct (demoteToConsumer_step socket roomId peerId st) as [? Heq].
    split; [done|]. unfold sessions. by rewrite Heq.
  - split; [|unfold sessions; intros r];
      unfold requestSpeakingPermission; repeat case_match; try done; by left.
  - split; [by left|]. intros r Hs. unfold sessions. cbn.
    destruct (decide ("room-" +:+ pretty now = r)) as [<-|Hne].
    + rewrite lookup_insert_eq. by eexists.
    + by rewrite lookup_insert_ne.
Qed.
Lemma local_update_peers_all (Q : string → Peer → Prop) R (st st' : Server E) :
  local_update R st st' →
  (∀ r c p p', R r c p p' → Q c p → Q c p') →
  peers_all Q st → peers_all Q st'.
Proof.
  intros [Heq|(roomId & room & c & p & p' & Hr & Hp & HR & Heq)] HQ Hall
    r room' c' q; rewrite Heq; [apply Hall|].
  destruct (decide (roomId = r)) as [->|Hne].
  - rewrite lookup_insert_eq. intros [= <-]. cbn.
    destruct (decide (c = c')) as [->|Hc].
    + rewrite lookup_insert_eq. intros [= <-]. eapply HQ; [done|]. by eapply Hall.
    + rewrite lookup_insert_ne by done. intros Hq. by eapply Hall.
  - rewrite lookup_insert_ne by done. apply Hall.
Qed.

Lemma local_update_room_fields R (st st' : Server E) r room' :
  local_update R st st' → rooms st' !! r = Some room' →
  ∃ room, rooms st !! r = Some room
          ∧ room_id room' = room_id room ∧ router room' = router room
          ∧ hostSocketId room' = hostSocketId room.
Proof.
  intros [Heq|(roomId & room & c & p & p' & Hr & Hp & HR & Heq)];
    rewrite Heq; [by exists room'|].
  destruct (decide (roomId = r)) as [->|Hne].
  - rewrite lookup_insert_eq. intros [= <-]. by exists room.
  - rewrite lookup_insert_ne by done. by exists room'.
Qed.

(** The sessions after a join. *)
Lemma join_sessions now socket roomId uid name caps tok (st : Server E) :
  sessions (join now socket roomId uid name caps tok st).2 =
  if token_refused tok roomId now then sessions st
  else
    match rooms st !! roomId with
    | Some _ => sessions st
    | None =>
        match (worker_createRouter (engine st)).1 with
        | Some _ =>
            roomSessions
              (InviteManager.createRoomSession roomId socket name now
                 (inviteManager st)).1
        | None => sessions st
        end
    end.
Proof.
  rewrite join_eq, ensureRoom_eq.
  destruct (token_refused tok roomId now); [done|].
  destruct (rooms st !! roomId) as [room|]; [done|].
  by destruct (worker_createRouter (engine st)) as [[h|] e'].
Qed.

Lemma joined_peer_publish_ok socket uid name room caps :
  publish_ok (joined_peer socket uid name (joined_role room) caps).
Proof. unfold publish_ok. cbn. by destruct (joined_role_cases room) as [->| ->]. Qed.

Lemma join_registry_inv now socket roomId uid name caps tok (st : Server E) :
  registry_inv st →
  registry_inv (join now socket roomId uid name caps tok st).2.
Proof.
  intros [Hpeers Hrooms]. split.
  - intros r room' c q. rewrite join_rooms.
    destruct (token_refused tok roomId now); [apply Hpeers|].
    destruct (rooms st !! roomId) as [room|] eqn:Hr;
      [|destruct (worker_createRouter (engine st)).1; [|apply Hpeers]].
    all: destruct (decide (roomId = r)) as [->|Hrr];
      [rewrite lookup_insert_eq; intros [= <-]; cbn
      |rewrite lookup_insert_ne by done; apply Hpeers].
    + destruct (decide (socket = c)) as [->|Hc].
      * rewrite lookup_insert_eq. intros [= <-].
        split; [done|apply joined_peer_publish_ok].
      * rewrite lookup_insert_ne by done. intros Hq. by eapply Hpeers.
    + destruct (decide (socket = c)) as [->|Hc].
      * rewrite lookup_singleton_eq. by intros [= <-].
      * by rewrite lookup_singleton_ne.
  - intros r room'. rewrite join_rooms, join_sessions.
    destruct (token_refused tok roomId now); [apply Hrooms|].
    destruct (rooms st !! roomId) as [room|] eqn:Hr;
      [|destruct (worker_createRouter (engine st)).1; [|apply Hrooms]].
    + destruct (decide (roomId = r)) as [->|Hrr].
      * rewrite lookup_insert_eq. intros [= <-]. cbn. by apply Hrooms.
      * rewrite lookup_insert_ne by done. apply Hrooms.
    + cbn. destruct (decide (roomId = r)) as [->|Hrr].
      * rewrite !lookup_insert_eq. intros [= <-]. by split; [|eexists].
      * rewrite !lookup_insert_ne by done. apply Hrooms.
Qed.

Lemma disconnect_registry_inv socket (st : Server E) :
  registry_inv st → registry_inv (disconnect socket st).
Proof.
  intros [Hpeers Hrooms]. split.
  - intros r room' c q Hr' Hq.
    apply (Hpeers r) with (room := default room' (rooms st !! r)).
    + rewrite disconnect_rooms in Hr'.
      destruct (rooms st !! r) as [room|] eqn:Hr; [done|done].
    + rewrite disconnect_rooms in Hr'.
      destruct (rooms st !! r) as [room|] eqn:Hr; [cbn in *|done].
      apply after_leave_Some in Hr' as [[-> _]|[-> _]]; [done|].
      cbn in Hq. by apply lookup_delete_Some in Hq as [_ ?].
  - intros r room'. rewrite disconnect_rooms, disconnect_sessions.
    destruct (rooms st !! r) as [room|] eqn:Hr; [cbn|done].
    intros Hl. rewrite Hl.
    destruct (Hrooms r room Hr) as [Hid Hs].
    by apply after_leave_Some in Hl as [[-> _]|[-> _]].
Qed.

Lemma handle_registry_inv now socket req (st : Server E) :
  registry_inv st → registry_inv (handle now socket req st).2.
Proof.
  intros Hinv.
  destruct (decide (in_place req)) as [Hreq|Hreq].
  - destruct (handle_step now socket req st Hreq) as [Hloc Hsess].
    destruct Hinv as [Hpeers Hrooms]. split.
    + eapply local_update_peers_all; [done| |done].
      intros r c p p' (Hid & _ & _ & Hpub) [<- Hok]. split; [done|by apply Hpub].
    + intros r room' Hr'.
      destruct (local_update_room_fields _ _ _ r room' Hloc Hr')
        as (room & Hr & -> & _).
      destruct (Hrooms r room Hr) as [? ?]. split; [done|by apply Hsess].
  - destruct req; try (by destruct Hreq).
    + by apply join_registry_inv.
    + by apply disconnect_registry_inv.
Qed.

Lemma reachable_registry_inv e0 (st : Server E) :
  reachable e0 st → registry_inv st.
Proof.
  induction 1 as [|st now socket req _ IH]; [|by apply handle_registry_inv].
  split; intros r room; cbn; by rewrite lookup_empty.
Qed.
End registry.

(** X9. In every state the server reaches, the registry is keyed by the
    ids of its objects: a room is stored under its own id and a peer under
    its own connection id, which is what [Room.close] relies on when it
    removes the peers by [peer.id]. *)
Theorem registry_keyed_by_ids {E : Type} `{!MediaEngine E} `{!Jwt}
  (e0 : E) (st : Server E) (r c : string) (room : Room) (p : Peer) :
  reachable e0 st →
  rooms st !! r = Some room →
  peers room !! c = Some p →
  room_id room = r ∧ peer_id p = c.
Proof.
  intros [Hpeers Hrooms]%reachable_registry_inv Hr Hp.
  split; [by apply Hrooms | by eapply Hpeers].
Qed.

Lemma registry_keyed_by_ids_witness :
  room_id guest_speaking_room = "r1" ∧ peer_id speaker_b = "b".
Proof.
  apply (registry_keyed_by_ids counting_start guest_speaking "r1" "b"
           guest_speaking_room speaker_b).
  - apply reachable_run, reachable_init.
  - vm_compute. reflexivity.
  - vm_compute. reflexivity.
Defined.

(** X11. In every state the server reaches, [GET /api/rooms/:roomId]
    answers 404 exactly for the ids that are not in the registry (a room of
    the registry always has its session), and otherwise reports the id it
    was asked for with a participant count that is the size of the peer map
    and is at least 1. *)
Theorem apiGetRoom_found_iff_registered {E : Type} `{!MediaEngine E} `{!Jwt}
  (e0 : E) (st : Server E) (roomId : string) :
  reachable e0 st →
  (apiGetRoom roomId st = ApiNotFound ↔ rooms st !! roomId = None)
  ∧ (∀ room, rooms st !! roomId = Some room →
       ∃ session, sessions st !! roomId = Some session
         ∧ apiGetRoom roomId st
           = ApiRoomInfo roomId (session_hostName session)
               (size (peers room)) (session_createdAt session)
         ∧ (1 ≤ size (peers room))%nat).
Proof.
  intros Hreach.
  pose proof (reachable_registry_inv _ _ Hreach) as [_ Hrooms].
  pose proof (reachable_inv _ _ Hreach) as [Hne _].
  unfold apiGetRoom, InviteManager.getRoomSession.
  destruct (rooms st !! roomId) as [room|] eqn:Hr.
  - destruct (Hrooms roomId room Hr) as [_ [session Hs]].
    unfold sessions in Hs. rewrite Hs. split; [done|].
    intros ? [= <-]. exists session. repeat split; try done.
    assert (size (peers room) ≠ 0); [|lia].
    rewrite map_size_empty_iff. by eapply Hne.
  - split; [done|]. by intros.
Qed.

Lemma apiGetRoom_found_iff_registered_witness :
  apiGetRoom "r2" host_and_waiting = ApiNotFound
  ↔ rooms host_and_waiting !! "r2" = None.
Proof.
  apply (apiGetRoom_found_iff_registered counting_start host_and_waiting "r2").
  apply reachable_run, reachable_init.
Defined.

(** X12. In every state the server reaches, the connections that pass
    [isHost] in a room are exactly its creator, while it is in the room:
    the role host alone never lets another connection through, and the
    creator passes whatever its role has become. *)
Theorem isHost_iff_creator {E : Type} `{!MediaEngine E} `{!Jwt}
  (e0 : E) (st : Server E) (r socket : string) (room : Room) :
  reachable e0 st →
  rooms st !! r = Some room →
  Room.isHost socket room = true
  ↔ socket = hostSocketId room ∧ is_Some (peers room !! socket).
Proof.
  intros [_ Hhost]%reachable_inv Hr. unfold Room.isHost.
  destruct (peers room !! socket) as [p|] eqn:Hp.
  - destruct (role p) eqn:Hrole.
    + split; [intros _|done]. split; [by eapply Hhost | by eexists].
    + rewrite bool_decide_eq_true.
      split; [intros ->; by split; [|eexists] | by intros [-> _]].
    + rewrite bool_decide_eq_true.
      split; [intros ->; by split; [|eexists] | by intros [-> _]].
    + rewrite bool_decide_eq_true.
      split; [intros ->; by split; [|eexists] | by intros [-> _]].
  - split; [done|]. by intros [_ [? ?]].
Qed.

Lemma isHost_iff_creator_witness :
  Room.isHost "b" host_and_waiting_room = true
  ↔ "b" = hostSocketId host_and_waiting_room
    ∧ is_Some (peers host_and_waiting_room !! "b").
Proof.
  apply (isHost_iff_creator counting_start host_and_waiting "r1").
  - apply reachable_run, reachable_init.
  - vm_compute. reflexivity.
Defined.

(** X13. The three host-only requests refuse a caller that does not pass
    [isHost], each with its own error, and leave the state as it was,
    whatever the target and its role. *)
Theorem host_only_requests_refuse_others {E : Type} `{!MediaEngine E} `{!Jwt}
  (socket roomId peerId : string) (promote : bool) (st : Server E)
  (room : Room) :
  rooms st !! roomId = Some room →
  Room.isHost socket room = false →
  promoteToProducer socket roomId peerId st
  = (Error "Only host can approve permissions", st)
  ∧ approveJoin socket roomId peerId promote st
    = (Error "Only host can approve joining", st)
  ∧ demoteToConsumer socket roomId peerId st
    = (Error "Only host can revoke permissions", st).
Proof.
  intros Hr Hh. unfold promoteToProducer, approveJoin, demoteToConsumer.
  by rewrite Hr, Hh.
Qed.

Lemma host_only_requests_refuse_others_witness :
  promoteToProducer "b" "r1" "b" host_and_waiting
  = (Error "Only host can approve permissions", host_and_waiting)
  ∧ approveJoin "b" "r1" "b" true host_and_waiting
    = (Error "Only host can approve joining", host_and_waiting)
  ∧ demoteToConsumer "b" "r1" "a" host_and_waiting
    = (Error "Only host can revoke permissions", host_and_waiting).
Proof.
  split; [|split].
  - apply (host_only_requests_refuse_others "b" "r1" "b" true host_and_waiting
             host_and_waiting_room); vm_compute; reflexivity.
  - apply (host_only_requests_refuse_others "b" "r1" "b" true host_and_waiting
             host_and_waiting_room); vm_compute; reflexivity.
  - apply (host_only_requests_refuse_others "b" "r1" "a" true host_and_waiting
             host_and_waiting_room); vm_compute; reflexivity.
Defined.

(** ** Disconnect *)
Section leaving.
Context {E : Type} `{!MediaEngine E} `{!Jwt}.

Lemma after_leave_absent socket room :
  peers room !! socket = None → after_leave socket room = Some room.
Proof. intros Hp. unfold after_leave. by rewrite Hp. Qed.

(** The loop over rooms none of which holds the socket changes nothing. *)
Lemma disconnect_absent socket (st : Server E) :
  (∀ r room, rooms st !! r = Some room → peers room !! socket = None) →
  disconnect socket st = st.
Proof.
  intros Habs. unfold disconnect.
  assert (∀ m : gmap string Room, m ⊆ rooms st →
            map_fold (disconnectRoom socket) st m = st) as Hgen; [|by apply Hgen].
  intros m. apply (map_fold_weak_ind (λ acc m, m ⊆ rooms st → acc = st));
    [done|].
  clear m. intros i x m acc Hi IH Hsub.
  assert (rooms st !! i = Some x) as Hix.
  { eapply lookup_weaken; [apply lookup_insert_eq | done]. }
  rewrite IH.
  - rewrite disconnectRoom_eq. by rewrite (Habs i x Hix).
  - etrans; [apply insert_subseteq; exact Hi | done].
Qed.

(** A room of the registry after a disconnect. *)
Lemma disconnect_room_after socket r (st : Server E) room' :
  rooms (disconnect socket st) !! r = Some room' →
  peers room' !! socket = None
  ∧ ∃ room, rooms st !! r = Some room
            ∧ room' = set_peers (delete socket (peers room)) room.
Proof.
  rewrite disconnect_rooms.
  destruct (rooms st !! r) as [room|] eqn:Hr; [cbn|done].
  intros [[-> Hp]|[-> _]]%after_leave_Some.
  - split; [done|]. exists room. split; [done|].
    rewrite delete_id by done. by destruct room.
  - split; [apply lookup_delete_eq|]. by exists room.
Qed.
End leaving.

(** X14. After a disconnect the socket is in no room of the registry; a
    room that stays is the room it was with the entry of the socket deleted:
    the other peers, the router and the host connection are untouched. *)
Theorem disconnect_removes_socket_everywhere {E : Type} `{!MediaEngine E}
  `{!Jwt} (socket r : string) (st : Server E) (room' : Room) :
  rooms (disconnect socket st) !! r = Some room' →
  peers room' !! socket = None
  ∧ ∃ room, rooms st !! r = Some room
            ∧ room' = set_peers (delete socket (peers room)) room.
Proof. apply disconnect_room_after. Qed.

Lemma disconnect_removes_socket_everywhere_witness :
  peers one_host_room !! "b" = None
  ∧ ∃ room, rooms host_and_waiting !! "r1" = Some room
            ∧ one_host_room = set_peers (delete "b" (peers room)) room.
Proof.
  apply (disconnect_removes_socket_everywhere "b" "r1" host_and_waiting).
  vm_compute. reflexivity.
Defined.

(** X15. A disconnect closes every producer, every consumer and both
    transports the socket holds, in every room it is in, whether the room
    stays or goes. *)
Theorem disconnect_closes_handles {E : Type} `{!MediaEngine E} `{!Jwt}
  (socket r : string) (st : Server E) (room : Room) (peer : Peer) :
  rooms st !! r = Some room →
  peers room !! socket = Some peer →
  peer_closed (engine (disconnect socket st)) peer.
Proof. intros Hr Hp. by apply (disconnect_closed socket st r room peer). Qed.

Lemma disconnect_closes_handles_witness :
  peer_closed (engine (disconnect "b" guest_speaking)) speaker_b.
Proof.
  apply (disconnect_closes_handles "b" "r1" guest_speaking guest_speaking_room).
  - vm_compute. reflexivity.
  - vm_compute. reflexivity.
Defined.

(** X16. A disconnect of a socket that is in no room changes nothing at
    all, so a second disconnect of the same socket is without effect. *)
Theorem disconnect_twice {E : Type} `{!MediaEngine E} `{!Jwt}
  (socket : string) (st : Server E) :
  disconnect socket (disconnect socket st) = disconnect socket st.
Proof.
  apply disconnect_absent. intros r room' Hr'.
  by apply disconnect_room_after in Hr' as [? _].
Qed.

(** ** Join *)

(** X17. A join writes one entry: the rooms and the invite sessions under
    every other room id are as before, and in the room it names, when the
    room was there, the other peers, the router and the host connection are
    as before and no session is written (an invite token is minted only
    when the join creates the room). *)
Theorem join_writes_one_entry {E : Type} `{!MediaEngine E} `{!Jwt}
  (now : N) (socket roomId uid name : string) (caps : RtpCapabilities)
  (tok : option string) (st : Server E) (r : string) :
  let st' := (join now socket roomId uid name caps tok st).2 in
  (r ≠ roomId → rooms st' !! r = rooms st !! r
                ∧ sessions st' !! r = sessions st !! r)
  ∧ (∀ room, rooms st !! roomId = Some room →
       sessions st' = sessions st
       ∧ ∃ room', rooms st' !! roomId = Some room'
           ∧ delete socket (peers room') = delete socket (peers room)
           ∧ (room_id room', router room', hostSocketId room',
              room_createdAt room')
             = (room_id room, router room, hostSocketId room,
                room_createdAt room)).
Proof.
  cbn zeta. rewrite join_rooms, join_sessions. split.
  - intros Hne. destruct (token_refused tok roomId now); [done|].
    destruct (rooms st !! roomId) as [room|] eqn:Hr.
    + by rewrite lookup_insert_ne.
    + destruct (worker_createRouter (engine st)).1; [|done]. cbn.
      by rewrite !lookup_insert_ne.
  - intros room Hr. rewrite Hr.
    destruct (token_refused tok roomId now).
    + split; [done|]. by exists room.
    + split; [done|]. rewrite lookup_insert_eq. eexists. split; [done|].
      cbn. by rewrite delete_insert_eq.
Qed.

Lemma join_writes_one_entry_witness :
  rooms (join 3000 "c" "r2" "uc" "Carol" [] None host_and_waiting).2 !! "r1"
  = rooms host_and_waiting !! "r1"
  ∧ sessions (join 3000 "c" "r2" "uc" "Carol" [] None host_and_waiting).2
      !! "r1"
    = sessions host_and_waiting !! "r1".
Proof.
  apply (join_writes_one_entry 3000 "c" "r2" "uc" "Carol" [] None
           host_and_waiting "r1").
  discriminate.
Defined.

(** X18. A join that presents an invite token is refused, and changes
    nothing, when the verifier rejects the token (bad signature, expired)
    or accepts it for another room: no room is created and no peer is
    added. *)
Theorem join_with_bad_token_refused {E : Type} `{!MediaEngine E} `{!Jwt}
  (now : N) (socket roomId uid name : string) (caps : RtpCapabilities)
  (tok : string) (st : Server E) :
  tok ≠ "" →
  match jwt_verify tok (now `div` 1000)%N with
  | Some decoded => payload_roomId decoded ≠ roomId
  | None => True
  end →
  join now socket roomId uid name caps (Some tok) st
  = (Error "Invalid or expired invite token", st).
Proof.
  intros Hne Hbad. rewrite join_eq. unfold token_refused. cbn.
  rewrite bool_decide_eq_false_2 by done.
  unfold InviteManager.verifyInviteToken.
  destruct (jwt_verify tok (now `div` 1000)%N) as [decoded|]; cbn; [|done].
  by rewrite bool_decide_eq_true_2.
Qed.

Lemma join_with_bad_token_refused_witness :
  join 5000 "c" "r2" "uc" "Carol" [] (Some r1_token) host_and_waiting
  = (Error "Invalid or expired invite token", host_and_waiting).
Proof.
  apply (join_with_bad_token_refused 5000 "c" "r2" "uc" "Carol" [] r1_token).
  - discriminate.
  - vm_compute. discriminate.
Defined.

(** X19. A join that presents a token the verifier accepts for the room it
    names proceeds exactly as a join without token, and so does a join whose
    token is the empty string, which is not verified at all. *)
Theorem join_with_good_token_as_without {E : Type} `{!MediaEngine E} `{!Jwt}
  (now : N) (socket roomId uid name : string) (caps : RtpCapabilities)
  (tok : string) (decoded : InvitePayload) (st : Server E) :
  jwt_verify tok (now `div` 1000)%N = Some decoded →
  payload_roomId decoded = roomId →
  join now socket roomId uid name caps (Some tok) st
  = join now socket roomId uid name caps None st
  ∧ join now socket roomId uid name caps (Some "") st
    = join now socket roomId uid name caps None st.
Proof.
  intros Hv Hroom. rewrite !join_eq. unfold token_refused. cbn.
  split; [|done]. case_bool_decide; [done|].
  unfold InviteManager.verifyInviteToken. rewrite Hv. cbn.
  by rewrite bool_decide_eq_false_2 by (by intros ?).
Qed.

Lemma join_with_good_token_as_without_witness :
  join 5000 "c" "r1" "uc" "Carol" [] (Some r1_token) host_and_waiting
  = join 5000 "c" "r1" "uc" "Carol" [] None host_and_waiting
  ∧ join 5000 "c" "r1" "uc" "Carol" [] (Some "") host_and_waiting
    = join 5000 "c" "r1" "uc" "Carol" [] None host_and_waiting.
Proof.
  apply (join_with_good_token_as_without 5000 "c" "r1" "uc" "Carol" []
           r1_token
           {| payload_roomId := "r1"; payload_hostName := Some "Host";
              iat := 1; exp := 86401 |}).
  - vm_compute. reflexivity.
  - reflexivity.
Defined.

(** X20. Room creation is all or nothing: when the engine throws while it
    makes the router of a new room, the join is answered
    [Failed to join room] and neither a room nor an invite session is
    left behind. *)
Theorem join_engine_failure_leaves_registry {E : Type} `{!MediaEngine E}
  `{!Jwt} (now : N) (socket roomId uid name : string)
  (caps : RtpCapabilities) (st : Server E) :
  rooms st !! roomId = None →
  (worker_createRouter (engine st)).1 = None →
  let res := join now socket roomId uid name caps None st in
  res.1 = Error "Failed to join room"
  ∧ rooms res.2 = rooms st
  ∧ inviteManager res.2 = inviteManager st.
Proof.
  intros Hr Hfail. cbn zeta. rewrite join_eq, ensureRoom_eq, Hr. cbn.
  by destruct (worker_createRouter (engine st)) as [[h|] e']; cbn in *.
Qed.

Lemma join_engine_failure_leaves_registry_witness :
  (join 1000 "a" "r1" "ua" "Alice" [] None (init ())).1
  = Error "Failed to join room"
  ∧ rooms (join 1000 "a" "r1" "ua" "Alice" [] None (init ())).2
    = rooms (init ())
  ∧ inviteManager (join 1000 "a" "r1" "ua" "Alice" [] None (init ())).2
    = inviteManager (init ()).
Proof.
  apply (join_engine_failure_leaves_registry 1000 "a" "r1" "ua" "Alice" []
           (init ())).
  - reflexivity.
  - reflexivity.
Defined.

(** ** Publishing *)

(** X21. A [produce] that is answered with a producer id was sent by a peer
    that may publish (role producer or host) over its own send transport;
    the producer is stored on that peer under the id of the answer, with the
    kind of the request, and nothing else of the peer changes. *)
Theorem produce_success {E : Type} `{!MediaEngine E} `{!Jwt}
  (socket roomId : string) (t pid : HandleId) (kind : MediaKind)
  (st st' : Server E) :
  produce socket roomId t kind st = (Produced pid, st') →
  ∃ room p,
    rooms st !! roomId = Some room
    ∧ peers room !! socket = Some p
    ∧ (role p = producer ∨ role p = host)
    ∧ sendTransport p = Some t
    ∧ (transport_produce t kind (engine st)).1 = Some pid
    ∧ peer_of st' roomId socket
      = Some (set_producers
                (<[pid := {| producer_id := pid; producer_kind := kind |}]>
                   (producers p)) p).
Proof.
  unfold produce, Room.getPeer.
  destruct (rooms st !! roomId) as [room|] eqn:Hr; [|done].
  destruct (peers room !! socket) as [p|] eqn:Hp; [|done].
  destruct (Room.canPeerProduce socket room) eqn:Hcan; [|done]. cbn.
  destruct (sendTransport p) as [t0|] eqn:Ht; [|done].
  case_bool_decide as Heq; [subst t0|done].
  destruct (transport_produce t kind (engine st)) as [[pid'|] e'] eqn:Hpr;
    [|done].
  intros [= <- <-]. exists room, p. repeat split; try done.
  - by apply (canPeerProduce_true socket room p Hp).
  - unfold peer_of. cbn. rewrite lookup_insert_eq. cbn.
    by rewrite lookup_insert_eq.
Qed.

Lemma produce_success_witness :
  ∃ room p,
    rooms (createTransport "b" "r1" send guest_approved).2 !! "r1" = Some room
    ∧ peers room !! "b" = Some p
    ∧ (role p = producer ∨ role p = host)
    ∧ sendTransport p = Some 1
    ∧ (transport_produce 1 audio
         (engine (createTransport "b" "r1" send guest_approved).2)).1 = Some 2
    ∧ peer_of guest_speaking "r1" "b"
      = Some (set_producers
                (<[2 := {| producer_id := 2; producer_kind := audio |}]>
                   (producers p)) p).
Proof.
  apply (produce_success "b" "r1" 1 2 audio
           (createTransport "b" "r1" send guest_approved).2 guest_speaking).
  vm_compute. reflexivity.
Defined.

(** X22. Permission is checked at the point of effect: once the host has
    demoted a peer, a [produce] and a [createTransport] of kind send of that
    peer are refused and change nothing, also when the peer still names the
    transport it had. *)
Theorem publishing_refused_after_demotion {E : Type} `{!MediaEngine E} `{!Jwt}
  (socket roomId peerId : string) (t : HandleId) (kind : MediaKind)
  (st : Server E) (room : Room) (p : Peer) :
  rooms st !! roomId = Some room →
  Room.isHost socket room = true →
  peers room !! peerId = Some p →
  role p ≠ host →
  let st' := (demoteToConsumer socket roomId peerId st).2 in
  produce peerId roomId t kind st'
  = (Error "Permission denied: You do not have permission to produce media",
     st')
  ∧ createTransport peerId roomId send st'
    = (Error "Permission denied: You do not have permission to produce media. Wait for host approval.",
       st').
Proof.
  intros Hr Hh Hp Hrole. cbn zeta.
  destruct (demoteToConsumer_any_role socket roomId peerId st room p
              Hr Hh Hp Hrole) as [_ Hafter].
  apply peer_role_Some in Hafter as (room' & p' & Hr' & Hp' & Hrole').
  unfold produce, createTransport, Room.getPeer, Room.canPeerProduce.
  by rewrite Hr', Hp', Hrole'.
Qed.

Lemma publishing_refused_after_demotion_witness :
  produce "b" "r1" 1 audio (demoteToConsumer "a" "r1" "b" guest_speaking).2
  = (Error "Permission denied: You do not have permission to produce media",
     (demoteToConsumer "a" "r1" "b" guest_speaking).2)
  ∧ createTransport "b" "r1" send
      (demoteToConsumer "a" "r1" "b" guest_speaking).2
    = (Error "Permission denied: You do not have permission to produce media. Wait for host approval.",
       (demoteToConsumer "a" "r1" "b" guest_speaking).2).
Proof.
  apply (publishing_refused_after_demotion "a" "r1" "b" 1 audio guest_speaking
           guest_speaking_room speaker_b).
  - vm_compute. reflexivity.
  - vm_compute. reflexivity.
  - vm_compute. reflexivity.
  - discriminate.
Defined.

(** X23. [connectTransport] connects only a transport of the caller: an
    answer [connected] means the id names the send or the receive transport
    of the calling peer, and the call never writes the registry or the
    sessions, whatever the answer. *)
Theorem connectTransport_own_transport {E : Type} `{!MediaEngine E} `{!Jwt}
  (socket roomId : string) (t : HandleId) (st st' : Server E) :
  connectTransport socket roomId t st = (Connected, st') →
  rooms st' = rooms st
  ∧ inviteManager st' = inviteManager st
  ∧ ∃ room p, rooms st !! roomId = Some room
              ∧ peers room !! socket = Some p
              ∧ (sendTransport p = Some t ∨ recvTransport p = Some t)
              ∧ (transport_connect t (engine st)).1 = true.
Proof.
  unfold connectTransport, Room.getPeer.
  destruct (rooms st !! roomId) as [room|] eqn:Hr; [|done].
  destruct (peers room !! socket) as [p|] eqn:Hp; [|done].
  case_bool_decide as Hs.
  - rewrite Hs, bool_decide_eq_true_2 by done.
    destruct (transport_connect t (engine st)) as [[] e'] eqn:Hc; [|done].
    intros [= <-]. repeat split; try done. exists room, p. by auto.
  - destruct (recvTransport p) as [t0|] eqn:Ht; [|done].
    case_bool_decide as Heq; [subst t0|done].
    destruct (transport_connect t (engine st)) as [[] e'] eqn:Hc; [|done].
    intros [= <-]. repeat split; try done. exists room, p. by auto.
Qed.

Lemma connectTransport_own_transport_witness :
  rooms (connectTransport "b" "r1" 1 guest_speaking).2 = rooms guest_speaking
  ∧ inviteManager (connectTransport "b" "r1" 1 guest_speaking).2
    = inviteManager guest_speaking
  ∧ ∃ room p, rooms guest_speaking !! "r1" = Some room
              ∧ peers room !! "b" = Some p
              ∧ (sendTransport p = Some 1 ∨ recvTransport p = Some 1)
              ∧ (transport_connect 1 (engine guest_speaking)).1 = true.
Proof.
  apply (connectTransport_own_transport "b" "r1" 1 guest_speaking).
  vm_compute. reflexivity.
Defined.

(** ** Listings *)

(** Membership in a list gathered by [map_fold], when each round adds the
    items [I k a] to what it is given. *)
Lemma elem_of_map_fold_gather {K} `{Countable K} {A X}
  (f : K → A → list X → list X) (I : K → A → X → Prop)
  (m : gmap K A) (acc : list X) (x : X) :
  (∀ k a l y, y ∈ f k a l ↔ y ∈ l ∨ I k a y) →
  x ∈ map_fold f acc m ↔ x ∈ acc ∨ ∃ k a, m !! k = Some a ∧ I k a x.
Proof.
  intros Hf. revert x.
  apply (map_fold_weak_ind (λ res m,
    ∀ x, x ∈ res ↔ x ∈ acc ∨ ∃ k a, m !! k = Some a ∧ I k a x)).
  - intros x. split; [by left|]. intros [?|(k & a & Hk & _)]; [done|].
    by rewrite lookup_empty in Hk.
  - intros i a m' res Hi IH x. rewrite Hf, IH. split.
    + intros [[?|(k & b & Hk & HI)]|HI]; [by left|right..].
      * exists k, b. split; [|done]. rewrite lookup_insert_ne; [done|].
        intros ->. by rewrite Hi in Hk.
      * exists i, a. by rewrite lookup_insert_eq.
    + intros [?|(k & b & Hk & HI)]; [by left; left|].
      destruct (decide (i = k)) as [->|Hne].
      * rewrite lookup_insert_eq in Hk. injection Hk as <-. by right.
      * rewrite lookup_insert_ne in Hk by done. left. right. by exists k, b.
Qed.

(** X24. [getAllProducersForPeer] lists exactly the producers of the peers
    of the room other than the excluded one, each with the id of its peer,
    its kind and the display name of its peer; an empty exclusion id
    excludes nobody. *)
Theorem getAllProducersForPeer_lists (excludePeerId : string) (room : Room)
  (peerId : string) (producerId : HandleId) (kind : MediaKind) (name : string) :
  (peerId, producerId, kind, name)
    ∈ Room.getAllProducersForPeer excludePeerId room
  ↔ ∃ peer p,
      peers room !! peerId = Some peer
      ∧ producers peer !! producerId = Some p
      ∧ kind = producer_kind p ∧ name = displayName peer
      ∧ ¬ (excludePeerId ≠ "" ∧ peerId = excludePeerId).
Proof.
  unfold Room.getAllProducersForPeer.
  rewrite (elem_of_map_fold_gather _
    (λ c peer y, ¬ (excludePeerId ≠ "" ∧ c = excludePeerId)
                 ∧ ∃ k p, producers peer !! k = Some p
                          ∧ y = (c, k, producer_kind p, displayName peer))).
  - split.
    + intros [Hnil|(c & peer & Hc & Hex & k & p & Hk & [= -> -> -> ->])].
      { by apply elem_of_nil in Hnil. }
      by exists peer, p.
    + intros (peer & p & Hc & Hk & -> & -> & Hex). right.
      exists peerId, peer. split; [done|]. split; [done|]. by exists producerId, p.
  - intros c peer l y.
    destruct (bool_decide (excludePeerId ≠ "") && bool_decide (c = excludePeerId))
      eqn:Hb.
    + apply andb_true_iff in Hb as [H1%bool_decide_eq_true H2%bool_decide_eq_true].
      split; [by left|]. intros [?|[Hex _]]; [done|]. by destruct Hex.
    + rewrite (elem_of_map_fold_gather _
        (λ k p z, z = (c, k, producer_kind p, displayName peer))).
      * apply andb_false_iff in Hb.
        split; (intros [?|Hy]; [by left|right]).
        -- split; [|done]. intros [H1 H2].
           destruct Hb as [Hb|Hb]; apply bool_decide_eq_false in Hb; done.
        -- by destruct Hy.
      * intros k p l' z. rewrite elem_of_app, list_elem_of_singleton. done.
Qed.

(** X25. [hasAudio] and [hasVideo] of the participants endpoint: the flag
    of a kind is set exactly when the peer holds a producer of that
    kind. *)
Theorem hasKind_iff_producer (kind : MediaKind) (peer : Peer) :
  hasKind kind peer = true
  ↔ ∃ k p, producers peer !! k = Some p ∧ producer_kind p = kind.
Proof.
  unfold hasKind. rewrite existsb_exists. split.
  - intros (p & Hin & Hk%bool_decide_eq_true).
    apply list_elem_of_In, list_elem_of_fmap in Hin as ([k p'] & -> & Hin).
    apply elem_of_map_to_list in Hin. by exists k, p'.
  - intros (k & p & Hk & Hkind). exists p. split.
    + apply list_elem_of_In, list_elem_of_fmap. exists (k, p).
      split; [done|]. by apply elem_of_map_to_list.
    + by apply bool_decide_eq_true.
Qed.

(** X26. [getPeerByUserId] answers [null] exactly when no peer of the room
    has the user id, and otherwise answers a peer of the room that has
    it. *)
Theorem getPeerByUserId_finds (uid : string) (room : Room) :
  (getPeerByUserId uid room = None
   ↔ ∀ c p, peers room !! c = Some p → userId p ≠ uid)
  ∧ (∀ p, getPeerByUserId uid room = Some p →
          userId p = uid ∧ ∃ c, peers room !! c = Some p).
Proof.
  unfold getPeerByUserId. split.
  - rewrite head_None. split.
    + intros Hnil c p Hc Hu.
      assert (p ∈ filter (λ p, userId p = uid) (map_to_list (peers room)).*2)
        as Hin; [|by rewrite Hnil in Hin; apply elem_of_nil in Hin].
      apply list_elem_of_filter. split; [done|].
      apply list_elem_of_fmap. exists (c, p). split; [done|].
      by apply elem_of_map_to_list.
    + intros Hall. apply elem_of_nil_inv. intros p Hin.
      apply list_elem_of_filter in Hin as [Hu Hin].
      apply list_elem_of_fmap in Hin as ([c p'] & -> & Hin).
      apply elem_of_map_to_list in Hin. by apply (Hall c p').
  - intros p Hp. apply head_Some_elem_of in Hp.
    apply list_elem_of_filter in Hp as [Hu Hin]. split; [done|].
    apply list_elem_of_fmap in Hin as ([c p'] & -> & Hin).
    apply elem_of_map_to_list in Hin. by exists c.
Qed.

(** ** The invite link of a new room *)

(** X27. [POST /api/rooms] names the room after the clock, stores its
    session with no host connection yet, and, the token being a non-empty
    string, answers an invite link that carries exactly the token of the
    answer; it makes no room and calls no engine. *)
Theorem apiCreateRoom_link_carries_token {E : Type} `{!MediaEngine E} `{!Jwt}
  (hostName baseUrl : string) (now : N) (st : Server E) :
  let roomId := "room-" +:+ pretty now in
  let tok := InviteManager.generateInviteToken roomId hostName now in
  let res := apiCreateRoom hostName baseUrl now st in
  tok ≠ "" →
  res.1 = RoomCreated roomId
            (baseUrl +:+ "/room/" +:+ roomId +:+ "?inviteToken=" +:+ tok)
            tok hostName
  ∧ rooms res.2 = rooms st
  ∧ engine res.2 = engine st
  ∧ sessions res.2
    = <[roomId := {| session_hostSocketId := "";
                     session_hostName := hostName;
                     session_createdAt := now;
                     inviteToken := Some tok |}]> (sessions st).
Proof.
  cbn zeta. intros Hne. unfold apiCreateRoom. cbn.
  unfold InviteManager.generateInviteLink. cbn. rewrite lookup_insert_eq. cbn.
  by rewrite bool_decide_eq_false_2.
Qed.

Lemma apiCreateRoom_link_carries_token_witness :
  (apiCreateRoom "Host" "http://h" 1000 start).1
  = RoomCreated "room-1000"
      ("http://h" +:+ "/room/" +:+ "room-1000" +:+ "?inviteToken="
       +:+ InviteManager.generateInviteToken "room-1000" "Host" 1000)
      (InviteManager.generateInviteToken "room-1000" "Host" 1000) "Host".
Proof.
  apply (apiCreateRoom_link_carries_token "Host" "http://h" 1000 start).
  vm_compute. discriminate.
Defined.

(** ** [Room.close] *)

(** X28. [Room.close] on a room whose peers are stored under their own ids
    removes every peer, closes every producer, consumer and transport of
    every peer, and closes the router. *)
Theorem close_removes_everyone {E : Type} `{!MediaEngine E}
  (room : Room) (e : E) :
  (∀ c p, peers room !! c = Some p → peer_id p = c) →
  let res := Room.close room e in
  peers res.1 = ∅
  ∧ router res.1 = router room
  ∧ handle_closed res.2 (router room) = true
  ∧ ∀ c p, peers room !! c = Some p → peer_closed res.2 p.
Proof.
  intros Hkeys. cbn zeta. unfold Room.close.
  assert (∀ m : gmap string Peer, m ⊆ peers room →
    let acc := map_fold (λ _ peer '(r, a),
                 (Room.removePeer (peer_id peer) r a).1) (room, e) m in
    (∀ c, peers acc.1 !! c
          = match m !! c with Some _ => None | None => peers room !! c end)
    ∧ router acc.1 = router room
    ∧ (∀ h, handle_closed e h = true → handle_closed acc.2 h = true)
    ∧ (∀ c p, m !! c = Some p → peer_closed acc.2 p)) as Hgen.
  { intros m. cbn zeta.
    apply (map_fold_weak_ind (λ (acc : Room * E) (m : gmap string Peer),
      m ⊆ peers room →
      (∀ c, peers acc.1 !! c
            = match m !! c with Some _ => None | None => peers room !! c end)
      ∧ router acc.1 = router room
      ∧ (∀ h, handle_closed e h = true → handle_closed acc.2 h = true)
      ∧ (∀ c p, m !! c = Some p → peer_closed acc.2 p))).
    - intros _. by repeat split.
    - clear m. intros i peer m [r a] Hi IH Hsub.
      assert (peers room !! i = Some peer) as Hi'.
      { eapply lookup_weaken; [apply lookup_insert_eq | done]. }
      destruct IH as (IH1 & IH2 & IH3 & IH4).
      { etrans; [apply insert_subseteq; exact Hi | done]. }
      cbn [fst snd] in *. rewrite (Hkeys i peer Hi').
      assert (peers r !! i = Some peer) as Hri by (by rewrite IH1, Hi).
      rewrite (removePeer_Some _ _ _ _ Hri). cbn [fst snd].
      split; [|split; [done|split]].
      + intros c. cbn. destruct (decide (i = c)) as [->|Hne].
        * by rewrite lookup_delete_eq, lookup_insert_eq.
        * by rewrite lookup_delete_ne, lookup_insert_ne, IH1.
      + intros h Hh. by apply closePeer_mono, IH3.
      + intros c p Hc. destruct (decide (i = c)) as [->|Hne].
        * rewrite lookup_insert_eq in Hc. injection Hc as <-.
          apply closePeer_closed.
        * rewrite lookup_insert_ne in Hc by done.
          eapply peer_closed_mono; [|by eapply IH4].
          intros h. apply closePeer_mono. }
  destruct (Hgen (peers room)) as (H1 & H2 & H3 & H4); [done|].
  destruct (map_fold _ _ _) as [room' e'] eqn:Hfold. cbn [fst snd] in *.
  split; [|split; [done|split]].
  - apply map_empty. intros c. rewrite H1. by destruct (peers room !! c).
  - rewrite H2. apply handle_close_closed.
  - intros c p Hc. eapply peer_closed_mono; [|by eapply H4].
    intros h. apply handle_close_mono.
Qed.

Lemma close_removes_everyone_witness :
  peers (Room.close guest_speaking_room (engine guest_speaking)).1 = ∅
  ∧ router (Room.close guest_speaking_room (engine guest_speaking)).1
    = router guest_speaking_room
  ∧ handle_closed (Room.close guest_speaking_room (engine guest_speaking)).2
      (router guest_speaking_room) = true
  ∧ ∀ c p, peers guest_speaking_room !! c = Some p →
      peer_closed (Room.close guest_speaking_room (engine guest_speaking)).2 p.
Proof.
  apply (close_removes_everyone guest_speaking_room (engine guest_speaking)).
  intros c p Hc.
  destruct (reachable_registry_inv counting_start guest_speaking)
    as [Hpeers _]; [apply reachable_run, reachable_init|].
  apply (Hpeers "r1" guest_speaking_room c p); [vm_compute; reflexivity|done].
Defined.

(** ** Consuming and the other listings *)

(** X29. A [consume] that is answered with a consumer: the router agreed
    that the peer can consume the producer, the consumer is stored on the
    calling peer under its id, and the transport of the answer is the
    receive transport of the peer, the one it had or, when it had none, one
    made for the occasion; role, send transport and producers of the peer
    are as before. *)
Theorem consume_success {E : Type} `{!MediaEngine E} `{!Jwt}
  (socket roomId : string) (pid cid pid' t : HandleId) (kind : MediaKind)
  (caps : RtpCapabilities) (st st' : Server E) :
  consume socket roomId pid caps st = (Consumed cid pid' kind t, st') →
  pid' = pid
  ∧ ∃ room p p',
      rooms st !! roomId = Some room
      ∧ peers room !! socket = Some p
      ∧ router_canConsume (router room) pid caps (engine st) = true
      ∧ (recvTransport p = Some t ∨ recvTransport p = None)
      ∧ peer_of st' roomId socket = Some p'
      ∧ recvTransport p' = Some t
      ∧ consumers p'
        = <[cid := {| consumer_id := cid; consumer_kind := kind |}]>
            (consumers p)
      ∧ (role p', sendTransport p', producers p')
        = (role p, sendTransport p, producers p).
Proof.
  unfold consume, Room.getPeer.
  destruct (rooms st !! roomId) as [room|] eqn:Hr; [|done].
  destruct (peers room !! socket) as [p|] eqn:Hp; [|done].
  destruct (router_canConsume (router room) pid caps (engine st)) eqn:Hcan;
    [cbn|done].
  destruct (recvTransport p) as [t0|] eqn:Ht.
  - destruct (transport_consume t0 pid caps (engine st)) as [[[c k]|] e2];
      [|done].
    cbn. intros [= <- <- <- <- <-]. split; [done|].
    eexists room, p, _. unfold peer_of. cbn. rewrite lookup_insert_eq. cbn.
    rewrite lookup_insert_eq. repeat split; try done. by left.
  - destruct (router_createWebRtcTransport (router room) (engine st))
      as [[t1|] e1]; [|done].
    destruct (transport_consume t1 pid caps e1) as [[[c k]|] e2]; [|done].
    cbn. intros [= <- <- <- <- <-]. split; [done|].
    eexists room, p, _. unfold peer_of. cbn. rewrite lookup_insert_eq. cbn.
    rewrite lookup_insert_eq. repeat split; try done. by right.
Qed.

Lemma consume_success_witness :
  2 = 2
  ∧ ∃ room p p',
      rooms host_producing !! "r1" = Some room
      ∧ peers room !! "a" = Some p
      ∧ router_canConsume (router room) 2 [] (engine host_producing) = true
      ∧ (recvTransport p = Some 3 ∨ recvTransport p = None)
      ∧ peer_of (consume "a" "r1" 2 [] host_producing).2 "r1" "a" = Some p'
      ∧ recvTransport p' = Some 3
      ∧ consumers p'
        = <[4 := {| consumer_id := 4; consumer_kind := video |}]>
            (consumers p)
      ∧ (role p', sendTransport p', producers p')
        = (role p, sendTransport p, producers p).
Proof.
  apply (consume_success "a" "r1" 2 4 2 3 video [] host_producing).
  vm_compute. reflexivity.
Defined.

(** X30. [getAllProducers] lists exactly the producers of the peers of the
    room, each with the id of its peer and its kind, and
    [getVideoProducers] lists exactly those of them that are of kind
    video, each with the display name of its peer. *)
Theorem getVideoProducers_lists (room : Room) (peerId : string)
  (producerId : HandleId) (kind : MediaKind) (name : string) :
  ((peerId, producerId, kind) ∈ getAllProducers room
   ↔ ∃ peer p, peers room !! peerId = Some peer
               ∧ producers peer !! producerId = Some p
               ∧ kind = producer_kind p)
  ∧ ((peerId, producerId, name) ∈ getVideoProducers room
     ↔ ∃ peer p, peers room !! peerId = Some peer
                 ∧ producers peer !! producerId = Some p
                 ∧ producer_kind p = video ∧ name = displayName peer).
Proof.
  split.
  - unfold getAllProducers.
    rewrite (elem_of_map_fold_gather _
      (λ c peer y, ∃ k p, producers peer !! k = Some p
                          ∧ y = (c, k, producer_kind p))).
    + split.
      * intros [Hnil|(c & peer & Hc & k & p & Hk & [= -> -> ->])].
        { by apply elem_of_nil in Hnil. }
        by exists peer, p.
      * intros (peer & p & Hc & Hk & ->). right.
        exists peerId, peer. split; [done|]. by exists producerId, p.
    + intros c peer l y.
      rewrite (elem_of_map_fold_gather _
        (λ k p z, z = (c, k, producer_kind p))); [done|].
      intros k p l' z. by rewrite elem_of_app, list_elem_of_singleton.
  - unfold getVideoProducers.
    rewrite (elem_of_map_fold_gather _
      (λ c peer y, ∃ k p, producers peer !! k = Some p
                          ∧ producer_kind p = video
                          ∧ y = (c, k, displayName peer))).
    + split.
      * intros [Hnil|(c & peer & Hc & k & p & Hk & Hv & [= -> -> ->])].
        { by apply elem_of_nil in Hnil. }
        by exists peer, p.
      * intros (peer & p & Hc & Hk & Hv & ->). right.
        exists peerId, peer. split; [done|]. by exists producerId, p.
    + intros c peer l y.
      rewrite (elem_of_map_fold_gather _
        (λ k p z, producer_kind p = video ∧ z = (c, k, displayName peer)));
        [done|].
      intros k p l' z. destruct (producer_kind p).
      * split; [by left|]. by intros [?|[? _]].
      * rewrite elem_of_app, list_elem_of_singleton. split.
        -- intros [?|?]; [by left|by right].
        -- intros [?|[_ ?]]; [by left|by right].
Qed.

(** * The process with suspensions *)

Section turns.
Context {E : Type} `{!MediaEngine E} `{!Jwt}.

(** ** What a write to a held peer does *)

Lemma write_peer_fields r c obj f (ps : Process E) :
  peerObject (write_peer r c obj f ps) = peerObject ps
  ∧ created (write_peer r c obj f ps) = created ps
  ∧ suspended (write_peer r c obj f ps) = suspended ps
  ∧ inviteManager (server (write_peer r c obj f ps))
    = inviteManager (server ps)
  ∧ engine (server (write_peer r c obj f ps)) = engine (server ps).
Proof.
  unfold write_peer. case_bool_decide; [|done].
  destruct (rooms (server ps) !! r) as [room|]; [|done].
  by destruct (peers room !! c).
Qed.

Lemma write_peer_rooms r c obj f (ps : Process E) :
  rooms (server (write_peer r c obj f ps)) =
  match rooms (server ps) !! r with
  | Some room =>
      match peers room !! c with
      | Some p =>
          if bool_decide (peerObject ps !! (r, c) = obj)
          then <[r := set_peers (<[c := f p]> (peers room)) room]>
                 (rooms (server ps))
          else rooms (server ps)
      | None => rooms (server ps)
      end
  | None => rooms (server ps)
  end.
Proof.
  unfold write_peer. case_bool_decide.
  - destruct (rooms (server ps) !! r) as [room|]; [|done].
    by destruct (peers room !! c).
  - destruct (rooms (server ps) !! r) as [room|]; [|done].
    by destruct (peers room !! c).
Qed.

Lemma write_peer_resumed r c obj f i (ps : Process E) :
  rooms (server (write_peer r c obj f (resumed i ps)))
  = rooms (server (write_peer r c obj f ps)).
Proof. by rewrite !write_peer_rooms. Qed.

(** A write of a suspended handler is a write in place that keeps the
    role. *)
Lemma write_peer_update req r c obj f (ps : Process E) :
  (∀ p, peer_id (f p) = peer_id p ∧ role (f p) = role p) →
  local_update (peer_kept req) (server ps) (server (write_peer r c obj f ps)).
Proof.
  intros Hf. destruct (rooms (server ps) !! r) as [room|] eqn:Hr.
  - destruct (peers room !! c) as [p|] eqn:Hp.
    + destruct (decide (peerObject ps !! (r, c) = obj)) as [Ho|Ho].
      * eapply local_update_peer; [done..| |].
        -- destruct (Hf p) as [Hid Hro]. split; [exact Hid|].
           rewrite Hro. constructor.
        -- rewrite write_peer_rooms, Hr, Hp. by rewrite bool_decide_eq_true_2.
      * apply local_update_same. rewrite write_peer_rooms, Hr, Hp.
        by rewrite bool_decide_eq_false_2.
    + apply local_update_same. by rewrite write_peer_rooms, Hr, Hp.
  - apply local_update_same. by rewrite write_peer_rooms, Hr.
Qed.

(** The peers after a write. *)
Lemma write_peer_peer_of r c obj f (ps : Process E) r' c' :
  peer_of (server (write_peer r c obj f ps)) r' c' =
  if bool_decide (r' = r ∧ c' = c ∧ peerObject ps !! (r, c) = obj)
  then f <$> peer_of (server ps) r' c'
  else peer_of (server ps) r' c'.
Proof.
  unfold peer_of. rewrite write_peer_rooms.
  destruct (decide (r' = r ∧ c' = c ∧ peerObject ps !! (r, c) = obj))
    as [(-> & -> & Ho)|Hd].
  - rewrite (bool_decide_eq_true_2 (_ ∧ _)) by done.
    destruct (rooms (server ps) !! r) as [room|] eqn:Hr; [|by rewrite Hr].
    cbn. destruct (peers room !! c) as [p|] eqn:Hp.
    + rewrite bool_decide_eq_true_2 by done. rewrite lookup_insert_eq. cbn.
      by rewrite lookup_insert_eq.
    + rewrite Hr. cbn. by rewrite Hp.
  - rewrite (bool_decide_eq_false_2 (_ ∧ _)) by done.
    destruct (rooms (server ps) !! r) as [room|] eqn:Hr; [|done].
    destruct (peers room !! c) as [p|] eqn:Hp; [|done].
    case_bool_decide as Ho; [|done].
    destruct (decide (r' = r)) as [->|Hrr].
    + rewrite lookup_insert_eq, Hr. cbn.
      destruct (decide (c' = c)) as [->|Hcc]; [by destruct Hd|].
      by rewrite lookup_insert_ne.
    + by rewrite lookup_insert_ne.
Qed.

(** ** The join handler in two parts *)

Lemma join_rest_eq socket roomId uid name caps room (ps : Process E) :
  join_rest socket roomId uid name caps room ps =
  let r := joined_role room in
  let room2 :=
    set_peers (<[socket := joined_peer socket uid name r caps]>
                 (peers room)) room in
  (Some (Joined r
           match r with
           | waiting => []
           | _ => Room.getAllProducersForPeer socket room2
           end
           ((λ p, (peer_id p, userId p, displayName p, role p))
              <$> (map_to_list (peers room2)).*2)
           socket),
   number_peer roomId socket
     (set_server (set_room roomId room2 (server ps)) ps)).
Proof.
  unfold join_rest, Room.getPeer, Room.addPeer. cbn.
  rewrite lookup_insert_eq.
  unfold set_rtpCapabilities, set_peers, set_room, set_rooms, number_peer,
    set_server. cbn.
  rewrite !insert_insert_eq. done.
Qed.

Lemma join_present now socket roomId uid name caps tok (st : Server E) room :
  rooms st !! roomId = Some room →
  token_refused tok roomId now = false →
  join now socket roomId uid name caps tok st =
  let room2 :=
    set_peers (<[socket := joined_peer socket uid name (joined_role room)
                             caps]> (peers room)) room in
  (Joined (joined_role room)
     match joined_role room with
     | waiting => []
     | _ => Room.getAllProducersForPeer socket room2
     end
     ((λ p, (peer_id p, userId p, displayName p, role p))
        <$> (map_to_list (peers room2)).*2)
     socket,
   set_room roomId room2 st).
Proof.
  intros Hr Htok. by rewrite join_eq, Htok, ensureRoom_eq, Hr.
Qed.

(** ** What a turn does *)

Lemma effect_same t (ps : Process E) : effect ps t ps.
Proof. apply effect_quiet; try done. intros k Hk. by left. Qed.

Lemma effect_suspend t k e (ps : Process E) :
  captured ps k → effect ps t (suspend k e ps).2.
Proof.
  intros Hk. apply effect_quiet; try done. cbn. intros k' Hk'.
  apply elem_of_app in Hk' as [Hk'|Hk']; [by left|].
  apply list_elem_of_singleton in Hk' as ->. by right.
Qed.

Lemma effect_resumed now i (ps : Process E) :
  effect ps (Continue now i) (resumed i ps).
Proof.
  apply effect_quiet; try done. cbn. intros k Hk. left.
  by eapply list_elem_of_delete_inv.
Qed.

Lemma join_begin_effect now socket roomId uid name caps tok (ps : Process E) :
  effect ps (Begin now socket (Join roomId uid name caps tok))
    (join_begin now socket roomId uid name caps tok ps).2.
Proof.
  unfold join_begin.
  change (match truthy tok with Some _ => _ | None => _ end)
    with (token_refused tok roomId now).
  destruct (token_refused tok roomId now) eqn:Htok; [apply effect_same|].
  destruct (rooms (server ps) !! roomId) as [room|] eqn:Hr.
  - rewrite join_rest_eq. cbn.
    eapply effect_entered; [done..| |done|done|done]. cbn.
    by rewrite (join_present _ _ _ _ _ _ _ _ room).
  - destruct (worker_createRouter (engine (server ps))) as [result e'].
    by apply effect_suspend.
Qed.

Lemma can_produce_not_waiting socket room p :
  peers room !! socket = Some p → Room.canPeerProduce socket room = true →
  role p ≠ waiting.
Proof.
  intros Hp. unfold Room.canPeerProduce. rewrite Hp. by destruct (role p).
Qed.

Lemma createTransport_begin_effect now socket roomId kind (ps : Process E) :
  effect ps (Begin now socket (CreateTransport roomId kind))
    (createTransport_begin socket roomId kind ps).2.
Proof.
  unfold createTransport_begin, Room.getPeer.
  destruct (rooms (server ps) !! roomId) as [room|] eqn:Hr;
    [|apply effect_same].
  destruct (peers room !! socket) as [peer|] eqn:Hp; [|apply effect_same].
  destruct (bool_decide (kind = send) && _) eqn:Hperm; [apply effect_same|].
  destruct (bool_decide (kind = recv) && _); [apply effect_same|].
  destruct (match kind with send => _ | recv => _ end); [apply effect_same|].
  destruct (router_createWebRtcTransport _ _) as [result e'].
  apply effect_suspend. split; [done|]. intros Hpub.
  destruct kind; [|done]. cbn in Hperm. apply negb_false_iff in Hperm.
  exists peer. split; [unfold peer_of; by rewrite Hr|].
  by eapply can_produce_not_waiting.
Qed.

Lemma connectTransport_begin_effect now socket roomId t (ps : Process E) :
  effect ps (Begin now socket (ConnectTransport roomId t))
    (connectTransport_begin socket roomId t ps).2.
Proof.
  unfold connectTransport_begin, Room.getPeer.
  destruct (rooms (server ps) !! roomId) as [room|]; [|apply effect_same].
  destruct (peers room !! socket) as [peer|]; [|apply effect_same].
  destruct (if bool_decide _ then _ else _) as [t'|]; [|apply effect_same].
  case_bool_decide; [|apply effect_same].
  destruct (transport_connect _ _) as [result e']. by apply effect_suspend.
Qed.

Lemma produce_begin_effect now socket roomId t kind (ps : Process E) :
  effect ps (Begin now socket (Produce roomId t kind))
    (produce_begin socket roomId t kind ps).2.
Proof.
  unfold produce_begin, Room.getPeer.
  destruct (rooms (server ps) !! roomId) as [room|] eqn:Hr;
    [|apply effect_same].
  destruct (peers room !! socket) as [peer|] eqn:Hp; [|apply effect_same].
  destruct (negb _) eqn:Hperm; [apply effect_same|].
  destruct (sendTransport peer) as [t'|]; [|apply effect_same].
  case_bool_decide; [|apply effect_same].
  destruct (transport_produce _ _ _) as [result e'].
  apply effect_suspend. split; [done|]. intros _.
  apply negb_false_iff in Hperm.
  exists peer. split; [unfold peer_of; by rewrite Hr|].
  by eapply can_produce_not_waiting.
Qed.

Lemma consume_begin_effect now socket roomId pid caps (ps : Process E) :
  effect ps (Begin now socket (Consume roomId pid caps))
    (consume_begin socket roomId pid caps ps).2.
Proof.
  unfold consume_begin, Room.getPeer.
  destruct (rooms (server ps) !! roomId) as [room|]; [|apply effect_same].
  destruct (peers room !! socket) as [peer|]; [|apply effect_same].
  destruct (negb _); [apply effect_same|].
  destruct (recvTransport peer) as [t|].
  - destruct (transport_consume _ _ _ _) as [result e'].
    by apply effect_suspend.
  - destruct (router_createWebRtcTransport _ _) as [result e'].
    by apply effect_suspend.
Qed.

Lemma begin_effect now socket req (ps : Process E) :
  effect ps (Begin now socket req) (begin now socket req ps).2.
Proof.
  destruct req; cbn [begin].
  - apply join_begin_effect.
  - apply createTransport_begin_effect.
  - apply connectTransport_begin_effect.
  - apply produce_begin_effect.
  - apply consume_begin_effect.
  - destruct (handle _ _ _ _) as [reply st] eqn:Hh.
    apply effect_handled; [by left|by rewrite Hh|done..].
  - destruct (handle _ _ _ _) as [reply st] eqn:Hh.
    apply effect_handled; [by left|by rewrite Hh|done..].
  - destruct (handle _ _ _ _) as [reply st] eqn:Hh.
    apply effect_handled; [by left|by rewrite Hh|done..].
  - destruct (handle _ _ _ _) as [reply st] eqn:Hh.
    apply effect_handled; [by left|by rewrite Hh|done..].
  - destruct (handle _ _ _ _) as [reply st] eqn:Hh.
    apply effect_handled; [by left|by rewrite Hh|done..].
  - apply effect_handled; [by right|done..].
  - destruct (handle _ _ _ _) as [reply st] eqn:Hh.
    apply effect_handled; [by left|by rewrite Hh|done..].
Qed.

Lemma continue_effect now i k (ps : Process E) :
  suspended ps !! i = Some k →
  effect ps (Continue now i) (continue now k (resumed i ps)).2.
Proof.
  intros Hk. destruct k as [socket roomId uid name caps result
    |socket roomId obj kind result|result|socket roomId obj kind result
    |socket roomId obj pid caps result|socket roomId obj pid t result];
    cbn [continue].
  - unfold join_continue. destruct result as [h|]; [|apply effect_resumed].
    rewrite join_rest_eq. cbn.
    unfold joined_role, Room.getPeerCount. cbn. rewrite map_size_empty. cbn.
    eapply effect_created; [exact Hk| |done..]. cbn.
    by rewrite insert_insert_eq, insert_empty.
  - unfold createTransport_continue.
    destruct result as [t|]; [|apply effect_resumed]. cbn.
    eapply effect_written; [exact Hk|done| | | | | |].
    + instantiate (1 := match kind with
                        | send => set_sendTransport (Some t)
                        | recv => set_recvTransport (Some t)
                        end).
      intros p. by destruct kind.
    + apply write_peer_resumed.
    + unfold sessions.
      by rewrite (proj1 (proj2 (proj2 (proj2 (write_peer_fields _ _ _ _ _))))).
    + by rewrite (proj1 (write_peer_fields _ _ _ _ _)).
    + by rewrite (proj1 (proj2 (write_peer_fields _ _ _ _ _))).
    + rewrite (proj1 (proj2 (proj2 (write_peer_fields _ _ _ _ _)))). cbn.
      intros k' Hk'. left. by eapply list_elem_of_delete_inv.
  - unfold connectTransport_continue. destruct result; apply effect_resumed.
  - unfold produce_continue.
    destruct result as [pid|]; [|apply effect_resumed]. cbn.
    eapply effect_written; [exact Hk|done| | | | | |].
    + instantiate (1 := λ peer,
        set_producers
          (<[pid := {| producer_id := pid; producer_kind := kind |}]>
             (producers peer)) peer).
      intros p. done.
    + apply write_peer_resumed.
    + unfold sessions.
      by rewrite (proj1 (proj2 (proj2 (proj2 (write_peer_fields _ _ _ _ _))))).
    + by rewrite (proj1 (write_peer_fields _ _ _ _ _)).
    + by rewrite (proj1 (proj2 (write_peer_fields _ _ _ _ _))).
    + rewrite (proj1 (proj2 (proj2 (write_peer_fields _ _ _ _ _)))). cbn.
      intros k' Hk'. left. by eapply list_elem_of_delete_inv.
  - unfold consume_continue_transport.
    destruct result as [t|]; [|apply effect_resumed].
    destruct (transport_consume _ _ _ _) as [result' e'] eqn:Hc. cbn.
    eapply effect_written; [exact Hk|done| | | | | |].
    + instantiate (1 := set_recvTransport (Some t)). intros p. done.
    + cbn. apply write_peer_resumed.
    + unfold sessions. cbn.
      by rewrite (proj1 (proj2 (proj2 (proj2 (write_peer_fields _ _ _ _ _))))).
    + cbn. by rewrite (proj1 (write_peer_fields _ _ _ _ _)).
    + cbn. by rewrite (proj1 (proj2 (write_peer_fields _ _ _ _ _))).
    + cbn. rewrite (proj1 (proj2 (proj2 (write_peer_fields _ _ _ _ _)))). cbn.
      intros k' Hk'. apply elem_of_app in Hk' as [Hk'|Hk'].
      * left. by eapply list_elem_of_delete_inv.
      * apply list_elem_of_singleton in Hk' as ->. by right.
  - unfold consume_continue_consumer.
    destruct result as [c|]; [|apply effect_resumed]. cbn.
    eapply effect_written; [exact Hk|done| | | | | |].
    + instantiate (1 := λ peer,
        set_consumers (<[consumer_id c := c]> (consumers peer)) peer).
      intros p. done.
    + apply write_peer_resumed.
    + unfold sessions.
      by rewrite (proj1 (proj2 (proj2 (proj2 (write_peer_fields _ _ _ _ _))))).
    + by rewrite (proj1 (write_peer_fields _ _ _ _ _)).
    + by rewrite (proj1 (proj2 (write_peer_fields _ _ _ _ _))).
    + rewrite (proj1 (proj2 (proj2 (write_peer_fields _ _ _ _ _)))). cbn.
      intros k' Hk'. left. by eapply list_elem_of_delete_inv.
Qed.

(** Every turn has one of the five effects. *)
Lemma turn_effect t (ps : Process E) : effect ps t (turn t ps).2.
Proof.
  destruct t as [now socket req|now i]; cbn [turn].
  - apply begin_effect.
  - destruct (suspended ps !! i) as [k|] eqn:Hk; [|apply effect_same].
    by apply continue_effect.
Qed.

(** ** The invariant of the process *)

Lemma local_update_rooms R (st st' st'' : Server E) :
  rooms st'' = rooms st' → local_update R st st' → local_update R st st''.
Proof.
  intros Heq [Hsame|(r & room & c & p & p' & Hr & Hp & HR & Hupd)].
  - left. by rewrite Heq.
  - right. exists r, room, c, p, p'. by rewrite Heq.
Qed.

Lemma peer_of_rooms (st st' : Server E) r c :
  rooms st' = rooms st → peer_of st' r c = peer_of st r c.
Proof. unfold peer_of. by intros ->. Qed.

(** The peer a write in place leaves under a key was there before. *)
Lemma local_update_back R (st st' : Server E) r c p' :
  local_update R st st' → peer_of st' r c = Some p' →
  ∃ p, peer_of st r c = Some p ∧ (p' = p ∨ R r c p p').
Proof.
  unfold peer_of.
  intros [Heq|(r0 & room & c0 & p0 & p0' & Hr & Hp & HR & Heq)]; rewrite Heq.
  { intros Hp'. exists p'. by split; [|left]. }
  destruct (decide (r0 = r)) as [->|Hrr].
  - rewrite lookup_insert_eq, Hr. cbn.
    destruct (decide (c0 = c)) as [->|Hcc].
    + rewrite lookup_insert_eq. intros [= <-]. exists p0. by split; [|right].
    + rewrite lookup_insert_ne by done. intros Hp'. exists p'.
      by split; [|left].
  - rewrite lookup_insert_ne by done. intros Hp'. exists p'.
    by split; [|left].
Qed.

Lemma role_change_waiting req r c ro :
  role_change req r c ro waiting → ro = waiting.
Proof. by inversion 1. Qed.

(** A peer that is waiting after a request run in one piece, a join apart,
    was there and was waiting before, and holds no more to publish with
    than it did. *)
Lemma handle_back now socket req (st : Server E) r c p' :
  in_place req ∨ req = Disconnect →
  peer_of (handle now socket req st).2 r c = Some p' →
  ∃ p, peer_of st r c = Some p
       ∧ (role p' = waiting →
          role p = waiting
          ∧ (sendTransport p = None ∧ producers p = ∅ →
             sendTransport p' = None ∧ producers p' = ∅)).
Proof.
  intros [Hin| ->] Hp'.
  - pose proof (handle_local_update now socket req st) as Hkept.
    destruct (handle_step now socket req st Hin) as [Hstep _].
    assert (local_update (peer_kept req) st (handle now socket req st).2)
      as Hk by (by destruct req).
    destruct (local_update_back _ _ _ _ _ _ Hk Hp') as (p & Hp & Hkp).
    destruct (local_update_back _ _ _ _ _ _ Hstep Hp') as (q & Hq & Hsp).
    rewrite Hp in Hq. injection Hq as <-.
    exists p. split; [done|]. intros Hw.
    destruct Hkp as [->|[_ Hrole]]; [done|].
    rewrite Hw in Hrole. apply role_change_waiting in Hrole.
    split; [done|]. intros Hbare.
    destruct Hsp as [->|(_ & _ & _ & Hok)]; [done|].
    unfold publish_ok in Hok. rewrite Hrole, Hw in Hok. by apply Hok.
  - cbn in Hp'. apply disconnect_peer_of_sub in Hp'. by exists p'.
Qed.

(** The peer a join puts in a room that is there. *)
Lemma join_present_peer now socket roomId uid name caps tok (st : Server E)
  room :
  rooms st !! roomId = Some room →
  token_refused tok roomId now = false →
  peer_of (join now socket roomId uid name caps tok st).2 roomId socket
  = Some (joined_peer socket uid name (joined_role room) caps).
Proof.
  intros Hr Htok. rewrite (join_present _ _ _ _ _ _ _ _ room) by done.
  unfold peer_of. cbn. rewrite lookup_insert_eq. cbn.
  by rewrite lookup_insert_eq.
Qed.

Lemma effect_server_inv t (ps ps' : Process E) :
  effect ps t ps' → server_inv (server ps) → server_inv (server ps').
Proof.
  intros Heff [Hne Hhost].
  destruct Heff as [t ps' Hrooms _ _ _ _
    |now socket req ps' _ Hserver _ _ _
    |now socket roomId uid name caps tok room ps' _ _ Hserver _ _ _
    |now i k r c obj f ps' _ _ Hkeeps Hrooms _ _ _ _
    |now i socket roomId uid name caps h ps' _ Hrooms _ _ _ _].
  - pose proof (local_update_same (peer_kept Disconnect) _ _ Hrooms) as Hu.
    split; [by eapply local_update_nonempty
           |by eapply local_update_host_is_creator].
  - rewrite Hserver. by apply handle_inv.
  - rewrite Hserver. by apply join_inv.
  - assert (local_update (peer_kept Disconnect) (server ps) (server ps'))
      as Hu.
    { eapply local_update_rooms; [exact Hrooms|].
      apply write_peer_update. intros p. by destruct (Hkeeps p) as (? & ? & _). }
    split; [by eapply local_update_nonempty
           |by eapply local_update_host_is_creator].
  - split.
    + intros r room'. rewrite Hrooms.
      destruct (decide (roomId = r)) as [->|Hrr].
      * rewrite lookup_insert_eq. intros [= <-]. cbn.
        apply insert_non_empty.
      * rewrite lookup_insert_ne by done. apply Hne.
    + intros r room' c q. rewrite Hrooms.
      destruct (decide (roomId = r)) as [->|Hrr].
      * rewrite lookup_insert_eq. intros [= <-]. cbn.
        destruct (decide (socket = c)) as [->|Hc]; [done|].
        by rewrite lookup_singleton_ne by done.
      * rewrite lookup_insert_ne by done. apply Hhost.
Qed.

Lemma effect_numbered t (ps ps' : Process E) :
  effect ps t ps' → numbered ps → numbered ps'.
Proof.
  intros Heff [Hobj Hheld].
  destruct Heff as [t ps' _ _ Ho Hc Hsusp
    |now socket req ps' _ _ Ho Hc Hsusp
    |now socket roomId uid name caps tok room ps' _ _ _ Ho Hc Hsusp
    |now i k r c obj f ps' Hk Hholds _ _ _ Ho Hc Hsusp
    |now i socket roomId uid name caps h ps' _ _ _ Ho Hc Hsusp];
    unfold numbered; rewrite Ho, Hc.
  - split; [done|]. intros k r c n Hk Hh.
    destruct (Hsusp k Hk) as [Hold|Hcap]; [by eapply Hheld|].
    unfold captured in Hcap. rewrite Hh in Hcap. destruct Hcap as [Hn _].
    by eapply Hobj.
  - rewrite Hsusp. by split.
  - rewrite Hsusp. split.
    + intros key n. destruct (decide ((roomId, socket) = key)) as [<-|Hkey].
      * rewrite lookup_insert_eq. intros [= <-]. lia.
      * rewrite lookup_insert_ne by done. intros Hn%Hobj. lia.
    + intros k r c n Hk Hh. specialize (Hheld k r c n Hk Hh). lia.
  - split; [done|]. intros k' r' c' n Hk' Hh.
    destruct (Hsusp k' Hk') as [Hold|[_ Hsame]]; [by eapply Hheld|].
    rewrite Hsame in Hh. eapply Hheld; [|exact Hh].
    by eapply list_elem_of_lookup_2.
  - rewrite Hsusp. split.
    + intros key n. destruct (decide ((roomId, socket) = key)) as [<-|Hkey].
      * rewrite lookup_insert_eq. intros [= <-]. lia.
      * rewrite lookup_insert_ne by done. intros Hn%Hobj. lia.
    + intros k r c n Hk%list_elem_of_delete_inv Hh.
      specialize (Hheld k r c n Hk Hh). lia.
Qed.

Lemma effect_publishers_checked t (ps ps' : Process E) :
  effect ps t ps' → numbered ps → publishers_checked ps →
  publishers_checked ps'.
Proof.
  intros Heff [Hobj Hheld] Hchk k r c obj p Hk Hpub Hh Hlive Hp.
  destruct Heff as [t ps' Hrooms _ Ho _ Hsusp
    |now socket req ps' Hreq Hserver Ho _ Hsusp
    |now socket roomId uid name caps tok room ps' _ _ Hserver Ho _ Hsusp
    |now i k0 r0 c0 obj0 f ps' _ _ Hkeeps Hrooms _ Ho _ Hsusp
    |now i socket roomId uid name caps h ps' _ Hrooms _ Ho _ Hsusp];
    rewrite Ho in Hlive.
  - rewrite (peer_of_rooms _ _ _ _ Hrooms) in Hp.
    destruct (Hsusp k Hk) as [Hold|Hcap]; [by eapply Hchk|].
    unfold captured in Hcap. rewrite Hh in Hcap.
    destruct Hcap as [_ Hcap]. destruct (Hcap Hpub) as (p0 & Hp0 & Hw).
    rewrite Hp in Hp0. by injection Hp0 as <-.
  - rewrite Hserver in Hp. rewrite Hsusp in Hk.
    destruct (handle_back _ _ _ _ _ _ _ Hreq Hp) as (p0 & Hp0 & Hback).
    intros Hw. destruct (Hback Hw) as [Hw0 _]. by eapply Hchk.
  - rewrite Hsusp in Hk.
    destruct (decide ((roomId, socket) = (r, c))) as [[= -> ->]|Hkey].
    + rewrite lookup_insert_eq in Hlive. subst obj.
      specialize (Hheld k r c _ Hk Hh). lia.
    + rewrite lookup_insert_ne in Hlive by done. rewrite Hserver in Hp.
      rewrite join_peer_of_other in Hp by (by intros [-> ->]).
      by eapply Hchk.
  - destruct (Hsusp k Hk) as [Hold|[Hnp _]]; [|congruence].
    rewrite (peer_of_rooms _ _ _ _ Hrooms), write_peer_peer_of in Hp.
    case_bool_decide.
    + destruct (peer_of (server ps) r c) as [p0|] eqn:Hp0; [|done].
      injection Hp as <-. destruct (Hkeeps p0) as (_ & -> & _).
      by eapply Hchk.
    + by eapply Hchk.
  - rewrite Hsusp in Hk. apply list_elem_of_delete_inv in Hk.
    unfold peer_of in Hp. rewrite Hrooms in Hp.
    destruct (decide (roomId = r)) as [->|Hrr].
    + rewrite lookup_insert_eq in Hp. cbn in Hp.
      destruct (decide (socket = c)) as [->|Hc].
      * rewrite lookup_singleton_eq in Hp. by injection Hp as <-.
      * by rewrite lookup_singleton_ne in Hp.
    + rewrite lookup_insert_ne in Hp by done.
      rewrite lookup_insert_ne in Hlive by congruence.
      by eapply Hchk.
Qed.

Lemma effect_waiting_bare t (ps ps' : Process E) :
  effect ps t ps' → publishers_checked ps → waiting_bare ps →
  waiting_bare ps'.
Proof.
  intros Heff Hchk Hbare r c p Hp Hw.
  destruct Heff as [t ps' Hrooms _ _ _ _
    |now socket req ps' Hreq Hserver _ _ _
    |now socket roomId uid name caps tok room ps' Hroom Htok Hserver _ _ _
    |now i k0 r0 c0 obj0 f ps' Hk0 Hh0 Hkeeps Hrooms _ _ _ _
    |now i socket roomId uid name caps h ps' _ Hrooms _ _ _ _].
  - rewrite (peer_of_rooms _ _ _ _ Hrooms) in Hp. by eapply Hbare.
  - rewrite Hserver in Hp.
    destruct (handle_back _ _ _ _ _ _ _ Hreq Hp) as (p0 & Hp0 & Hback).
    destruct (Hback Hw) as [Hw0 Hkeep]. apply Hkeep. by eapply Hbare.
  - rewrite Hserver in Hp.
    destruct (decide (roomId = r ∧ socket = c)) as [[-> ->]|Hother].
    + rewrite (join_present_peer _ _ _ _ _ _ _ _ room) in Hp by done.
      by injection Hp as <-.
    + rewrite join_peer_of_other in Hp by done. by eapply Hbare.
  - rewrite (peer_of_rooms _ _ _ _ Hrooms), write_peer_peer_of in Hp.
    case_bool_decide as Hlive; [|by eapply Hbare].
    destruct Hlive as (-> & -> & Hlive).
    destruct (peer_of (server ps) r0 c0) as [p0|] eqn:Hp0; [|done].
    injection Hp as <-. destruct (Hkeeps p0) as (_ & Hrole & Hsame).
    rewrite Hrole in Hw.
    destruct (publishes k0) eqn:Hpub.
    + exfalso. eapply (Hchk k0 r0 c0 obj0 p0); try done.
      by eapply list_elem_of_lookup_2.
    + destruct (Hsame eq_refl) as [-> ->]. by eapply Hbare.
  - unfold peer_of in Hp. rewrite Hrooms in Hp.
    destruct (decide (roomId = r)) as [->|Hrr].
    + rewrite lookup_insert_eq in Hp. cbn in Hp.
      destruct (decide (socket = c)) as [->|Hc].
      * rewrite lookup_singleton_eq in Hp. by injection Hp as <-.
      * by rewrite lookup_singleton_ne in Hp.
    + rewrite lookup_insert_ne in Hp by done. by eapply Hbare.
Qed.

Lemma turn_inv t (ps : Process E) :
  process_inv ps → process_inv (turn t ps).2.
Proof.
  intros (Hs & Hn & Hc & Hb). pose proof (turn_effect t ps) as Heff.
  split; [by eapply effect_server_inv|].
  split; [by eapply effect_numbered|].
  split; [by eapply effect_publishers_checked|].
  by eapply effect_waiting_bare.
Qed.

Lemma boot_inv (e : E) : process_inv (boot e).
Proof.
  split; [apply init_inv|]. split; [|split].
  - split; [by intros key n|]. intros k r c n Hk.
    by apply elem_of_nil in Hk.
  - intros k r c obj p Hk. by apply elem_of_nil in Hk.
  - by intros r c p.
Qed.

Lemma interleaved_inv e0 (ps : Process E) :
  interleaved e0 ps → process_inv ps.
Proof. induction 1; [apply boot_inv|by apply turn_inv]. Qed.

Lemma interleaved_run_turns e0 ts (ps : Process E) :
  interleaved e0 ps → interleaved e0 (run_turns ts ps).
Proof.
  revert ps. induction ts as [|t ts IH]; intros ps Hps; [done|].
  cbn. apply IH. by constructor.
Qed.

(** ** The role host, turn by turn *)

Lemma peer_role_rooms (st st' : Server E) r c :
  rooms st' = rooms st → peer_role st' r c = peer_role st r c.
Proof. unfold peer_role. intros Heq. by rewrite (peer_of_rooms _ _ _ _ Heq). Qed.

Lemma write_peer_role r0 c0 obj f (ps : Process E) r c :
  (∀ p, role (f p) = role p) →
  peer_role (server (write_peer r0 c0 obj f ps)) r c
  = peer_role (server ps) r c.
Proof.
  intros Hf. unfold peer_role. rewrite write_peer_peer_of.
  case_bool_decide; [|done].
  destruct (peer_of (server ps) r c) as [p|]; [|done]. cbn. by rewrite Hf.
Qed.

(** The entry of a connection in a room that a join has just stored. *)
Lemma stored_room_peer_of (st' : Server E) rooms0 roomId socket uid name caps
  h now r c :
  rooms st'
  = <[roomId := {| room_id := roomId; router := h;
                   peers := {[socket := joined_peer socket uid name host caps]};
                   hostSocketId := socket; room_createdAt := now |}]> rooms0 →
  peer_of st' r c =
  if decide (roomId = r)
  then if decide (socket = c)
       then Some (joined_peer socket uid name host caps) else None
  else rooms0 !! r ≫= λ room, peers room !! c.
Proof.
  intros Heq. unfold peer_of. rewrite Heq.
  destruct (decide (roomId = r)) as [->|Hrr].
  - rewrite lookup_insert_eq. cbn.
    destruct (decide (socket = c)) as [->|Hc].
    + by rewrite lookup_singleton_eq.
    + by rewrite lookup_singleton_ne.
  - by rewrite lookup_insert_ne.
Qed.

Lemma effect_not_into_host t (ps ps' : Process E) r c ro :
  effect ps t ps' →
  peer_role (server ps) r c = Some ro → ro ≠ host →
  ¬ stores_room ps t r c →
  peer_role (server ps') r c ≠ Some host.
Proof.
  intros Heff Hro Hnh Hstores.
  destruct Heff as [t ps' Hrooms _ _ _ _
    |now socket req ps' _ Hserver _ _ _
    |now socket roomId uid name caps tok room ps' _ _ Hserver _ _ _
    |now i k0 r0 c0 obj0 f ps' _ _ Hkeeps Hrooms _ _ _ _
    |now i socket roomId uid name caps h ps' Hk Hrooms _ _ _ _].
  - rewrite (peer_role_rooms _ _ _ _ Hrooms). congruence.
  - rewrite Hserver. by eapply handle_not_into_host.
  - rewrite Hserver.
    by apply (handle_not_into_host now socket (Join roomId uid name caps tok)
                _ r c ro).
  - rewrite (peer_role_rooms _ _ _ _ Hrooms), write_peer_role; [congruence|].
    intros p. by destruct (Hkeeps p) as (_ & ? & _).
  - unfold peer_role. rewrite (stored_room_peer_of _ _ _ _ _ _ _ _ _ _ _ Hrooms).
    destruct (decide (roomId = r)) as [->|Hrr].
    + destruct (decide (socket = c)) as [->|Hc]; [|done].
      exfalso. apply Hstores. cbn. by eexists _, _, _, _.
    + unfold peer_role, peer_of in Hro. congruence.
Qed.

Lemma effect_host_stays t (ps ps' : Process E) r c :
  effect ps t ps' →
  peer_role (server ps) r c = Some host →
  ¬ renews_peer ps t r c →
  peer_role (server ps') r c = Some host.
Proof.
  intros Heff Hro Hrenews.
  destruct Heff as [t ps' Hrooms _ _ _ _
    |now socket req ps' _ Hserver _ _ _
    |now socket roomId uid name caps tok room ps' _ _ Hserver _ _ _
    |now i k0 r0 c0 obj0 f ps' _ _ Hkeeps Hrooms _ _ _ _
    |now i socket roomId uid name caps h ps' Hk Hrooms _ _ _ _].
  - by rewrite (peer_role_rooms _ _ _ _ Hrooms).
  - rewrite Hserver. by apply handle_host_stays.
  - rewrite Hserver.
    by apply (handle_host_stays now socket (Join roomId uid name caps tok)).
  - rewrite (peer_role_rooms _ _ _ _ Hrooms), write_peer_role; [done|].
    intros p. by destruct (Hkeeps p) as (_ & ? & _).
  - unfold peer_role. rewrite (stored_room_peer_of _ _ _ _ _ _ _ _ _ _ _ Hrooms).
    destruct (decide (roomId = r)) as [->|Hrr].
    + exfalso. apply Hrenews. cbn. by eexists _, _, _, _, _.
    + done.
Qed.

(** As long as the entry of a connection in a room is the same peer
    object, it is host after a turn exactly when it was before. *)
Lemma effect_same_object t (ps ps' : Process E) r c p p' :
  effect ps t ps' → numbered ps →
  peer_of (server ps) r c = Some p → peer_of (server ps') r c = Some p' →
  peerObject ps' !! (r, c) = peerObject ps !! (r, c) →
  role p = host ↔ role p' = host.
Proof.
  intros Heff [Hobj _] Hp Hp' Hsame.
  assert (peerObject ps !! (r, c) ≠ Some (created ps)) as Hfresh.
  { intros Hn. apply Hobj in Hn. lia. }
  destruct Heff as [t ps' Hrooms _ _ _ _
    |now socket req ps' Hreq Hserver _ _ _
    |now socket roomId uid name caps tok room ps' _ _ Hserver Ho _ _
    |now i k0 r0 c0 obj0 f ps' _ _ Hkeeps Hrooms _ _ _ _
    |now i socket roomId uid name caps h ps' Hk Hrooms _ Ho _ _].
  - rewrite (peer_of_rooms _ _ _ _ Hrooms), Hp in Hp'. by injection Hp' as <-.
  - rewrite Hserver in Hp'. destruct Hreq as [Hin| ->].
    + assert (local_update (peer_kept req) (server ps)
                (handle now socket req (server ps)).2) as Hk.
      { pose proof (handle_local_update now socket req (server ps)).
        by destruct req. }
      destruct (local_update_back _ _ _ _ _ _ Hk Hp') as (q & Hq & Hkept).
      rewrite Hp in Hq. injection Hq as <-.
      destruct Hkept as [->|[_ Hrole]]; [done|]. split.
      * intros Hh. rewrite Hh in Hrole.
        by apply role_change_from_host in Hrole.
      * intros Hh. by apply role_change_host in Hrole.
    + cbn in Hp'. apply disconnect_peer_of_sub in Hp'.
      rewrite Hp in Hp'. by injection Hp' as <-.
  - rewrite Ho in Hsame.
    destruct (decide (roomId = r ∧ socket = c)) as [[-> ->]|Hother].
    + rewrite lookup_insert_eq in Hsame. by destruct Hfresh.
    + rewrite Hserver, join_peer_of_other, Hp in Hp' by done.
      by injection Hp' as <-.
  - rewrite (peer_of_rooms _ _ _ _ Hrooms), write_peer_peer_of, Hp in Hp'.
    destruct (Hkeeps p) as (_ & Hrole & _).
    case_bool_decide; injection Hp' as <-; [by rewrite Hrole|done].
  - rewrite Ho in Hsame.
    rewrite (stored_room_peer_of _ _ _ _ _ _ _ _ _ _ _ Hrooms) in Hp'.
    destruct (decide (roomId = r)) as [->|Hrr].
    + destruct (decide (socket = c)) as [->|Hc]; [|done].
      rewrite lookup_insert_eq in Hsame. by destruct Hfresh.
    + unfold peer_of in Hp. rewrite Hp in Hp'. by injection Hp' as <-.
Qed.

(** A join that is answered at once found its room. *)
Lemma join_begin_Joined now socket roomId uid name caps tok (ps : Process E)
  ro eps parts sock :
  (join_begin now socket roomId uid name caps tok ps).1
  = Some (Joined ro eps parts sock) →
  ∃ room, rooms (server ps) !! roomId = Some room
          ∧ ro = joined_role room
          ∧ peer_role (server (join_begin now socket roomId uid name caps
                                 tok ps).2) roomId socket = Some ro.
Proof.
  unfold join_begin.
  destruct (match truthy tok with Some _ => _ | None => _ end); [done|].
  destruct (rooms (server ps) !! roomId) as [room|] eqn:Hr.
  - rewrite join_rest_eq. cbn. intros [= <- _ _ _].
    exists room. split; [done|]. split; [done|].
    unfold peer_role, peer_of. cbn. rewrite lookup_insert_eq. cbn.
    by rewrite lookup_insert_eq.
  - by destruct (worker_createRouter (engine (server ps))).
Qed.

(** A suspended handler that answers a join when it goes on is a join that
    found no room, and stores its own. *)
Lemma continue_Joined now k (ps : Process E) ro eps parts sock :
  (continue now k ps).1 = Some (Joined ro eps parts sock) →
  ro = host
  ∧ ∃ socket roomId uid name caps h,
      k = JoinAwaits socket roomId uid name caps (Some h)
      ∧ rooms (server (continue now k ps).2) !! roomId
        = Some {| room_id := roomId; router := h;
                  peers := {[socket := joined_peer socket uid name host caps]};
                  hostSocketId := socket; room_createdAt := now |}.
Proof.
  destruct k as [socket roomId uid name caps result
    |socket roomId obj kind result|result|socket roomId obj kind result
    |socket roomId obj pid caps result|socket roomId obj pid t result];
    cbn [continue].
  - unfold join_continue. destruct result as [h|]; [|done].
    rewrite join_rest_eq. cbn.
    unfold joined_role, Room.getPeerCount. cbn. rewrite map_size_empty. cbn.
    intros [= <- _ _ _]. split; [done|].
    exists socket, roomId, uid, name, caps, h. split; [done|].
    by rewrite insert_insert_eq, lookup_insert_eq, insert_empty.
  - unfold createTransport_continue. by destruct result.
  - unfold connectTransport_continue. by destruct result.
  - unfold produce_continue. by destruct result.
  - unfold consume_continue_transport. destruct result as [t|]; [|done].
    by destruct (transport_consume _ _ _ _).
  - unfold consume_continue_consumer. by destruct result.
Qed.

(** ** A handler run in one piece *)

Lemma continue_past now i (ps : Process E) :
  (length (suspended ps) ≤ i)%nat → turn (Continue now i) ps = (None, ps).
Proof. intros Hi. cbn. by rewrite lookup_ge_None_2. Qed.

Lemma continue_suspended now i k e (ps : Process E) :
  i = length (suspended ps) →
  turn (Continue now i) (suspend k e ps).2
  = continue now k (set_server (set_engine e (server ps)) ps).
Proof.
  intros ->. cbn. rewrite list_lookup_middle by done.
  unfold resumed, set_server. cbn.
  by rewrite delete_middle, app_nil_r.
Qed.

Lemma write_peer_held r c f room p e (ps : Process E) :
  rooms (server ps) !! r = Some room → peers room !! c = Some p →
  write_peer r c (peerObject ps !! (r, c)) f
    (set_server (set_engine e (server ps)) ps)
  = set_server (set_peer r room c (f p) (set_engine e (server ps))) ps.
Proof.
  intros Hr Hp. unfold write_peer. cbn.
  by rewrite bool_decide_eq_true_2, Hr, Hp.
Qed.

Lemma createTransport_in_one_piece now socket roomId kind (ps : Process E) :
  server (in_one_piece now socket (CreateTransport roomId kind) ps)
  = (createTransport socket roomId kind (server ps)).2
  ∧ suspended (in_one_piece now socket (CreateTransport roomId kind) ps)
    = suspended ps.
Proof.
  unfold in_one_piece. cbn [begin].
  unfold createTransport_begin, createTransport, Room.getPeer.
  destruct (rooms (server ps) !! roomId) as [room|] eqn:Hr;
    [|cbn [snd]; by rewrite !(continue_past _ _ ps)].
  destruct (peers room !! socket) as [peer|] eqn:Hp;
    [|cbn [snd]; by rewrite !(continue_past _ _ ps)].
  destruct (bool_decide (kind = send) && _);
    [cbn [snd]; by rewrite !(continue_past _ _ ps)|].
  destruct (bool_decide (kind = recv) && _);
    [cbn [snd]; by rewrite !(continue_past _ _ ps)|].
  destruct kind.
  - destruct (sendTransport peer) as [t|];
      [cbn [snd]; by rewrite !(continue_past _ _ ps)|].
    destruct (router_createWebRtcTransport _ _) as [[t|] e'].
    + rewrite continue_suspended by done.
      cbn [continue createTransport_continue snd].
      rewrite (write_peer_held _ _ _ room peer) by done.
      by rewrite continue_past.
    + rewrite continue_suspended by done.
      cbn [continue createTransport_continue snd].
      by rewrite continue_past.
  - destruct (recvTransport peer) as [t|];
      [cbn [snd]; by rewrite !(continue_past _ _ ps)|].
    destruct (router_createWebRtcTransport _ _) as [[t|] e'].
    + rewrite continue_suspended by done.
      cbn [continue createTransport_continue snd].
      rewrite (write_peer_held _ _ _ room peer) by done.
      by rewrite continue_past.
    + rewrite continue_suspended by done.
      cbn [continue createTransport_continue snd].
      by rewrite continue_past.
Qed.

Lemma join_in_one_piece now socket roomId uid name caps tok (ps : Process E) :
  server (in_one_piece now socket (Join roomId uid name caps tok) ps)
  = (join now socket roomId uid name caps tok (server ps)).2
  ∧ suspended (in_one_piece now socket (Join roomId uid name caps tok) ps)
    = suspended ps.
Proof.
  unfold in_one_piece. cbn [begin]. rewrite join_eq, ensureRoom_eq.
  unfold join_begin.
  change (match truthy tok with Some _ => _ | None => _ end)
    with (token_refused tok roomId now).
  destruct (token_refused tok roomId now);
    [cbn [snd]; by rewrite !(continue_past _ _ ps)|].
  destruct (rooms (server ps) !! roomId) as [room|] eqn:Hr.
  - rewrite join_rest_eq. cbn [snd].
    rewrite (continue_past _ _ (number_peer _ _ _)) by (cbn; lia). cbn [snd].
    by rewrite continue_past by (cbn; lia).
  - destruct (worker_createRouter (engine (server ps))) as [[h|] e'].
    + rewrite continue_suspended by done. cbn [continue join_continue].
      rewrite join_rest_eq. cbn [snd].
      by rewrite continue_past by (cbn; lia).
    + rewrite continue_suspended by done. cbn [continue join_continue snd].
      by rewrite continue_past by (cbn; lia).
Qed.

Lemma connectTransport_in_one_piece now socket roomId t (ps : Process E) :
  server (in_one_piece now socket (ConnectTransport roomId t) ps)
  = (connectTransport socket roomId t (server ps)).2
  ∧ suspended (in_one_piece now socket (ConnectTransport roomId t) ps)
    = suspended ps.
Proof.
  unfold in_one_piece. cbn [begin].
  unfold connectTransport_begin, connectTransport, Room.getPeer.
  destruct (rooms (server ps) !! roomId) as [room|] eqn:Hr;
    [|cbn [snd]; by rewrite !(continue_past _ _ ps)].
  destruct (peers room !! socket) as [peer|] eqn:Hp;
    [|cbn [snd]; by rewrite !(continue_past _ _ ps)].
  destruct (if bool_decide _ then _ else _) as [t'|];
    [|cbn [snd]; by rewrite !(continue_past _ _ ps)].
  case_bool_decide; [|cbn [snd]; by rewrite !(continue_past _ _ ps)].
  destruct (transport_connect _ _) as [[|] e'].
  - rewrite continue_suspended by done.
    cbn [continue connectTransport_continue snd].
    by rewrite continue_past by (cbn; lia).
  - rewrite continue_suspended by done.
    cbn [continue connectTransport_continue snd].
    by rewrite continue_past by (cbn; lia).
Qed.

Lemma produce_in_one_piece now socket roomId t kind (ps : Process E) :
  server (in_one_piece now socket (Produce roomId t kind) ps)
  = (produce socket roomId t kind (server ps)).2
  ∧ suspended (in_one_piece now socket (Produce roomId t kind) ps)
    = suspended ps.
Proof.
  unfold in_one_piece. cbn [begin].
  unfold produce_begin, produce, Room.getPeer.
  destruct (rooms (server ps) !! roomId) as [room|] eqn:Hr;
    [|cbn [snd]; by rewrite !(continue_past _ _ ps)].
  destruct (peers room !! socket) as [peer|] eqn:Hp;
    [|cbn [snd]; by rewrite !(continue_past _ _ ps)].
  destruct (negb _); [cbn [snd]; by rewrite !(continue_past _ _ ps)|].
  destruct (sendTransport peer) as [t'|];
    [|cbn [snd]; by rewrite !(continue_past _ _ ps)].
  case_bool_decide; [|cbn [snd]; by rewrite !(continue_past _ _ ps)].
  destruct (transport_produce _ _ _) as [[pid|] e'].
  - rewrite continue_suspended by done.
    cbn [continue produce_continue snd].
    rewrite (write_peer_held _ _ _ room peer) by done.
    by rewrite continue_past by (cbn; lia).
  - rewrite continue_suspended by done.
    cbn [continue produce_continue snd].
    by rewrite continue_past by (cbn; lia).
Qed.

Lemma set_peer_same roomId room socket peer (st : Server E) :
  rooms st !! roomId = Some room → peers room !! socket = Some peer →
  set_peer roomId room socket peer st = st.
Proof.
  intros Hr Hp. unfold set_peer, set_room, set_rooms, set_peers.
  rewrite (insert_id (peers room)) by done.
  destruct room, st. cbn in *. f_equal. by apply insert_id.
Qed.

Lemma write_peer_live r c obj f room p (ps : Process E) :
  peerObject ps !! (r, c) = obj →
  rooms (server ps) !! r = Some room → peers room !! c = Some p →
  write_peer r c obj f ps
  = set_server (set_peer r room c (f p) (server ps)) ps.
Proof.
  intros Ho Hr Hp. unfold write_peer.
  by rewrite bool_decide_eq_true_2, Hr, Hp.
Qed.

Lemma consume_in_one_piece now socket roomId pid caps (ps : Process E) :
  server (in_one_piece now socket (Consume roomId pid caps) ps)
  = (consume socket roomId pid caps (server ps)).2
  ∧ suspended (in_one_piece now socket (Consume roomId pid caps) ps)
    = suspended ps.
Proof.
  unfold in_one_piece. cbn [begin].
  unfold consume_begin, consume, Room.getPeer.
  destruct (rooms (server ps) !! roomId) as [room|] eqn:Hr;
    [|cbn [snd]; by rewrite !(continue_past _ _ ps)].
  destruct (peers room !! socket) as [peer|] eqn:Hp;
    [|cbn [snd]; by rewrite !(continue_past _ _ ps)].
  destruct (negb _); [cbn [snd]; by rewrite !(continue_past _ _ ps)|].
  destruct (recvTransport peer) as [t|].
  - destruct (transport_consume _ _ _ _) as [[c|] e'].
    + rewrite continue_suspended by done.
      cbn [continue consume_continue_consumer snd].
      rewrite (write_peer_held _ _ _ room peer) by done.
      by rewrite continue_past by (cbn; lia).
    + rewrite continue_suspended by done.
      cbn [continue consume_continue_consumer snd].
      rewrite continue_past by (cbn; lia). cbn [snd server suspended set_server].
      by rewrite set_peer_same.
  - destruct (router_createWebRtcTransport _ _) as [[t|] e1].
    + rewrite continue_suspended by done.
      cbn [continue consume_continue_transport].
      rewrite (write_peer_held _ _ _ room peer) by done.
      cbn [server set_server engine set_peer set_room set_rooms set_engine].
      destruct (transport_consume t pid caps e1) as [[c|] e2].
      * rewrite continue_suspended by done.
        cbn [continue consume_continue_consumer snd].
        rewrite (write_peer_live _ _ _ _
                   (set_peers (<[socket := set_recvTransport (Some t) peer]>
                                 (peers room)) room)
                   (set_recvTransport (Some t) peer)); [|done|..].
        -- unfold set_peer, set_room, set_rooms, set_peers, set_engine,
             set_server. cbn. by rewrite !insert_insert_eq.
        -- cbn. by rewrite lookup_insert_eq.
        -- cbn. by rewrite lookup_insert_eq.
      * rewrite continue_suspended by done.
        cbn [continue consume_continue_consumer snd]. done.
    + rewrite continue_suspended by done.
      cbn [continue consume_continue_transport snd].
      by rewrite continue_past by (cbn; lia).
Qed.

Lemma in_one_piece_handle now socket req (ps : Process E) :
  server (in_one_piece now socket req ps)
  = (handle now socket req (server ps)).2
  ∧ suspended (in_one_piece now socket req ps) = suspended ps.
Proof.
  destruct req; cbn [handle].
  - apply join_in_one_piece.
  - apply createTransport_in_one_piece.
  - apply connectTransport_in_one_piece.
  - apply produce_in_one_piece.
  - apply consume_in_one_piece.
  - unfold in_one_piece. cbn [begin handle].
    destruct (resumeConsumer _ _ _ _) as [reply st]. cbn [snd].
    by rewrite !(continue_past _ _ (set_server st ps)) by (cbn; lia).
  - unfold in_one_piece. cbn [begin handle].
    destruct (promoteToProducer _ _ _ _) as [reply st]. cbn [snd].
    by rewrite !(continue_past _ _ (set_server st ps)) by (cbn; lia).
  - unfold in_one_piece. cbn [begin handle].
    destruct (approveJoin _ _ _ _ _) as [reply st]. cbn [snd].
    by rewrite !(continue_past _ _ (set_server st ps)) by (cbn; lia).
  - unfold in_one_piece. cbn [begin handle].
    destruct (demoteToConsumer _ _ _ _) as [reply st]. cbn [snd].
    by rewrite !(continue_past _ _ (set_server st ps)) by (cbn; lia).
  - unfold in_one_piece. cbn [begin handle].
    destruct (requestSpeakingPermission _ _ _) as [reply st]. cbn [snd].
    by rewrite !(continue_past _ _ (set_server st ps)) by (cbn; lia).
  - unfold in_one_piece. cbn [begin handle snd].
    rewrite (continue_past _ _ (set_server _ ps)) by (cbn; lia). cbn [snd].
    by rewrite (continue_past _ _ (set_server _ ps)) by (cbn; lia).
  - unfold in_one_piece. cbn [begin handle].
    destruct (apiCreateRoom _ _ _ _) as [reply st]. cbn [snd].
    by rewrite !(continue_past _ _ (set_server st ps)) by (cbn; lia).
Qed.

Lemma interleaved_in_one_piece e0 now socket req (ps : Process E) :
  interleaved e0 ps → interleaved e0 (in_one_piece now socket req ps).
Proof.
  intros Hps. unfold in_one_piece.
  apply interleaved_turn, interleaved_turn.
  by apply (interleaved_turn e0 ps (Begin now socket req)).
Qed.

(** The states the server goes through when every handler runs in one
    piece are states of the process, with no handler suspended. *)
Lemma reachable_interleaved e0 (st : Server E) :
  reachable e0 st →
  ∃ ps, interleaved e0 ps ∧ server ps = st ∧ suspended ps = [].
Proof.
  induction 1 as [|st now socket req _ (ps & Hps & Hst & Hsusp)].
  - exists (boot e0). split; [constructor|done].
  - exists (in_one_piece now socket req ps).
    destruct (in_one_piece_handle now socket req ps) as [Hserver Hsame].
    split; [by apply interleaved_in_one_piece|].
    split; [by rewrite Hserver, Hst|by rewrite Hsame].
Qed.
End turns.

(** ** The host role *)

(** C1, as amended.  In every state the process reaches, whatever the
    order in which requests arrive and suspended handlers go on: a peer in
    the role host is the connection that created the room, so a room of the
    registry has at most one; a join that is answered at once found its room
    with a peer in it and is answered waiting; a join that is answered when
    it goes on found no room, is answered host, and stores a new room with
    its socket as host connection and only peer, over whatever room is there
    by then; no turn gives the role host to a peer that is in a room with
    another role, the turn in which its own join stores a room apart; a
    host peer stays host through every turn that does not renew its entry
    (its own disconnect, its own join of the same room, a join that stores
    a room under the same id); and as long as the entry of a connection is
    the same peer object, it is host after a turn exactly when it was
    before. *)
Theorem host_role_fixed_at_first_admission {E : Type} `{!MediaEngine E} `{!Jwt}
  (e0 : E) (ps : Process E) :
  interleaved e0 ps →
  (∀ r room c p,
     rooms (server ps) !! r = Some room → peers room !! c = Some p →
     role p = host → c = hostSocketId room)
  ∧ (∀ r room c1 c2 p1 p2,
       rooms (server ps) !! r = Some room →
       peers room !! c1 = Some p1 → peers room !! c2 = Some p2 →
       role p1 = host → role p2 = host → c1 = c2)
  ∧ (∀ now socket roomId uid name caps tok ro eps parts sock,
       let res := turn (Begin now socket (Join roomId uid name caps tok)) ps in
       res.1 = Some (Joined ro eps parts sock) →
       ro = waiting
       ∧ (∃ room, rooms (server ps) !! roomId = Some room
                  ∧ Room.getPeerCount room ≠ 0)
       ∧ peer_role (server res.2) roomId socket = Some waiting)
  ∧ (∀ now i ro eps parts sock,
       let res := turn (Continue now i) ps in
       res.1 = Some (Joined ro eps parts sock) →
       ro = host
       ∧ ∃ socket roomId uid name caps h,
           suspended ps !! i
           = Some (JoinAwaits socket roomId uid name caps (Some h))
           ∧ rooms (server res.2) !! roomId
             = Some {| room_id := roomId; router := h;
                       peers :=
                         {[socket := joined_peer socket uid name host caps]};
                       hostSocketId := socket; room_createdAt := now |})
  ∧ (∀ t r c ro,
       peer_role (server ps) r c = Some ro → ro ≠ host →
       ¬ stores_room ps t r c →
       peer_role (server (turn t ps).2) r c ≠ Some host)
  ∧ (∀ t r c,
       peer_role (server ps) r c = Some host → ¬ renews_peer ps t r c →
       peer_role (server (turn t ps).2) r c = Some host)
  ∧ (∀ t r c p p',
       peer_of (server ps) r c = Some p →
       peer_of (server (turn t ps).2) r c = Some p' →
       peerObject (turn t ps).2 !! (r, c) = peerObject ps !! (r, c) →
       role p = host ↔ role p' = host).
Proof.
  intros Hreach.
  destruct (interleaved_inv _ _ Hreach) as ([Hne Hhost] & Hnum & _ & _).
  split; [exact Hhost|]. split; [|split; [|split; [|split; [|split]]]].
  - intros r room c1 c2 p1 p2 Hr H1 H2 Hh1 Hh2.
    rewrite (Hhost r room c1 p1), (Hhost r room c2 p2); done.
  - intros now socket roomId uid name caps tok ro eps parts sock res Hres.
    destruct (join_begin_Joined _ _ _ _ _ _ _ _ _ _ _ _ Hres)
      as (room & Hr & -> & Hrole).
    rewrite (joined_role_nonempty room) in * by eauto.
    split; [done|]. split; [|done].
    exists room. split; [done|]. unfold Room.getPeerCount.
    intros Hsize%map_size_empty_iff. by eapply Hne.
  - intros now i ro eps parts sock res Hres. subst res. cbn [turn] in *.
    destruct (suspended ps !! i) as [k|] eqn:Hk; [|done].
    destruct (continue_Joined _ _ _ _ _ _ _ Hres)
      as (-> & socket & roomId & uid & name & caps & h & -> & Hroom).
    split; [done|]. by exists socket, roomId, uid, name, caps, h.
  - intros t r c ro Hro Hnh Hstores.
    by eapply effect_not_into_host; [apply turn_effect|..].
  - intros t r c Hro Hrenews.
    by eapply effect_host_stays; [apply turn_effect|..].
  - intros t r c p p' Hp Hp' Hsame.
    by eapply effect_same_object; [apply turn_effect|..].
Qed.

Lemma host_role_fixed_at_first_admission_witness :
  peer_role
    (server (turn (Begin 3000 "b" (Join "r1" "ub" "Bob" [] None))
               host_and_waiting_process).2) "r1" "a"
  = Some host.
Proof.
  apply (host_role_fixed_at_first_admission counting_start
           host_and_waiting_process).
  - apply interleaved_run_turns, interleaved_boot.
  - vm_compute. reflexivity.
  - intros [Hs _]. discriminate Hs.
Defined.

(** Two joins of a room that is not there, the second begun before the
    first has gone on: both are answered host; when the second goes on its
    room replaces the room of the first, whose host is in no room of the
    registry from then on, and the router of the first room is left open. *)
Lemma overlapping_joins_two_hosts :
  let first := turn (Continue 1002 0) two_joins_suspended in
  let second := turn (Continue 1003 0) first.2 in
  interleaved counting_start second.2
  ∧ first.1 = Some (Joined host [] [("a", "ua", "Alice", host)] "a")
  ∧ peer_role (server first.2) "r1" "a" = Some host
  ∧ second.1 = Some (Joined host [] [("b", "ub", "Bob", host)] "b")
  ∧ peer_role (server second.2) "r1" "b" = Some host
  ∧ peer_role (server second.2) "r1" "a" = None
  ∧ hostSocketId <$> rooms (server second.2) !! "r1" = Some "b"
  ∧ router <$> rooms (server first.2) !! "r1" = Some 0
  ∧ handle_closed (engine (server second.2)) 0 = false.
Proof.
  split.
  - apply interleaved_turn, interleaved_turn, interleaved_run_turns,
      interleaved_boot.
  - repeat split; vm_compute; reflexivity.
Qed.

(** ** Peers that may not publish *)

(** X10. In every state the process reaches, whatever the order in which
    requests arrive and suspended handlers go on, a peer in the role waiting
    holds nothing to publish with: it has no send transport and no
    producer, and no suspended handler that will write one holds its peer
    object. *)
Theorem waiting_peer_holds_no_publish_path {E : Type} `{!MediaEngine E}
  `{!Jwt} (e0 : E) (ps : Process E) (r c : string) (p : Peer) :
  interleaved e0 ps →
  peer_of (server ps) r c = Some p →
  role p = waiting →
  sendTransport p = None
  ∧ producers p = ∅
  ∧ ∀ k, k ∈ suspended ps → publishes k = true →
         holds k ≠ Some (r, c, peerObject ps !! (r, c)).
Proof.
  intros Hreach Hp Hw.
  destruct (interleaved_inv _ _ Hreach) as (_ & _ & Hchk & Hbare).
  destruct (Hbare r c p Hp Hw) as [Hs Hprod].
  split; [done|]. split; [done|].
  intros k Hk Hpub Hholds. by eapply (Hchk k r c _ p).
Qed.

Lemma waiting_peer_holds_no_publish_path_witness :
  sendTransport (joined_peer "b" "ub" "Bob" waiting []) = None
  ∧ producers (joined_peer "b" "ub" "Bob" waiting []) = ∅
  ∧ ∀ k, k ∈ suspended host_and_waiting_process → publishes k = true →
         holds k
         ≠ Some ("r1", "b", peerObject host_and_waiting_process !! ("r1", "b")).
Proof.
  apply (waiting_peer_holds_no_publish_path counting_start
           host_and_waiting_process "r1" "b").
  - apply interleaved_run_turns, interleaved_boot.
  - vm_compute. reflexivity.
  - reflexivity.
Defined.

(** The same does not hold of the role consumer: the host demotes [b]
    while the [createTransport] of [b] awaits the engine; when the handler
    goes on it writes the transport to the peer without a second look at
    the role, and [b], a consumer that [canPeerProduce] refuses, holds an
    open send transport. *)
Lemma demotion_before_transport_is_written :
  let demoted :=
    (turn (Begin 3000 "a" (DemoteToConsumer "r1" "b"))
       send_transport_suspended).2 in
  let res := turn (Continue 3100 0) demoted in
  interleaved counting_start res.2
  ∧ peer_role (server send_transport_suspended) "r1" "b" = Some producer
  ∧ peer_role (server demoted) "r1" "b" = Some consumer
  ∧ res.1 = Some (TransportParams 1)
  ∧ peer_role (server res.2) "r1" "b" = Some consumer
  ∧ peer_of (server res.2) "r1" "b" ≫= sendTransport = Some 1
  ∧ Room.canPeerProduce "b" <$> rooms (server res.2) !! "r1" = Some false
  ∧ handle_closed (engine (server res.2)) 1 = false.
Proof.
  split.
  - apply interleaved_turn, interleaved_turn, interleaved_run_turns,
      interleaved_boot.
  - repeat split; vm_compute; reflexivity.
Qed.
